(** * Iron Vault mechanics notation: inline and block parsers

    A shallow embedding of the two notation parsers of the site generator
    (the inline parser [parseInlineMechanic] and the block parser
    [parseIronVaultBlock]) together with the properties the specification
    states about them.

    Modelling conventions.
    - A JavaScript string is a [string]: a sequence of 8-bit characters.
      Character classes ([\s], [\w], [\d]) and [toLowerCase] follow the
      source on the ASCII range; characters above 127 are carried through
      unchanged.
    - A JavaScript number that the code obtains from [parseInt] or from an
      integer literal is a [Z] when it is a safe integer (at most
      [maxSafeInteger] in magnitude), so that it is the same number as a
      double; [NaN] is [None] at the places where the code can see it.  A
      function that meets any other number answers [Beyond], which says
      nothing about the code.
    - [x || d] on a string or a number is [strOr] / [intOr]: the default is
      taken when the value is absent, empty, zero or [NaN].
    - A template literal is written with [tpl], in which a backquote stands
      for the double-quote character of the source text. *)

From Stdlib Require Import ZArith Ascii String List Bool Lia DecimalString.
From Stdlib Require DecimalPos DecimalZ.
From stdpp Require Import base option list gmap strings.

Local Open Scope Z_scope.

(** ** JavaScript string and number primitives *)

Module JS.

Definition code (c : ascii) : nat := nat_of_ascii c.

Definition between (lo hi : nat) (c : ascii) : bool :=
  (Nat.leb lo (code c)) && (Nat.leb (code c) hi).

(** [\s], [trim] and the leading white space of [parseInt]. *)
Definition isSpace (c : ascii) : bool :=
  Nat.eqb (code c) 32 || between 9 13 c.

(** [\d] *)
Definition isDigit (c : ascii) : bool := between 48 57 c.

(** [\w] *)
Definition isWord (c : ascii) : bool :=
  between 97 122 c || between 65 90 c || isDigit c || Nat.eqb (code c) 95.

Definition lowerChar (c : ascii) : ascii :=
  if between 65 90 c then ascii_of_nat (code c + 32) else c.

Fixpoint smap (f : ascii -> ascii) (s : string) : string :=
  match s with
  | EmptyString => EmptyString
  | String c r => String (f c) (smap f r)
  end.

Definition toLowerCase (s : string) : string := smap lowerChar s.

Definition isEmpty (s : string) : bool :=
  match s with EmptyString => true | _ => false end.

Fixpoint dropWhile (p : ascii -> bool) (s : string) : string :=
  match s with
  | EmptyString => EmptyString
  | String c r => if p c then dropWhile p r else s
  end.

Fixpoint takeWhile (p : ascii -> bool) (s : string) : string :=
  match s with
  | EmptyString => EmptyString
  | String c r => if p c then String c (takeWhile p r) else EmptyString
  end.

Fixpoint trimEnd (s : string) : string :=
  match s with
  | EmptyString => EmptyString
  | String c r =>
      let r' := trimEnd r in
      if isSpace c && isEmpty r' then EmptyString else String c r'
  end.

Definition trim (s : string) : string := trimEnd (dropWhile isSpace s).

(** [s.split(sep)] for a separator that is one character out of a class:
    the result always has at least one element. *)
Fixpoint splitOn (isSep : ascii -> bool) (s : string) : list string :=
  match s with
  | EmptyString => [EmptyString]
  | String c r =>
      if isSep c then EmptyString :: splitOn isSep r
      else match splitOn isSep r with
           | h :: t => String c h :: t
           | [] => [String c EmptyString]
           end
  end.

Definition split (sep : ascii) (s : string) : list string :=
  splitOn (Ascii.eqb sep) s.

Fixpoint join (sep : string) (l : list string) : string :=
  match l with
  | [] => EmptyString
  | [x] => x
  | x :: rest => x +:+ sep +:+ join sep rest
  end.

(** [concat] of the pieces, as [results.join('')]. *)
Fixpoint concatAll (l : list string) : string :=
  match l with
  | [] => EmptyString
  | x :: rest => x +:+ concatAll rest
  end.

Fixpoint startsWith (p s : string) : bool :=
  match p, s with
  | EmptyString, _ => true
  | String a p', String b s' => Ascii.eqb a b && startsWith p' s'
  | String _ _, EmptyString => false
  end.

Fixpoint includes (sub s : string) : bool :=
  startsWith sub s ||
  match s with
  | EmptyString => false
  | String _ r => includes sub r
  end.

(** [s.indexOf(c)]: [None] stands for [-1]. *)
Fixpoint indexOf (c : ascii) (s : string) : option nat :=
  match s with
  | EmptyString => None
  | String d r =>
      if Ascii.eqb c d then Some O
      else match indexOf c r with
           | Some i => Some (S i)
           | None => None
           end
  end.

(** [s.lastIndexOf(c)] *)
Fixpoint lastIndexOf (c : ascii) (s : string) : option nat :=
  match s with
  | EmptyString => None
  | String d r =>
      match lastIndexOf c r with
      | Some i => Some (S i)
      | None => if Ascii.eqb c d then Some O else None
      end
  end.

Fixpoint sdrop (n : nat) (s : string) : string :=
  match n, s with
  | O, _ => s
  | S n', String _ r => sdrop n' r
  | S _, EmptyString => EmptyString
  end.

Fixpoint stake (n : nat) (s : string) : string :=
  match n, s with
  | O, _ => EmptyString
  | S n', String c r => String c (stake n' r)
  | S _, EmptyString => EmptyString
  end.

(** [s.substring(a, b)]: the two indices are swapped when [a > b], and
    both are clamped to the length of the string. *)
Definition substring (s : string) (a b : nat) : string :=
  let lo := Nat.min a b in
  let hi := Nat.max a b in
  stake (hi - lo) (sdrop lo s).

(** [s.substring(a)] *)
Definition substringFrom (s : string) (a : nat) : string := sdrop a s.

(** [s.replace(/c/g, rep)] for a single character [c]. *)
Fixpoint replaceChar (c : ascii) (rep : string) (s : string) : string :=
  match s with
  | EmptyString => EmptyString
  | String d r =>
      if Ascii.eqb c d then rep +:+ replaceChar c rep r
      else String d (replaceChar c rep r)
  end.

(** [s.replace(/[...]/g, '')] for a character class. *)
Fixpoint removeChars (p : ascii -> bool) (s : string) : string :=
  match s with
  | EmptyString => EmptyString
  | String c r => if p c then removeChars p r else String c (removeChars p r)
  end.

(** [s.replace(/suf$/, '')] for a literal, non-empty [suf]. *)
Fixpoint stripSuffix (suf s : string) : string :=
  match s with
  | EmptyString => EmptyString
  | String c r => if String.eqb s suf then EmptyString else String c (stripSuffix suf r)
  end.

(** [s.replace(/\.md$/, '')] *)
Definition stripMd (s : string) : string := stripSuffix ".md" s.

(** [s.replace(/^pre/, '')] for a literal [pre], and the test whether the
    literal is there. *)
Fixpoint stripPrefix (pre s : string) : option string :=
  match pre, s with
  | EmptyString, _ => Some s
  | String a pre', String b s' => if Ascii.eqb a b then stripPrefix pre' s' else None
  | String _ _, EmptyString => None
  end.

Definition dropPrefix (pre s : string) : string :=
  match stripPrefix pre s with Some r => r | None => s end.

(** The first match of a pattern anywhere in [s]: [m] matches the pattern
    at the start of its argument. *)
Fixpoint searchFirst {A : Type} (m : string -> option A) (s : string) : option A :=
  match m s with
  | Some a => Some a
  | None =>
      match s with
      | EmptyString => None
      | String _ r => searchFirst m r
      end
  end.

(** All matches of a pattern, left to right and without overlap
    ([matchAll] with the [g] flag): [m] matches at the start of its
    argument and returns the number of characters the match spans (never
    zero for the patterns of this code); [skip] characters are still part
    of the previous match. *)
Fixpoint scanAll {A : Type} (m : string -> option (A * nat)) (skip : nat)
    (s : string) : list A :=
  match s with
  | EmptyString => []
  | String _ r =>
      match skip with
      | S k => scanAll m k r
      | O =>
          match m s with
          | Some (a, n) => a :: scanAll m (n - 1) r
          | None => scanAll m O r
          end
      end
  end.

(** [s.replace(/\s+/g, '-')]: every maximal run of white space becomes one
    hyphen.  [inRun] tells that the previous character was white space. *)
Fixpoint wsRuns (inRun : bool) (s : string) : string :=
  match s with
  | EmptyString => EmptyString
  | String c r =>
      if isSpace c
      then (if inRun then wsRuns true r else String "-" (wsRuns true r))
      else String c (wsRuns false r)
  end.

Definition replaceWs (s : string) : string := wsRuns false s.

(** [s.replace(/\\\//g, '/')]: a backslash followed by a slash becomes a
    slash. *)
Fixpoint unescapeSlash (s : string) : string :=
  match s with
  | EmptyString => EmptyString
  | String c r =>
      match r with
      | String d r' =>
          if Ascii.eqb c "\" && Ascii.eqb d "/"
          then String "/" (unescapeSlash r')
          else String c (unescapeSlash r)
      | EmptyString => String c EmptyString
      end
  end.

(** [s.replace(/^\/+/, '')] *)
Definition stripLeadingSlashes (s : string) : string :=
  dropWhile (Ascii.eqb "/") s.

(** *** Numbers *)

Definition digitVal (c : ascii) : Z := Z.of_nat (code c - 48).

Definition isHexDigit (c : ascii) : bool :=
  isDigit c || between 97 102 c || between 65 70 c.

Definition hexVal (c : ascii) : Z :=
  if isDigit c then Z.of_nat (code c - 48)
  else if between 97 102 c then Z.of_nat (code c - 87)
  else Z.of_nat (code c - 55).

(** Value of a run of digits in the given radix, most significant first. *)
Fixpoint digitsValue (radix : Z) (val : ascii -> Z) (acc : Z) (s : string) : Z :=
  match s with
  | EmptyString => acc
  | String c r => digitsValue radix val (radix * acc + val c) r
  end.

Definition readDigits (radix : Z) (ok : ascii -> bool) (val : ascii -> Z)
    (s : string) : option Z :=
  let ds := takeWhile ok s in
  if isEmpty ds then None else Some (digitsValue radix val 0 ds).

(** The unsigned part of [parseInt] with no radix argument: a [0x] or [0X]
    prefix selects radix 16. *)
Definition parseUnsigned (s : string) : option Z :=
  if startsWith "0x" s || startsWith "0X" s
  then readDigits 16 isHexDigit hexVal (sdrop 2 s)
  else readDigits 10 isDigit digitVal s.

(** [parseInt(x)] where [x] is a string or [undefined] ([None]); the result
    [None] is [NaN]. *)
Definition parseInt (x : option string) : option Z :=
  match x with
  | None => None
  | Some s =>
      match dropWhile isSpace s with
      | String "-" r => Z.opp <$> parseUnsigned r
      | String "+" r => parseUnsigned r
      | r => parseUnsigned r
      end
  end.

(** [x || d] for a string that may be [undefined]. *)
Definition strOr (x : option string) (d : string) : string :=
  match x with
  | Some s => if isEmpty s then d else s
  | None => d
  end.

(** [x || d] for a number that may be [NaN]. *)
Definition intOr (x : option Z) (d : Z) : Z :=
  match x with
  | Some n => if Z.eqb n 0 then d else n
  | None => d
  end.

(** [`${n}`] for an integer. *)
Definition showInt (n : Z) : string := NilZero.string_of_int (Z.to_int n).

(** The double-quote character, and template text in which a backquote
    stands for it. *)
Definition dq : ascii := ascii_of_nat 34.

Definition tpl (s : string) : string :=
  smap (fun c => if Ascii.eqb c "`" then dq else c) s.

End JS.

Import JS.

(** ** Outcome tiers

    The result type of [getOutcome] in both parsers: the three string
    literals ['strong-hit' | 'weak-hit' | 'miss']. *)

Inductive Outcome : Type := StrongHit | WeakHit | Miss.

Definition outcomeName (o : Outcome) : string :=
  match o with
  | StrongHit => "strong-hit"
  | WeakHit => "weak-hit"
  | Miss => "miss"
  end.

(** ** Results

    What a function of the code does: it returns a value ([Ok]), or it
    throws a [TypeError] ([Throws]: a method called on [undefined], or a
    string method called on a number), or its evaluation leaves the
    fragment of this embedding ([Beyond]: a number that is no safe
    integer, a numeric string used in arithmetic, or [NaN]).  [Ok] and
    [Throws] are what the code does; [Beyond] says nothing about what it
    does. *)
Inductive Result (A : Type) : Type :=
  | Ok (a : A)
  | Throws
  | Beyond.
Arguments Ok {A} a.
Arguments Throws {A}.
Arguments Beyond {A}.

Definition mapResult {A B : Type} (f : A -> B) (r : Result A) : Result B :=
  match r with
  | Ok a => Ok (f a)
  | Throws => Throws
  | Beyond => Beyond
  end.

Definition bind {A B : Type} (r : Result A) (f : A -> Result B) : Result B :=
  match r with
  | Ok a => f a
  | Throws => Throws
  | Beyond => Beyond
  end.

(** [Number.MAX_SAFE_INTEGER]: up to it in magnitude every integer is a
    double, and sums, differences and products of integers that stay
    within it are exact. *)
Definition maxSafeInteger : Z := 9007199254740991.

Definition isSafe (n : Z) : bool := Z.abs n <=? maxSafeInteger.

(** The inline SVG icons ([ICONS]). *)
Module ICONS.

Definition sparkles : string :=
  tpl "<svg xmlns=`http://www.w3.org/2000/svg` width=`24` height=`24` viewBox=`0 0 24 24` fill=`none` stroke=`currentColor` stroke-width=`2` stroke-linecap=`round` stroke-linejoin=`round`><path d=`M9.937 15.5A2 2 0 0 0 8.5 14.063l-6.135-1.582a.5.5 0 0 1 0-.962L8.5 9.936A2 2 0 0 0 9.937 8.5l1.582-6.135a.5.5 0 0 1 .963 0L14.063 8.5A2 2 0 0 0 15.5 9.937l6.135 1.581a.5.5 0 0 1 0 .964L15.5 14.063a2 2 0 0 0-1.437 1.437l-1.582 6.135a.5.5 0 0 1-.963 0z`></path><path d=`M20 3v4`></path><path d=`M22 5h-4`></path><path d=`M4 17v2`></path><path d=`M5 18H3`></path></svg>".

Definition squareStack : string :=
  tpl "<svg xmlns=`http://www.w3.org/2000/svg` width=`24` height=`24` viewBox=`0 0 24 24` fill=`none` stroke=`currentColor` stroke-width=`2` stroke-linecap=`round` stroke-linejoin=`round`><path d=`M4 10c-1.1 0-2-.9-2-2V4c0-1.1.9-2 2-2h4c1.1 0 2 .9 2 2`></path><path d=`M10 16c-1.1 0-2-.9-2-2v-4c0-1.1.9-2 2-2h4c1.1 0 2 .9 2 2`></path><rect x=`14` y=`14` width=`8` height=`8` rx=`2`></rect></svg>".

Definition copyCheck : string :=
  tpl "<svg xmlns=`http://www.w3.org/2000/svg` width=`24` height=`24` viewBox=`0 0 24 24` fill=`none` stroke=`currentColor` stroke-width=`2` stroke-linecap=`round` stroke-linejoin=`round`><path d=`m12 15 2 2 4-4`></path><rect x=`8` y=`8` width=`14` height=`14` rx=`2` ry=`2`></rect><path d=`M4 16c-1.1 0-2-.9-2-2V4c0-1.1.9-2 2-2h10c1.1 0 2 .9 2 2`></path></svg>".

Definition squareCheckBig : string :=
  tpl "<svg xmlns=`http://www.w3.org/2000/svg` width=`24` height=`24` viewBox=`0 0 24 24` fill=`none` stroke=`currentColor` stroke-width=`2` stroke-linecap=`round` stroke-linejoin=`round`><path d=`m9 11 3 3L22 4`></path><path d=`M21 12v7a2 2 0 0 1-2 2H5a2 2 0 0 1-2-2V5a2 2 0 0 1 2-2h11`></path></svg>".

Definition rotateCcw : string :=
  tpl "<svg xmlns=`http://www.w3.org/2000/svg` width=`24` height=`24` viewBox=`0 0 24 24` fill=`none` stroke=`currentColor` stroke-width=`2` stroke-linecap=`round` stroke-linejoin=`round`><path d=`M3 12a9 9 0 1 0 9-9 9.75 9.75 0 0 0-6.74 2.74L3 8`></path><path d=`M3 3v5h5`></path></svg>".

Definition filePlus : string :=
  tpl "<svg xmlns=`http://www.w3.org/2000/svg` width=`24` height=`24` viewBox=`0 0 24 24` fill=`none` stroke=`currentColor` stroke-width=`2` stroke-linecap=`round` stroke-linejoin=`round`><path d=`M15 2H6a2 2 0 0 0-2 2v16a2 2 0 0 0 2 2h12a2 2 0 0 0 2-2V7Z`></path><path d=`M14 2v4a2 2 0 0 0 2 2h4`></path><path d=`M9 15h6`></path><path d=`M12 18v-6`></path></svg>".

Definition filePenLine : string :=
  tpl "<svg xmlns=`http://www.w3.org/2000/svg` width=`24` height=`24` viewBox=`0 0 24 24` fill=`none` stroke=`currentColor` stroke-width=`2` stroke-linecap=`round` stroke-linejoin=`round`><path d=`m18 5-2.414-2.414A2 2 0 0 0 14.172 2H6a2 2 0 0 0-2 2v16a2 2 0 0 0 2 2h12a2 2 0 0 0 2-2`></path><path d=`M21.378 12.626a1 1 0 0 0-3.004-3.004l-4.01 4.012a2 2 0 0 0-.506.854l-.837 2.87a.5.5 0 0 0 .62.62l2.87-.837a2 2 0 0 0 .854-.506z`></path><path d=`M8 18h1`></path></svg>".

Definition clock : string :=
  tpl "<svg xmlns=`http://www.w3.org/2000/svg` width=`24` height=`24` viewBox=`0 0 24 24` fill=`none` stroke=`currentColor` stroke-width=`2` stroke-linecap=`round` stroke-linejoin=`round`><circle cx=`12` cy=`12` r=`10`></circle><polyline points=`12 6 12 12 16 14`></polyline></svg>".

Definition clockArrowUp : string :=
  tpl "<svg xmlns=`http://www.w3.org/2000/svg` width=`24` height=`24` viewBox=`0 0 24 24` fill=`none` stroke=`currentColor` stroke-width=`2` stroke-linecap=`round` stroke-linejoin=`round`><path d=`M13.228 21.925A10 10 0 1 1 21.994 12.338`></path><path d=`M12 6v6l1.562.781`></path><path d=`m17 22 5-5`></path><path d=`m17 17 5 5`></path></svg>".

Definition circleCheckBig : string :=
  tpl "<svg xmlns=`http://www.w3.org/2000/svg` width=`24` height=`24` viewBox=`0 0 24 24` fill=`none` stroke=`currentColor` stroke-width=`2` stroke-linecap=`round` stroke-linejoin=`round`><path d=`M21.801 10A10 10 0 1 1 17 3.335`></path><path d=`m9 11 3 3L22 4`></path></svg>".

Definition trendingUp : string :=
  tpl "<svg xmlns=`http://www.w3.org/2000/svg` width=`24` height=`24` viewBox=`0 0 24 24` fill=`none` stroke=`currentColor` stroke-width=`2` stroke-linecap=`round` stroke-linejoin=`round`><polyline points=`22 7 13.5 15.5 8.5 10.5 2 17`></polyline><polyline points=`16 7 22 7 22 13`></polyline></svg>".

Definition trendingDown : string :=
  tpl "<svg xmlns=`http://www.w3.org/2000/svg` width=`24` height=`24` viewBox=`0 0 24 24` fill=`none` stroke=`currentColor` stroke-width=`2` stroke-linecap=`round` stroke-linejoin=`round`><polyline points=`22 17 13.5 8.5 8.5 13.5 2 7`></polyline><polyline points=`16 17 22 17 22 11`></polyline></svg>".

Definition flame : string :=
  tpl "<svg xmlns=`http://www.w3.org/2000/svg` width=`24` height=`24` viewBox=`0 0 24 24` fill=`none` stroke=`currentColor` stroke-width=`2` stroke-linecap=`round` stroke-linejoin=`round`><path d=`M8.5 14.5A2.5 2.5 0 0 0 11 12c0-1.38-.5-2-1-3-1.072-2.143-.224-4.054 2-6 .5 2.5 2 4.9 4 6.5 2 1.6 3 3.5 3 5.5a7 7 0 1 1-14 0c0-1.153.433-2.294 1-3a2.5 2.5 0 0 0 2.5 2.5z`></path></svg>".

Definition footprints : string :=
  tpl "<svg xmlns=`http://www.w3.org/2000/svg` width=`24` height=`24` viewBox=`0 0 24 24` fill=`none` stroke=`currentColor` stroke-width=`2` stroke-linecap=`round` stroke-linejoin=`round`><path d=`M4 16v-2.38C4 11.5 2.97 10.5 3 8c.03-2.72 1.49-6 4.5-6C9.37 2 10 3.8 10 5.5c0 3.11-2 5.66-2 8.68V16a2 2 0 1 1-4 0Z`></path><path d=`M20 20v-2.38c0-2.12 1.03-3.12 1-5.62-.03-2.72-1.49-6-4.5-6C14.63 6 14 7.8 14 9.5c0 3.11 2 5.66 2 8.68V20a2 2 0 1 0 4 0Z`></path><path d=`M16 17h4`></path><path d=`M4 13h4`></path></svg>".

Definition dices : string :=
  tpl "<svg xmlns=`http://www.w3.org/2000/svg` width=`24` height=`24` viewBox=`0 0 24 24` fill=`none` stroke=`currentColor` stroke-width=`2` stroke-linecap=`round` stroke-linejoin=`round`><rect width=`12` height=`12` x=`2` y=`10` rx=`2` ry=`2`></rect><path d=`m17.92 14 3.5-3.5a2.24 2.24 0 0 0 0-3l-5-4.92a2.24 2.24 0 0 0-3 0L10 6`></path><path d=`M6 18h.01`></path><path d=`M10 14h.01`></path><path d=`M15 6h.01`></path><path d=`M18 9h.01`></path></svg>".

Definition messageCircle : string :=
  tpl "<svg xmlns=`http://www.w3.org/2000/svg` width=`24` height=`24` viewBox=`0 0 24 24` fill=`none` stroke=`currentColor` stroke-width=`2` stroke-linecap=`round` stroke-linejoin=`round`><path d=`M7.9 20A9 9 0 1 0 4 16.1L2 22Z`></path></svg>".

Definition skull : string :=
  tpl "<svg xmlns=`http://www.w3.org/2000/svg` width=`24` height=`24` viewBox=`0 0 24 24` fill=`none` stroke=`currentColor` stroke-width=`2` stroke-linecap=`round` stroke-linejoin=`round`><circle cx=`9` cy=`12` r=`1`></circle><circle cx=`15` cy=`12` r=`1`></circle><path d=`M8 20v2h8v-2`></path><path d=`m12.5 17-.5-1-.5 1h1z`></path><path d=`M16 20a2 2 0 0 0 1.56-3.25 8 8 0 1 0-11.12 0A2 2 0 0 0 8 20`></path></svg>".

End ICONS.

(** ** The inline parser (iron-vault-inline)

    No renderer of this parser throws: it indexes the array of fields (an
    index past the end gives [undefined]), calls [parseInt], and calls
    string methods on values that are strings.  Each renderer is written
    as the code has it, in two steps: it reads its fields, and it builds
    the markup from what it has read (the [...Markup] functions hold the
    template of the [return]).  A renderer that reads numbers answers a
    [Result]: [Beyond] when a number is no safe integer. *)

Module Inline.

Record FileInfo : Type := { slug : string; title : string; path : string }.

Definition getOutcome (score vs1 vs2 : Z) : Outcome :=
  if (score >? vs1) && (score >? vs2) then StrongHit
  else if (score >? vs1) || (score >? vs2) then WeakHit
  else Miss.

Definition isMatch (vs1 vs2 : Z) : bool := vs1 =? vs2.

Definition escapeHtml (text : string) : string :=
  replaceChar dq "&quot;"
    (replaceChar ">" "&gt;"
      (replaceChar "<" "&lt;"
        (replaceChar "&" "&amp;" text))).

Definition pathToSlug (path : string) : string :=
  if isEmpty path then "#"
  else
    removeChars (Ascii.eqb "'")
      (removeChars (fun c => Ascii.eqb c "(" || Ascii.eqb c ")")
        (replaceWs (toLowerCase (stripMd path)))).

(** [path.replace(/\.md$/, '').split(/[/\\]/).pop() || ''] *)
Definition fileNameOf (path : string) : string :=
  strOr (last (splitOn (fun c => Ascii.eqb c "/" || Ascii.eqb c "\") (stripMd path))) "".

Definition resolvePathToSlug (path : string)
    (filesByName : option (gmap string FileInfo)) : string :=
  if isEmpty path then "#"
  else
    let filename := fileNameOf path in
    let lookupKey := toLowerCase filename in
    match filesByName with
    | Some files =>
        match files !! lookupKey with
        | Some file => slug file
        | None => pathToSlug path
        end
    | None => pathToSlug path
    end.

(** [parseInt(x) || d] for a field [x] of the code ([None] when the field
    is missing): the integer the field starts with, and [d] when it starts
    with none or when the integer is 0. *)
Definition intField (x : option string) (d : Z) : Result Z :=
  match parseInt x with
  | Some n => if isSafe n then Ok (intOr (Some n) d) else Beyond
  | None => Ok d
  end.

(** The numbers [renderMove] computes before it builds the markup. *)
Record MoveRoll : Type := {
  action : Z; statValue : Z; adds : Z; vs1 : Z; vs2 : Z;
  score : Z; outcome : Outcome; matched : bool; classes : list string }.

(** The numbers of a move from its five numeric fields; the two sums of
    the score are computed one after the other. *)
Definition rollOf (action statValue adds vs1 vs2 : Z) : Result MoveRoll :=
  if isSafe (action + statValue) && isSafe (action + statValue + adds)
  then
    let score := Z.min 10 (action + statValue + adds) in
    let outcome := getOutcome score vs1 vs2 in
    let matched := isMatch vs1 vs2 in
    let classes := ["iv-inline-mechanics"; outcomeName outcome] in
    Ok {| action := action; statValue := statValue; adds := adds;
          vs1 := vs1; vs2 := vs2; score := score; outcome := outcome;
          matched := matched;
          classes := if matched then classes ++ ["match"] else classes |}
  else Beyond.

Definition moveRoll (parts : list string) : Result MoveRoll :=
  bind (intField (parts !! 2%nat) 0) (fun action =>
  bind (intField (parts !! 3%nat) 0) (fun statValue =>
  bind (intField (parts !! 4%nat) 0) (fun adds =>
  bind (intField (parts !! 5%nat) 0) (fun vs1 =>
  bind (intField (parts !! 6%nat) 0) (fun vs2 =>
  rollOf action statValue adds vs1 vs2))))).

Definition moveMarkup (name stat : string) (r : MoveRoll) : string :=
  tpl "<span class=`" +:+ join " " (classes r) +:+ tpl "`>" +:+
  tpl "<span class=`iv-inline-outcome-icon`></span>" +:+
  tpl "<span class=`iv-inline-move-name iv-inline-link`>" +:+ escapeHtml name +:+ "</span>" +:+
  tpl "<span class=`iv-inline-stat`>(" +:+ escapeHtml stat +:+ ")</span>" +:+
  tpl "<span class=`iv-inline-separator`>—</span>" +:+
  tpl "<span class=`iv-inline-score`>" +:+ showInt (score r) +:+ "</span>" +:+
  "<span> vs </span>" +:+
  tpl "<span class=`iv-inline-challenge-die vs1`>" +:+ showInt (vs1 r) +:+ "</span>" +:+
  "<span>|</span>" +:+
  tpl "<span class=`iv-inline-challenge-die vs2`>" +:+ showInt (vs2 r) +:+ "</span>" +:+
  (if matched r then tpl "<span class=`iv-inline-match`>match</span>" else "") +:+
  "</span>".

Definition renderMove (content : string) : Result string :=
  let parts := split "|" content in
  let name := strOr (parts !! 0%nat) "" in
  let stat := strOr (parts !! 1%nat) "" in
  mapResult (moveMarkup name stat) (moveRoll parts).

Definition oracleMarkup (name roll result : string) : string :=
  tpl "<span class=`iv-inline-mechanics oracle`>" +:+
  tpl "<span class=`iv-inline-oracle-icon`>" +:+ ICONS.sparkles +:+ "</span>" +:+
  tpl "<span class=`iv-inline-oracle-name iv-inline-link`>" +:+ escapeHtml name +:+ "</span>" +:+
  "<span>(" +:+ roll +:+ ")</span>" +:+
  tpl "<span class=`iv-inline-oracle-result`>" +:+ escapeHtml result +:+ "</span>" +:+
  "</span>".

Definition renderOracle (content : string) : string :=
  let parts := split "|" content in
  let name := strOr (parts !! 0%nat) "" in
  let roll := strOr (parts !! 1%nat) "" in
  let result := strOr (parts !! 2%nat) "" in
  oracleMarkup name roll result.

(** The difference [to - fromVal] is only compared with 0: for two safe
    integers its sign as a double is its sign as an integer. *)
Definition meterMarkup (name : string) (fromVal to : Z) : string :=
  let delta := to - fromVal in
  let meterClass :=
    if delta >? 0 then "meter-increase"
    else if delta <? 0 then "meter-decrease" else "" in
  let icon := if delta >=? 0 then ICONS.trendingUp else ICONS.trendingDown in
  tpl "<span class=`iv-inline-mechanics " +:+ meterClass +:+ tpl "`>" +:+
  tpl "<span class=`iv-inline-meter-icon`>" +:+ icon +:+ "</span>" +:+
  tpl "<span class=`iv-inline-meter-name`>" +:+ escapeHtml name +:+ ":</span>" +:+
  tpl "<span class=`iv-inline-meter-change`>" +:+ showInt fromVal +:+ " → " +:+ showInt to +:+ "</span>" +:+
  "</span>".

Definition renderMeter (content : string) : Result string :=
  let parts := split "|" content in
  let name := strOr (parts !! 0%nat) "" in
  bind (intField (parts !! 1%nat) 0) (fun fromVal =>
  bind (intField (parts !! 2%nat) 0) (fun to =>
  Ok (meterMarkup name fromVal to))).

Definition burnMarkup (fromVal to : Z) : string :=
  tpl "<span class=`iv-inline-mechanics burn`>" +:+
  tpl "<span class=`iv-inline-burn-icon`>" +:+ ICONS.flame +:+ "</span>" +:+
  tpl "<span class=`iv-inline-burn-label`>Burn:</span>" +:+
  tpl "<span class=`iv-inline-burn-change`>" +:+ showInt fromVal +:+ " → " +:+ showInt to +:+ "</span>" +:+
  "</span>".

Definition renderBurn (content : string) : Result string :=
  let parts := split "|" content in
  bind (intField (parts !! 0%nat) 0) (fun fromVal =>
  bind (intField (parts !! 1%nat) 0) (fun to =>
  Ok (burnMarkup fromVal to))).

(** The class [renderInitiative] derives from the [to] value. *)
Definition initiativeClass (to : string) : string :=
  let toLower := toLowerCase to in
  if includes "control" toLower || includes "initiative" toLower
  then "initiative-in-control"
  else if includes "bad" toLower || includes "no" toLower
  then "initiative-bad-spot"
  else if includes "out" toLower
  then "initiative-out-of-combat"
  else "initiative".

Definition initiativeMarkup (from to : string) : string :=
  let initClass := initiativeClass to in
  tpl "<span class=`iv-inline-mechanics " +:+ initClass +:+ tpl "`>" +:+
  tpl "<span class=`iv-inline-initiative-icon`>" +:+ ICONS.footprints +:+ "</span>" +:+
  tpl "<span class=`iv-inline-initiative-label`>Position:</span>" +:+
  tpl "<span class=`iv-inline-initiative-change`>" +:+ escapeHtml from +:+ " → " +:+ escapeHtml to +:+ "</span>" +:+
  "</span>".

Definition renderInitiative (content : string) : string :=
  let parts := split "|" content in
  let from := strOr (parts !! 0%nat) "" in
  let to := strOr (parts !! 1%nat) (strOr (parts !! 0%nat) "") in
  initiativeMarkup from to.

Definition trackCreateMarkup (name slug : string) : string :=
  tpl "<span class=`iv-inline-mechanics track-create`>" +:+
  tpl "<span class=`iv-inline-track-icon`>" +:+ ICONS.squareStack +:+ "</span>" +:+
  tpl "<a href=`/" +:+ slug +:+ tpl "` class=`iv-inline-track-name iv-inline-link`>" +:+ escapeHtml name +:+ "</a>" +:+
  "</span>".

Definition renderTrackCreate (content : string)
    (filesByName : option (gmap string FileInfo)) : string :=
  let parts := split "|" content in
  let name := strOr (parts !! 0%nat) "" in
  let path := strOr (parts !! 1%nat) "" in
  let slug := resolvePathToSlug path filesByName in
  trackCreateMarkup name slug.

Definition trackAdvanceMarkup (name slug : string) (to steps : Z) : string :=
  let boxes := to / 4 in
  tpl "<span class=`iv-inline-mechanics track-advance`>" +:+
  tpl "<span class=`iv-inline-track-icon`>" +:+ ICONS.copyCheck +:+ "</span>" +:+
  tpl "<a href=`/" +:+ slug +:+ tpl "` class=`iv-inline-track-name iv-inline-link`>" +:+ escapeHtml name +:+ "</a>" +:+
  tpl "<span class=`iv-inline-track-progress`> +" +:+ showInt steps +:+ " (" +:+ showInt boxes +:+ "/10)</span>" +:+
  "</span>".

Definition renderTrackAdvance (content : string)
    (filesByName : option (gmap string FileInfo)) : Result string :=
  let parts := split "|" content in
  let name := strOr (parts !! 0%nat) "" in
  let path := strOr (parts !! 1%nat) "" in
  bind (intField (parts !! 3%nat) 0) (fun to =>
  bind (intField (parts !! 5%nat) 1) (fun steps =>
  let slug := resolvePathToSlug path filesByName in
  Ok (trackAdvanceMarkup name slug to steps))).

Definition trackCompleteMarkup (name slug : string) : string :=
  tpl "<span class=`iv-inline-mechanics track-complete`>" +:+
  tpl "<span class=`iv-inline-track-icon`>" +:+ ICONS.squareCheckBig +:+ "</span>" +:+
  tpl "<a href=`/" +:+ slug +:+ tpl "` class=`iv-inline-track-name iv-inline-link`>" +:+ escapeHtml name +:+ "</a>" +:+
  tpl "<span class=`iv-inline-track-status`>completed</span>" +:+
  "</span>".

Definition renderTrackComplete (content : string)
    (filesByName : option (gmap string FileInfo)) : string :=
  let parts := split "|" content in
  let name := strOr (parts !! 0%nat) "" in
  let path := strOr (parts !! 1%nat) "" in
  let slug := resolvePathToSlug path filesByName in
  trackCompleteMarkup name slug.

Definition progressRollMarkup (name slug : string) (progress vs1 vs2 : Z) : string :=
  let outcome := getOutcome progress vs1 vs2 in
  let matched := isMatch vs1 vs2 in
  let classes := ["iv-inline-mechanics"; outcomeName outcome] in
  let classes := if matched then classes ++ ["match"] else classes in
  tpl "<span class=`" +:+ join " " classes +:+ tpl "`>" +:+
  tpl "<span class=`iv-inline-outcome-icon`></span>" +:+
  tpl "<span class=`iv-inline-progress-name iv-inline-link`>" +:+ escapeHtml name +:+ "</span>" +:+
  (if isEmpty slug then ""
   else tpl "<a href=`/" +:+ slug +:+ tpl "` class=`iv-inline-progress-track iv-inline-link`>(track)</a>") +:+
  tpl "<span class=`iv-inline-separator`>—</span>" +:+
  tpl "<span class=`iv-inline-score`>" +:+ showInt progress +:+ "</span>" +:+
  "<span> vs </span>" +:+
  tpl "<span class=`iv-inline-challenge-die vs1`>" +:+ showInt vs1 +:+ "</span>" +:+
  "<span>|</span>" +:+
  tpl "<span class=`iv-inline-challenge-die vs2`>" +:+ showInt vs2 +:+ "</span>" +:+
  (if matched then tpl "<span class=`iv-inline-match`>match</span>" else "") +:+
  "</span>".

Definition renderProgressRoll (content : string)
    (filesByName : option (gmap string FileInfo)) : Result string :=
  let parts := split "|" content in
  let name := strOr (parts !! 0%nat) "" in
  bind (intField (parts !! 1%nat) 0) (fun progress =>
  bind (intField (parts !! 2%nat) 0) (fun vs1 =>
  bind (intField (parts !! 3%nat) 0) (fun vs2 =>
  let path := strOr (parts !! 4%nat) "" in
  let slug := if isEmpty path then "" else resolvePathToSlug path filesByName in
  Ok (progressRollMarkup name slug progress vs1 vs2)))).

Definition noRollMarkup (name : string) : string :=
  tpl "<span class=`iv-inline-mechanics no-roll`>" +:+
  tpl "<span class=`iv-inline-noroll-icon`>" +:+ ICONS.filePenLine +:+ "</span>" +:+
  tpl "<span class=`iv-inline-move-name iv-inline-link`>" +:+ escapeHtml name +:+ "</span>" +:+
  "</span>".

Definition renderNoRoll (content : string) : string :=
  let parts := split "|" content in
  let name := strOr (parts !! 0%nat) "" in
  noRollMarkup name.

Definition entityCreateMarkup (type name slug : string) : string :=
  tpl "<span class=`iv-inline-mechanics entity-create`>" +:+
  tpl "<span class=`iv-inline-entity-icon`>" +:+ ICONS.filePlus +:+ "</span>" +:+
  tpl "<span class=`iv-inline-entity-type`>" +:+ escapeHtml type +:+ ":</span>" +:+
  tpl "<a href=`/" +:+ slug +:+ tpl "` class=`iv-inline-entity-name iv-inline-link`>" +:+ escapeHtml name +:+ "</a>" +:+
  "</span>".

Definition renderEntityCreate (content : string)
    (filesByName : option (gmap string FileInfo)) : string :=
  let parts := split "|" content in
  let type := strOr (parts !! 0%nat) "" in
  let name := strOr (parts !! 1%nat) "" in
  let path := strOr (parts !! 2%nat) "" in
  let slug := resolvePathToSlug path filesByName in
  entityCreateMarkup type name slug.

Definition clockCreateMarkup (name segments slug : string) : string :=
  tpl "<span class=`iv-inline-mechanics clock-create`>" +:+
  tpl "<span class=`iv-inline-clock-icon`>" +:+ ICONS.clock +:+ "</span>" +:+
  tpl "<a href=`/" +:+ slug +:+ tpl "` class=`iv-inline-clock-name iv-inline-link`>" +:+ escapeHtml name +:+ "</a>" +:+
  tpl "<span class=`iv-inline-clock-progress`>(0/" +:+ segments +:+ ")</span>" +:+
  "</span>".

Definition renderClockCreate (content : string)
    (filesByName : option (gmap string FileInfo)) : string :=
  let parts := split "|" content in
  let name := strOr (parts !! 0%nat) "" in
  let segments := strOr (parts !! 1%nat) "" in
  let path := strOr (parts !! 2%nat) "" in
  let slug := resolvePathToSlug path filesByName in
  clockCreateMarkup name segments slug.

Definition clockAdvanceMarkup (name from to segments slug : string) : string :=
  tpl "<span class=`iv-inline-mechanics clock-advance`>" +:+
  tpl "<span class=`iv-inline-clock-icon`>" +:+ ICONS.clockArrowUp +:+ "</span>" +:+
  tpl "<a href=`/" +:+ slug +:+ tpl "` class=`iv-inline-clock-name iv-inline-link`>" +:+ escapeHtml name +:+ "</a>" +:+
  tpl "<span class=`iv-inline-clock-progress`>" +:+ from +:+ " → " +:+ to +:+ "/" +:+ segments +:+ "</span>" +:+
  "</span>".

Definition renderClockAdvance (content : string)
    (filesByName : option (gmap string FileInfo)) : string :=
  let parts := split "|" content in
  let name := strOr (parts !! 0%nat) "" in
  let from := strOr (parts !! 1%nat) "0" in
  let to := strOr (parts !! 2%nat) "0" in
  let segments := strOr (parts !! 3%nat) "" in
  let path := strOr (parts !! 4%nat) "" in
  let slug := resolvePathToSlug path filesByName in
  clockAdvanceMarkup name from to segments slug.

Definition clockResolveMarkup (name slug : string) : string :=
  tpl "<span class=`iv-inline-mechanics clock-resolve`>" +:+
  tpl "<span class=`iv-inline-clock-icon`>" +:+ ICONS.circleCheckBig +:+ "</span>" +:+
  tpl "<a href=`/" +:+ slug +:+ tpl "` class=`iv-inline-clock-name iv-inline-link`>" +:+ escapeHtml name +:+ "</a>" +:+
  tpl "<span class=`iv-inline-clock-status`>resolved</span>" +:+
  "</span>".

Definition renderClockResolve (content : string)
    (filesByName : option (gmap string FileInfo)) : string :=
  let parts := split "|" content in
  let name := strOr (parts !! 0%nat) "" in
  let path := strOr (parts !! 1%nat) "" in
  let slug := resolvePathToSlug path filesByName in
  clockResolveMarkup name slug.

Definition diceMarkup (expression result : string) : string :=
  tpl "<span class=`iv-inline-mechanics dice-roll`>" +:+
  tpl "<span class=`iv-inline-dice-icon`>" +:+ ICONS.dices +:+ "</span>" +:+
  tpl "<span class=`iv-inline-dice-expression`>" +:+ escapeHtml expression +:+ "</span>" +:+
  tpl "<span class=`iv-inline-dice-arrow`>→</span>" +:+
  tpl "<span class=`iv-inline-dice-result`>" +:+ escapeHtml result +:+ "</span>" +:+
  "</span>".

Definition renderDice (content : string) : string :=
  let parts := split "|" content in
  let expression := strOr (parts !! 0%nat) "" in
  let result := strOr (parts !! 1%nat) "" in
  diceMarkup expression result.

Definition renderOOC (content : string) : string :=
  tpl "<span class=`iv-inline-mechanics ooc`>" +:+
  tpl "<span class=`iv-inline-ooc-icon`>" +:+ ICONS.messageCircle +:+ "</span>" +:+
  tpl "<span class=`iv-inline-ooc-text`>" +:+ escapeHtml content +:+ "</span>" +:+
  "</span>".

(** The [switch (type)] of [parseInlineMechanic]; [None] is the [default]
    branch. *)
Definition dispatch (type content : string)
    (filesByName : option (gmap string FileInfo)) : option (Result string) :=
  if String.eqb type "iv-move" then Some (renderMove content)
  else if String.eqb type "iv-oracle" then Some (Ok (renderOracle content))
  else if String.eqb type "iv-meter" then Some (renderMeter content)
  else if String.eqb type "iv-burn" then Some (renderBurn content)
  else if String.eqb type "iv-initiative" then Some (Ok (renderInitiative content))
  else if String.eqb type "iv-track-create"
  then Some (Ok (renderTrackCreate content filesByName))
  else if String.eqb type "iv-track-advance"
  then Some (renderTrackAdvance content filesByName)
  else if String.eqb type "iv-track-complete"
  then Some (Ok (renderTrackComplete content filesByName))
  else if String.eqb type "iv-progress" then Some (renderProgressRoll content filesByName)
  else if String.eqb type "iv-noroll" then Some (Ok (renderNoRoll content))
  else if String.eqb type "iv-entity-create"
  then Some (Ok (renderEntityCreate content filesByName))
  else if String.eqb type "iv-clock-create"
  then Some (Ok (renderClockCreate content filesByName))
  else if String.eqb type "iv-clock-advance"
  then Some (Ok (renderClockAdvance content filesByName))
  else if String.eqb type "iv-clock-resolve"
  then Some (Ok (renderClockResolve content filesByName))
  else if String.eqb type "iv-dice" then Some (Ok (renderDice content))
  else if String.eqb type "iv-ooc" then Some (Ok (renderOOC content))
  else None.

(** [parseInlineMechanic(code, filesByName)]: [None] is [null]. *)
Definition parseInlineMechanic (code : string)
    (filesByName : option (gmap string FileInfo)) : option (Result string) :=
  if negb (startsWith "iv-" code) then None
  else
    match indexOf ":" code with
    | None => None
    | Some colonIndex =>
        let type := substring code 0 colonIndex in
        let content := substringFrom code (colonIndex + 1) in
        dispatch type content filesByName
    end.

End Inline.

(** ** The block parser (iron-vault-blocks) *)

Module Blocks.

(** The results of the renderers of this parser, under the names of this
    module too. *)
Abbreviation Result := Result (only parsing).
Abbreviation Ok := Ok (only parsing).
Abbreviation Throws := Throws (only parsing).
Abbreviation Beyond := Beyond (only parsing).
Abbreviation mapResult := mapResult (only parsing).

Definition getOutcome (score vs1 vs2 : Z) : Outcome :=
  if (score >? vs1) && (score >? vs2) then StrongHit
  else if (score >? vs1) || (score >? vs2) then WeakHit
  else Miss.

Definition escapeHtml (text : string) : string :=
  replaceChar dq "&quot;"
    (replaceChar ">" "&gt;"
      (replaceChar "<" "&lt;"
        (replaceChar "&" "&amp;"
          (unescapeSlash text)))).

Definition pathToSlug (path : string) : string :=
  if isEmpty path then "#"
  else
    let cleanPath := unescapeSlash path in
    let cleanPath := stripMd cleanPath in
    let cleanPath :=
      removeChars (Ascii.eqb "'")
        (removeChars (fun c => Ascii.eqb c "(" || Ascii.eqb c ")")
          (replaceWs (toLowerCase cleanPath))) in
    let cleanPath := stripLeadingSlashes cleanPath in
    "/" +:+ cleanPath.

(** *** [parseProps] *)

(** A value of the props object: a quoted string, or the [parseFloat] of
    an unquoted literal.  The number is a [VInt] when the literal writes a
    safe integer (its fraction, if any, has no digit but 0, or is so small
    after a 0 that [parseFloat] rounds it away); any other literal is a
    [VDec], kept as its text.  The number of a [VDec] is never 0. *)
Inductive PropValue : Type :=
  | VStr (s : string)
  | VInt (n : Z)
  | VDec (lit : string).

Definition notChar (c : ascii) (d : ascii) : bool := negb (Ascii.eqb c d).

(** The quoted pattern of [parseProps] at the start of [s]: a key [\w+],
    the sign [=], and a value between double quotes that holds no double
    quote (it may be empty). *)
Definition matchQuotedProp (s : string) : option ((string * PropValue) * nat) :=
  let key := takeWhile isWord s in
  if isEmpty key then None
  else
    match stripPrefix (tpl "=`") (sdrop (String.length key) s) with
    | Some r =>
        let value := takeWhile (notChar dq) r in
        if isEmpty (sdrop (String.length value) r) then None
        else Some ((key, VStr value),
                   (String.length key + 2 + String.length value + 1)%nat)
    | None => None
    end.

Definition allZeros (s : string) : bool := isEmpty (dropWhile (Ascii.eqb "0") s).

(** The fraction written with the digits [frac] after the point is at most
    [2^-1075], half of the least double above 0: [parseFloat] rounds it to
    0. *)
Definition roundsToZero (frac : string) : bool :=
  digitsValue 10 digitVal 0 frac * 2 ^ 1075 <=? 10 ^ Z.of_nat (String.length frac).

(** [/(\w+)=(-?\d+(?:\.\d+)?)/] at the start of [s], with [parseFloat] of
    the second group. *)
Definition matchNumberProp (s : string) : option ((string * PropValue) * nat) :=
  let key := takeWhile isWord s in
  if isEmpty key then None
  else
    match sdrop (String.length key) s with
    | String "=" r =>
        let sign := match r with String "-" _ => "-" | _ => "" end in
        let r1 := match r with String "-" r' => r' | _ => r end in
        let digits := takeWhile isDigit r1 in
        if isEmpty digits then None
        else
          let frac :=
            match sdrop (String.length digits) r1 with
            | String "." r2 => takeWhile isDigit r2
            | _ => ""
            end in
          let magnitude := digitsValue 10 digitVal 0 digits in
          let value := if isEmpty sign then magnitude else - magnitude in
          let whole := allZeros frac || (magnitude =? 0) && roundsToZero frac in
          if whole && isSafe value
          then Some ((key, VInt value),
                     (String.length key + 1 + String.length sign
                      + String.length digits
                      + (if isEmpty frac then 0 else 1 + String.length frac))%nat)
          else Some ((key, VDec (sign +:+ digits +:+
                                   (if isEmpty frac then "" else "." +:+ frac))),
                     (String.length key + 1 + String.length sign
                      + String.length digits
                      + (if isEmpty frac then 0 else 1 + String.length frac))%nat)
    | _ => None
    end.

(** [props[key] = value] on the object literal [{}], whose own properties
    the map holds: the assignment to [__proto__] of a string or a number
    runs the setter of [Object.prototype], which leaves the object as it
    is. *)
Definition assign (props : gmap string PropValue) (kv : string * PropValue)
    : gmap string PropValue :=
  if String.eqb kv.1 "__proto__" then props else <[kv.1 := kv.2]> props.

(** The own properties of the object that [parseProps] returns.  The
    renderers read it at keys that [Object.prototype] does not have, where
    [props[key]] is the own property or [undefined]. *)
Definition parseProps (line : string) : gmap string PropValue :=
  let props := foldl assign ∅ (scanAll matchQuotedProp O line) in
  foldl assign props (scanAll matchNumberProp O line).

(** Truthiness of [props[key]]. *)
Definition truthy (v : option PropValue) : bool :=
  match v with
  | None => false
  | Some (VStr s) => negb (isEmpty s)
  | Some (VInt n) => negb (n =? 0)
  | Some (VDec _) => true
  end.

(** [(props[key] || d) as number] *)
Definition numberOr (v : option PropValue) (d : Z) : Result Z :=
  match v with
  | None => Ok d
  | Some (VInt n) => Ok (if n =? 0 then d else n)
  | Some (VStr s) => if isEmpty s then Ok d else Beyond
  | Some (VDec _) => Beyond
  end.

(** [(a || b || '') as string], where the value is then used with a string
    method: a number there throws. *)
Definition stringOr (a b : option PropValue) : Result string :=
  match (if truthy a then a else if truthy b then b else None) with
  | None => Ok ""
  | Some (VStr s) => Ok s
  | Some (VInt _) => Throws
  | Some (VDec _) => Throws
  end.

(** The part of a doubled wikilink after its opening brackets:
    [([^|]+)\|([^\]]+)] followed by the literal [closing]. *)
Definition matchWikiBody (closing : string) (r : string) : option (string * string) :=
  let target := takeWhile (notChar "|") r in
  if isEmpty target then None
  else
    match stripPrefix "|" (sdrop (String.length target) r) with
    | Some r2 =>
        let display := takeWhile (notChar "]") r2 in
        if isEmpty display then None
        else if startsWith closing (sdrop (String.length display) r2)
        then Some (target, display)
        else None
    | None => None
    end.

(** [/name=`\[\[([^|]+)\|([^\]]+)\]\]`/] at the start of [s] (in comments
    too, a backquote stands for the double quote of the source). *)
Definition matchWikiName (s : string) : option (string * string) :=
  match stripPrefix (tpl "name=`[[") s with
  | Some r => matchWikiBody (tpl "]]`") r
  | None => None
  end.

(** [/\[\[([^|]+)\|([^\]]+)\]\]/] at the start of [s]. *)
Definition matchWikiLink (s : string) : option (string * string) :=
  match stripPrefix "[[" s with
  | Some r => matchWikiBody "]]" r
  | None => None
  end.

(** *** [parseProgressBlock] *)

(** [ticksPerStep[key]]: the five own entries of the table, a member
    inherited from [Object.prototype] (the only ones with a lower-case
    name), or [undefined]. *)
Inductive TableEntry : Type := Ticks (n : Z) | Inherited | Missing.

Definition ticksPerStep (key : string) : TableEntry :=
  if String.eqb key "troublesome" then Ticks 12
  else if String.eqb key "dangerous" then Ticks 8
  else if String.eqb key "formidable" then Ticks 4
  else if String.eqb key "extreme" then Ticks 2
  else if String.eqb key "epic" then Ticks 1
  else if String.eqb key "constructor" || String.eqb key "__proto__" then Inherited
  else Missing.

(** The values [parseProgressBlock] computes before it builds the markup. *)
Record Progress : Type := {
  trackName : string; slug : string; steps : Z; rank : string; from : Z;
  fromBoxes : Z; fromTicks : Z; ticksToAdd : Z; newProgress : Z;
  toBoxes : Z; toTicks : Z; stepsClass : string }.

Definition progressValues (line : string) : Result Progress :=
  let props := parseProps line in
  let nameMatch := searchFirst matchWikiName line in
  let slug := match nameMatch with Some (p, _) => pathToSlug p | None => "#" end in
  match stringOr (props !! "rank") (props !! "level"),
        (match nameMatch with
         | Some (_, d) => Ok d
         | None => stringOr (props !! "name") None
         end) with
  | Ok rank, Ok trackName =>
      match numberOr (props !! "steps") 1, numberOr (props !! "from") 0,
            ticksPerStep (toLowerCase rank) with
      | Ok steps, Ok from, Ticks _ | Ok steps, Ok from, Missing =>
          let fromBoxes := from / 4 in
          let fromTicks := Z.rem from 4 in
          let perStep :=
            match ticksPerStep (toLowerCase rank) with
            | Ticks n => n
            | _ => 4
            end in
          let ticksToAdd := perStep * steps in
          let newProgress := from + ticksToAdd in
          let toBoxes := newProgress / 4 in
          let toTicks := Z.rem newProgress 4 in
          let stepsClass := if steps <? 0 then "negative" else "positive" in
          if isSafe ticksToAdd && isSafe newProgress
          then
            Ok {| trackName := trackName; slug := slug; steps := steps;
                  rank := rank; from := from;
                  fromBoxes := fromBoxes; fromTicks := fromTicks;
                  ticksToAdd := ticksToAdd; newProgress := newProgress;
                  toBoxes := toBoxes; toTicks := toTicks;
                  stepsClass := stepsClass |}
          else Beyond
      | _, _, _ => Beyond
      end
  | _, _ => Throws
  end.

Definition renderProgress (p : Progress) : string :=
  tpl "<dl class=`progress`>
    <dt>Progress</dt>
    <dd class=`track-name`><a href=`" +:+ slug p +:+ tpl "`>" +:+ escapeHtml (trackName p) +:+ tpl "</a></dd>
    <dd class=`steps " +:+ stepsClass p +:+ tpl "`>" +:+ showInt (Z.abs (steps p)) +:+ tpl "</dd>
    <dd class=`rank`>" +:+ escapeHtml (rank p) +:+ tpl "</dd>
    <dd class=`from-boxes`>" +:+ showInt (fromBoxes p) +:+ tpl "</dd>
    <dd class=`from-ticks`>" +:+ showInt (fromTicks p) +:+ tpl "</dd>
    <dd class=`to-boxes`>" +:+ showInt (toBoxes p) +:+ tpl "</dd>
    <dd class=`to-ticks`>" +:+ showInt (toTicks p) +:+ "</dd>
  </dl>".

Definition parseProgressBlock (line : string) : Result string :=
  mapResult renderProgress (progressValues line).

(** *** [parseDetailBlock] *)

Definition parseDetailBlock (line : string) : string :=
  let text := trim (substringFrom line 2) in
  tpl "<aside class=`detail`>
    <p>" +:+ escapeHtml text +:+ "</p>
  </aside>".

(** *** [collectBlock] *)

Definition newline : ascii := "010".

(** [(s.match(/c/g) || []).length] *)
Fixpoint countChar (c : ascii) (s : string) : Z :=
  match s with
  | EmptyString => 0
  | String d r => (if Ascii.eqb c d then 1 else 0) + countChar c r
  end.

Definition braceDelta (line : string) : Z :=
  countChar "{" line - countChar "}" line.

(** [lines[i]] for an index inside the array, as in the body of the loop
    of [parseIronVaultBlock], which runs while [i < lines.length]. *)
Definition lineAt (lines : list string) (i : nat) : string :=
  default "" (lines !! i).

Record Collected : Type := { content : string; endIndex : nat }.

(** The [while] loop of [collectBlock].  [rest] holds the lines after
    index [i], so that [i + 1 < lines.length] is [rest] not being empty and
    [lines[i + 1]] is its head. *)
Fixpoint collectLoop (rest : list string) (braceCount : Z) (i : nat)
    (collected : list string) : list string * nat :=
  match rest with
  | next :: rest' =>
      if braceCount >? 0
      then collectLoop rest' (braceCount + braceDelta next) (S i) (collected ++ [next])
      else (collected, i)
  | [] => (collected, i)
  end.

(** With a start index past the last line, [lines[startIndex]] is
    [undefined] and its [match] throws. *)
Definition collectBlock (lines : list string) (startIndex : nat) : Result Collected :=
  match lines !! startIndex with
  | Some first =>
      let collected := [first] in
      let braceCount := braceDelta first in
      let out :=
        collectLoop (drop (S startIndex) lines) braceCount startIndex collected in
      Ok {| content := join (String newline "") out.1; endIndex := out.2 |}
  | None => Throws
  end.

(** *** [parseActorBlock] *)

(** [/actor\s+name=`([^`]+)`/] at the start of [s]. *)
Definition matchActorName (s : string) : option string :=
  match stripPrefix "actor" s with
  | Some r =>
      if isEmpty (takeWhile isSpace r) then None
      else
        match stripPrefix (tpl "name=`") (dropWhile isSpace r) with
        | Some r2 =>
            let name := takeWhile (notChar dq) r2 in
            if isEmpty name then None
            else if isEmpty (sdrop (String.length name) r2) then None
            else Some name
        | None => None
        end
  | None => None
  end.

(** The argument of the recursive call of [parseActorBlock], when there is
    one: the trimmed text that [substring] cuts between the first opening
    and the last closing brace. *)
Definition actorInner (content : string) : option string :=
  match indexOf "{" content, lastIndexOf "}" content with
  | Some braceStart, Some braceEnd =>
      let inner := trim (substring content (braceStart + 1) braceEnd) in
      if isEmpty inner then None else Some inner
  | _, _ => None
  end.

Definition articleOpen : string := tpl "<article class=`iron-vault-mechanics`>".
Definition articleClose : string := "</article>".

(** [rec] is [parseIronVaultBlock]; its result [None] tells that the
    recursion budget of the embedding ran out. *)
Definition parseActorBlock (rec : string -> option (Result string))
    (content : string) : option (Result string) :=
  let nameMatch := searchFirst matchActorName content in
  let name := match nameMatch with Some n => n | None => "Actor" end in
  let linkMatch := searchFirst matchWikiLink name in
  let displayName := match linkMatch with Some (_, d) => d | None => name end in
  let slug := match linkMatch with Some (p, _) => pathToSlug p | None => "" end in
  let innerContent :=
    match actorInner content with
    | Some inner =>
        mapResult (fun html => stripSuffix articleClose (dropPrefix articleOpen html))
          <$> rec inner
    | None => Some (Ok "")
    end in
  let nameHtml :=
    if isEmpty slug then escapeHtml displayName
    else tpl "<a href=`" +:+ slug +:+ tpl "`>" +:+ escapeHtml displayName +:+ "</a>" in
  mapResult (fun innerContent =>
    tpl "<section class=`actor`>
    <header><span>" +:+ nameHtml +:+ "</span></header>
    <div>" +:+ innerContent +:+ "</div>
  </section>") <$> innerContent.

(** *** [parseIronVaultBlock] *)

(** The statement kinds, in the order of the [if / else if] chain. *)
Inductive Kind : Type :=
  | KMove | KOracleGroup | KOracleNested | KOracle | KRoll | KProgressRoll
  | KMeter | KBurn | KXp | KTrack | KProgress | KClock | KAsset | KImpact
  | KInitiative | KActor | KReroll | KAdd | KDiceExpr | KDetail.

Definition classify (line : string) : option Kind :=
  if startsWith "move " line then Some KMove
  else if startsWith "oracle-group " line then Some KOracleGroup
  else if startsWith "oracle " line
  then (if includes "{" line then Some KOracleNested else Some KOracle)
  else if startsWith "roll " line then Some KRoll
  else if startsWith "progress-roll " line then Some KProgressRoll
  else if startsWith "meter " line then Some KMeter
  else if startsWith "burn " line then Some KBurn
  else if startsWith "xp " line then Some KXp
  else if startsWith "track " line then Some KTrack
  else if startsWith "progress " line then Some KProgress
  else if startsWith "clock " line then Some KClock
  else if startsWith "asset " line then Some KAsset
  else if startsWith "impact " line then Some KImpact
  else if startsWith "initiative " line || startsWith "position " line
  then Some KInitiative
  else if startsWith "actor " line then Some KActor
  else if startsWith "reroll " line then Some KReroll
  else if startsWith "add " line then Some KAdd
  else if startsWith "dice-expr " line then Some KDiceExpr
  else if startsWith "- " line then Some KDetail
  else None.

(** The kinds whose branch calls [collectBlock]. *)
Definition spansLines (k : Kind) : bool :=
  match k with
  | KMove | KOracleGroup | KOracleNested | KActor => true
  | _ => false
  end.

Section Parser.

(** The renderers of the remaining statement kinds ([parseMoveBlock],
    [parseOracleBlock], [parseMeterBlock], ...): straight-line code from
    the text of the statement to markup, or to a [TypeError]. *)
Variable leaf : Kind -> string -> Result string.

Definition render (rec : string -> option (Result string)) (k : Kind)
    (text : string) : option (Result string) :=
  match k with
  | KActor => parseActorBlock rec text
  | KProgress => Some (parseProgressBlock text)
  | KDetail => Some (Ok (parseDetailBlock text))
  | _ => Some (leaf k text)
  end.

(** The body of the [while] loop up to, and without, its final [i++]: what
    is pushed on [results], and the value of [i]. *)
Definition iteration (rec : string -> option (Result string))
    (lines : list string) (i : nat) : option (Result (list string)) * nat :=
  let line := trim (lineAt lines i) in
  match classify line with
  | Some k =>
      if spansLines k
      then
        match collectBlock lines i with
        | Ok block =>
            (mapResult (fun html => [html]) <$> render rec k (content block),
             endIndex block)
        | Throws => (Some Throws, i)
        | Beyond => (Some Beyond, i)
        end
      else (mapResult (fun html => [html]) <$> render rec k line, i)
  | None => (Some (Ok []), i)
  end.

(** The [while (i < lines.length)] loop; [fuel] bounds the number of
    iterations. *)
Fixpoint loop (rec : string -> option (Result string)) (fuel : nat)
    (lines : list string) (i : nat) (results : list string)
    : option (Result (list string)) :=
  if (i <? length lines)%nat
  then
    match fuel with
    | O => None
    | S fuel' =>
        match iteration rec lines i with
        | (Some (Ok pushed), j) => loop rec fuel' lines (j + 1) (results ++ pushed)
        | (Some Throws, _) => Some Throws
        | (Some Beyond, _) => Some Beyond
        | (None, _) => None
        end
    end
  else Some (Ok results).

(** [parseIronVaultBlock] with a bound [depth] on the nesting of its
    recursion through [parseActorBlock]. *)
Fixpoint parseWithin (depth : nat) (content : string) : option (Result string) :=
  match depth with
  | O => None
  | S depth' =>
      let lines := split newline (trim content) in
      mapResult (fun results => articleOpen +:+ concatAll results +:+ articleClose)
        <$> loop (parseWithin depth') (length lines) lines O []
  end.

(** One more level than the text has characters is always enough (theorem
    [parseIronVaultBlock_terminates]). *)
Definition parseIronVaultBlock (content : string) : option (Result string) :=
  parseWithin (S (String.length content)) content.

End Parser.

End Blocks.

(** ** Vocabulary of the specification *)

(** The character [c] occurs in [s]. *)
Fixpoint occurs (c : ascii) (s : string) : Prop :=
  match s with
  | EmptyString => False
  | String d r => c = d \/ occurs c r
  end.

(** [sub] is a substring of [s]. *)
Definition contains (sub s : string) : Prop :=
  exists pre post : string, s = pre +:+ sub +:+ post.

(** The sixteen kind tags of the inline notation: the [case] labels of
    [parseInlineMechanic]. *)
Definition kindTags : list string :=
  [ "iv-move"; "iv-oracle"; "iv-meter"; "iv-burn"; "iv-initiative";
    "iv-track-create"; "iv-track-advance"; "iv-track-complete";
    "iv-progress"; "iv-noroll"; "iv-entity-create"; "iv-clock-create";
    "iv-clock-advance"; "iv-clock-resolve"; "iv-dice"; "iv-ooc" ].

(** The class of [iv-initiative] as the specification words it: the
    substrings control, bad and out, in this priority. *)
Definition claimedInitiativeClass (to : string) : string :=
  let toLower := toLowerCase to in
  if includes "control" toLower then "initiative-in-control"
  else if includes "bad" toLower then "initiative-bad-spot"
  else if includes "out" toLower then "initiative-out-of-combat"
  else "initiative".

(** The rule for the class [cls] of a to value: control first, then bad
    or no, then out, with initiative counting as control.  The rule has no
    clause for a value that holds initiative together with bad or no and
    does not hold control (such as [No initiative]). *)
Definition initiativeRule (to cls : string) : Prop :=
  let t := toLowerCase to in
  let control := contains "control" t in
  let initiative := contains "initiative" t in
  let bad := contains "bad" t \/ contains "no" t in
  let out := contains "out" t in
  (control -> cls = "initiative-in-control") /\
  (~ control -> initiative -> ~ bad -> cls = "initiative-in-control") /\
  (~ control -> ~ initiative -> bad -> cls = "initiative-bad-spot") /\
  (~ control -> ~ initiative -> ~ bad -> out -> cls = "initiative-out-of-combat") /\
  (~ control -> ~ initiative -> ~ bad -> ~ out -> cls = "initiative").

(** A slug holds no white space, no parenthesis and no apostrophe. *)
Definition slugSafe (s : string) : Prop :=
  forall c : ascii,
    occurs c s ->
    isSpace c = false /\ c <> "("%char /\ c <> ")"%char /\ c <> "'"%char.

(** A slug starts with exactly one slash. *)
Definition oneLeadingSlash (s : string) : Prop :=
  exists r : string, s = String "/" r /\ startsWith "/" r = false.

(** The rank table as the specification words it: five ranks, and 4 for
    every other rank. *)
Definition claimedTicksPerStep (rank : string) : Z :=
  if String.eqb rank "troublesome" then 12
  else if String.eqb rank "dangerous" then 8
  else if String.eqb rank "formidable" then 4
  else if String.eqb rank "extreme" then 2
  else if String.eqb rank "epic" then 1
  else 4.

(** A prop that is absent or an unquoted literal of a safe integer. *)
Definition integerProp (v : option Blocks.PropValue) : Prop :=
  v = None \/ exists n : Z, v = Some (Blocks.VInt n).

(** A prop that is absent or a quoted string. *)
Definition stringProp (v : option Blocks.PropValue) : Prop :=
  v = None \/ exists s : string, v = Some (Blocks.VStr s).

(** The number of such an integer prop: [d] when it is absent or 0. *)
Definition integerOf (v : option Blocks.PropValue) (d : Z) : Z :=
  match v with
  | Some (Blocks.VInt n) => if n =? 0 then d else n
  | _ => d
  end.

(** The text of such a string prop: empty when it is absent. *)
Definition textOf (v : option Blocks.PropValue) : string :=
  match v with
  | Some (Blocks.VStr s) => s
  | _ => ""
  end.

(** The rank of a progress line: its rank prop, or its level prop when it
    has no rank or an empty one. *)
Definition rankOf (props : gmap string Blocks.PropValue) : string :=
  if isEmpty (textOf (props !! "rank")) then textOf (props !! "level")
  else textOf (props !! "rank").

(** The values of a progress line whose props are of the expected kinds
    and whose numbers stay safe integers. *)
Definition progressOf (line : string) : Blocks.Progress :=
  let props := Blocks.parseProps line in
  let nameMatch := searchFirst Blocks.matchWikiName line in
  let steps := integerOf (props !! "steps") 1 in
  let from := integerOf (props !! "from") 0 in
  let rank := rankOf props in
  let ticksToAdd := claimedTicksPerStep (toLowerCase rank) * steps in
  {| Blocks.trackName :=
       match nameMatch with Some (_, d) => d | None => textOf (props !! "name") end;
     Blocks.slug :=
       match nameMatch with Some (p, _) => Blocks.pathToSlug p | None => "#" end;
     Blocks.steps := steps; Blocks.rank := rank; Blocks.from := from;
     Blocks.fromBoxes := from / 4; Blocks.fromTicks := Z.rem from 4;
     Blocks.ticksToAdd := ticksToAdd; Blocks.newProgress := from + ticksToAdd;
     Blocks.toBoxes := (from + ticksToAdd) / 4;
     Blocks.toTicks := Z.rem (from + ticksToAdd) 4;
     Blocks.stepsClass := if steps <? 0 then "negative" else "positive" |}.

(** A progress line in the form the parser is made for: steps and from
    are absent or unquoted literals of safe integers; rank, level and name
    are absent or quoted strings; the lower-cased rank is not the name of a
    member that the rank table inherits; and the ticks to add and the new
    total are safe integers. *)
Definition plainProgress (line : string) : Prop :=
  let props := Blocks.parseProps line in
  integerProp (props !! "steps") /\ integerProp (props !! "from") /\
  stringProp (props !! "rank") /\ stringProp (props !! "level") /\
  stringProp (props !! "name") /\
  toLowerCase (rankOf props) <> "constructor" /\
  toLowerCase (rankOf props) <> "__proto__" /\
  isSafe (Blocks.ticksToAdd (progressOf line)) = true /\
  isSafe (Blocks.newProgress (progressOf line)) = true.

(** The progress line of scenario 3, as the specification writes it and
    with its rank between quotes. *)
Definition scenarioProgressLine : string :=
  tpl "progress name=`[[Foo|Foo Track]]` rank=dangerous steps=2 from=3".

Definition quotedProgressLine : string :=
  tpl "progress name=`[[Foo|Foo Track]]` rank=`dangerous` steps=2 from=3".

(** The fields of each kind, position by position of its [Format]
    comment, each with the text that stands for it when it is missing.
    ([iv-ooc] has one field, the whole content.) *)
Definition fieldDefaults (type : string) (parts : list string) : list string :=
  if String.eqb type "iv-move" then [""; ""; "0"; "0"; "0"; "0"; "0"; ""]
  else if String.eqb type "iv-oracle" then [""; ""; ""; ""]
  else if String.eqb type "iv-meter" then [""; "0"; "0"]
  else if String.eqb type "iv-burn" then ["0"; "0"]
  else if String.eqb type "iv-initiative" then [""; strOr (parts !! 0%nat) ""]
  else if String.eqb type "iv-track-create" then [""; ""]
  else if String.eqb type "iv-track-advance" then [""; ""; "0"; "0"; ""; "1"]
  else if String.eqb type "iv-track-complete" then [""; ""]
  else if String.eqb type "iv-progress" then [""; "0"; "0"; "0"; ""]
  else if String.eqb type "iv-noroll" then [""; ""]
  else if String.eqb type "iv-entity-create" then [""; ""; ""]
  else if String.eqb type "iv-clock-create" then [""; ""; ""]
  else if String.eqb type "iv-clock-advance" then [""; "0"; "0"; ""; ""]
  else if String.eqb type "iv-clock-resolve" then [""; ""]
  else if String.eqb type "iv-dice" then [""; ""]
  else [].

(** The fields of an inline code as its renderer takes them when the code
    has the fields [fields] between its pipes.  A text field that is
    missing is the empty string, and a numeric field that is missing is
    the number [d]; a field that is there is read as the code reads it
    (its text, or the integer it starts with). *)
Definition textAt (fields : list string) (i : nat) : string :=
  match fields !! i with
  | Some x => x
  | None => ""
  end.

Definition textOrAt (d : string) (fields : list string) (i : nat) : string :=
  match fields !! i with
  | Some x => if isEmpty x then d else x
  | None => d
  end.

Definition numberAt (d : Z) (fields : list string) (i : nat) : Result Z :=
  match fields !! i with
  | Some x => Inline.intField (Some x) d
  | None => Ok d
  end.

(** The markup of a code of kind [type] with the fields [fields]: every
    missing number is 0 and every missing text is empty, but for the steps
    of [iv-track-advance] (1), the from and to of [iv-clock-advance] (the
    text [0]) and the to of [iv-initiative] (its from). *)
Definition defaultedMarkup (type : string) (fields : list string)
    (files : option (gmap string Inline.FileInfo)) : Result string :=
  let text := textAt fields in
  let number := numberAt 0 fields in
  let slugOf := fun path => Inline.resolvePathToSlug path files in
  if String.eqb type "iv-move"
  then bind (number 2%nat) (fun action =>
       bind (number 3%nat) (fun statValue =>
       bind (number 4%nat) (fun adds =>
       bind (number 5%nat) (fun vs1 =>
       bind (number 6%nat) (fun vs2 =>
       mapResult (Inline.moveMarkup (text 0%nat) (text 1%nat))
         (Inline.rollOf action statValue adds vs1 vs2))))))
  else if String.eqb type "iv-oracle"
  then Ok (Inline.oracleMarkup (text 0%nat) (text 1%nat) (text 2%nat))
  else if String.eqb type "iv-meter"
  then bind (number 1%nat) (fun fromVal =>
       bind (number 2%nat) (fun to =>
       Ok (Inline.meterMarkup (text 0%nat) fromVal to)))
  else if String.eqb type "iv-burn"
  then bind (number 0%nat) (fun fromVal =>
       bind (number 1%nat) (fun to =>
       Ok (Inline.burnMarkup fromVal to)))
  else if String.eqb type "iv-initiative"
  then Ok (Inline.initiativeMarkup (text 0%nat) (textOrAt (text 0%nat) fields 1%nat))
  else if String.eqb type "iv-track-create"
  then Ok (Inline.trackCreateMarkup (text 0%nat) (slugOf (text 1%nat)))
  else if String.eqb type "iv-track-advance"
  then bind (number 3%nat) (fun to =>
       bind (numberAt 1 fields 5%nat) (fun steps =>
       Ok (Inline.trackAdvanceMarkup (text 0%nat) (slugOf (text 1%nat)) to steps)))
  else if String.eqb type "iv-track-complete"
  then Ok (Inline.trackCompleteMarkup (text 0%nat) (slugOf (text 1%nat)))
  else if String.eqb type "iv-progress"
  then bind (number 1%nat) (fun progress =>
       bind (number 2%nat) (fun vs1 =>
       bind (number 3%nat) (fun vs2 =>
       Ok (Inline.progressRollMarkup (text 0%nat)
             (if isEmpty (text 4%nat) then "" else slugOf (text 4%nat))
             progress vs1 vs2))))
  else if String.eqb type "iv-noroll"
  then Ok (Inline.noRollMarkup (text 0%nat))
  else if String.eqb type "iv-entity-create"
  then Ok (Inline.entityCreateMarkup (text 0%nat) (text 1%nat) (slugOf (text 2%nat)))
  else if String.eqb type "iv-clock-create"
  then Ok (Inline.clockCreateMarkup (text 0%nat) (text 1%nat) (slugOf (text 2%nat)))
  else if String.eqb type "iv-clock-advance"
  then Ok (Inline.clockAdvanceMarkup (text 0%nat) (textOrAt "0" fields 1%nat)
             (textOrAt "0" fields 2%nat) (text 3%nat) (slugOf (text 4%nat)))
  else if String.eqb type "iv-clock-resolve"
  then Ok (Inline.clockResolveMarkup (text 0%nat) (slugOf (text 1%nat)))
  else if String.eqb type "iv-dice"
  then Ok (Inline.diceMarkup (text 0%nat) (text 1%nat))
  else Beyond.

(** A field whose number, if it starts with one, is small enough for any
    sum of three such numbers to be a safe integer. *)
Definition smallNumber (x : string) : Prop :=
  match parseInt (Some x) with
  | Some n => Z.abs n <= 10 ^ 15
  | None => True
  end.

(** No character of [s] is a separator. *)
Definition sepFree (isSep : ascii -> bool) (s : string) : Prop :=
  forall c : ascii, occurs c s -> isSep c = false.

(** [inner] is the trimmed text strictly between the first opening brace
    and the last closing brace of [block]. *)
Definition betweenBraces (block inner : string) : Prop :=
  exists pre mid post : string,
    block = pre +:+ String "{" (mid +:+ String "}" post) /\
    ~ occurs "{" pre /\ ~ occurs "}" post /\ inner = trim mid.

(** The running brace count of [collectBlock] after the lines of [l]. *)
Fixpoint braceSum (l : list string) : Z :=
  match l with
  | [] => 0
  | x :: rest => Blocks.braceDelta x + braceSum rest
  end.

(** ** Further vocabulary *)

(** The number of challenge dice an outcome beats. *)
Definition tier (o : Outcome) : Z :=
  match o with
  | Miss => 0
  | WeakHit => 1
  | StrongHit => 2
  end.

(** The four characters [escapeHtml] rewrites. *)
Definition htmlSpecial (c : ascii) : bool :=
  Ascii.eqb c "&" || Ascii.eqb c "<" || Ascii.eqb c ">" || Ascii.eqb c dq.

(** An upper-case ASCII letter. *)
Definition isUpper (c : ascii) : bool := between 65 90 c.

(** What [escapeHtml] makes of one character. *)
Definition entity (c : ascii) : string :=
  if Ascii.eqb c "&" then "&amp;"
  else if Ascii.eqb c "<" then "&lt;"
  else if Ascii.eqb c ">" then "&gt;"
  else if Ascii.eqb c dq then "&quot;"
  else String c "".

(** The text with each character rewritten once. *)
Fixpoint escapeEach (s : string) : string :=
  match s with
  | EmptyString => EmptyString
  | String c r => entity c +:+ escapeEach r
  end.

(** The markup of a statement that takes one line ([""] for a line that is
    no statement); [None] for a line that opens a statement of several
    lines. *)
Definition lineMarkup (leaf : Blocks.Kind -> string -> Blocks.Result string)
    (line : string) : option (Blocks.Result string) :=
  match Blocks.classify (trim line) with
  | Some k =>
      if Blocks.spansLines k then None
      else Blocks.render leaf (fun _ => None) k (trim line)
  | None => Some (Blocks.Ok "")
  end.

(** ** Statements of one line: [parseTrackBlock], [parseRerollBlock],
    [parseInitiativeBlock] *)

Module Leaves.

Import Blocks.

(** Sequencing of results and the bound of the safe integers, under the
    names of this module too. *)
Abbreviation bind := bind (only parsing).
Abbreviation maxSafeInteger := maxSafeInteger (only parsing).

(** A value of the props object inside a template literal: a string as it
    is, an integer in decimal digits. *)
Definition shown (v : PropValue) : Result string :=
  match v with
  | VStr s => Ok s
  | VInt n => if Z.abs n <=? maxSafeInteger then Ok (showInt n) else Beyond
  | VDec _ => Beyond
  end.

(** [props[key] || d] inside a template literal, or as the argument of a
    regular expression's [test]. *)
Definition shownOr (v : option PropValue) (d : string) : Result string :=
  match v with
  | Some w => if truthy v then shown w else Ok d
  | None => Ok d
  end.

(** *** The markdown link in a name *)

(** [/\[([^\]]+)\]\([^)]+\)/] at the start of [s]: the text between the
    square brackets, and what follows the match. *)
Definition matchMarkdownLink (s : string) : option (string * string) :=
  match stripPrefix "[" s with
  | Some r =>
      let text := takeWhile (notChar "]") r in
      if isEmpty text then None
      else
        match stripPrefix "](" (sdrop (String.length text) r) with
        | Some r2 =>
            let target := takeWhile (notChar ")") r2 in
            if isEmpty target then None
            else
              match stripPrefix ")" (sdrop (String.length target) r2) with
              | Some rest => Some (text, rest)
              | None => None
              end
        | None => None
        end
  | None => None
  end.

(** [s.replace(/\[([^\]]+)\]\([^)]+\)/, '$1')]: the first markdown link of
    [s] gives way to its text.  [parseMoveBlock], [parseOracleBlock],
    [parseOracleWithNested] and [parseOracleGroupBlock] do this to a
    name. *)
Fixpoint replaceMarkdownLink (s : string) : string :=
  match matchMarkdownLink s with
  | Some (text, rest) => text +:+ rest
  | None =>
      match s with
      | EmptyString => EmptyString
      | String c r => String c (replaceMarkdownLink r)
      end
  end.

(** *** [parseTrackBlock] *)

(** [/status=`([^`]+)`/] at the start of [s]. *)
Definition matchStatus (s : string) : option string :=
  match stripPrefix (tpl "status=`") s with
  | Some r =>
      let value := takeWhile (notChar dq) r in
      if isEmpty value then None
      else if isEmpty (sdrop (String.length value) r) then None
      else Some value
  | None => None
  end.

(** The two [return] templates of [parseTrackBlock]. *)
Definition trackStatus (slug displayName status : string) : string :=
  tpl "<dl class=`track-status`>
      <dt>Track</dt>
      <dd class=`track-name`><a href=`" +:+ slug +:+ tpl "`>" +:+ escapeHtml displayName +:+ tpl "</a></dd>
      <dd class=`track-status` data-value=`" +:+ status +:+ tpl "`>" +:+ status +:+ "</dd>
    </dl>".

Definition trackChange (slug displayName fromBoxes fromTicks toBoxes toTicks : string)
    : string :=
  tpl "<dl class=`track`>
    <dt>Track</dt>
    <dd class=`track-name`><a href=`" +:+ slug +:+ tpl "`>" +:+ escapeHtml displayName +:+ tpl "</a></dd>
    <dd class=`from-boxes`>" +:+ fromBoxes +:+ tpl "</dd>
    <dd class=`from-ticks`>" +:+ fromTicks +:+ tpl "</dd>
    <dd class=`to-boxes`>" +:+ toBoxes +:+ tpl "</dd>
    <dd class=`to-ticks`>" +:+ toTicks +:+ "</dd>
  </dl>".

Definition parseTrackBlock (line : string) : Result string :=
  let props := parseProps line in
  let nameMatch := searchFirst matchWikiName line in
  let statusMatch := searchFirst matchStatus line in
  let path := match nameMatch with Some (p, _) => p | None => "" end in
  let displayName :=
    match nameMatch with
    | Some (_, d) => Ok d
    | None => stringOr (props !! "name") None
    end in
  let status :=
    match statusMatch with
    | Some s => Some (VStr s)
    | None => props !! "status"
    end in
  let slug := pathToSlug path in
  if truthy status
  then
    bind displayName (fun displayName =>
    bind (shownOr status "") (fun status =>
    Ok (trackStatus slug displayName status)))
  else
    bind displayName (fun displayName =>
    bind (shownOr (props !! "from-boxes") "0") (fun fromBoxes =>
    bind (shownOr (props !! "from-ticks") "0") (fun fromTicks =>
    bind (shownOr (props !! "to-boxes") "0") (fun toBoxes =>
    bind (shownOr (props !! "to-ticks") "0") (fun toTicks =>
    Ok (trackChange slug displayName fromBoxes fromTicks toBoxes toTicks)))))).

(** *** [parseRerollBlock] *)

(** One [if (die !== undefined)] of [parseRerollBlock]: the two [html +=]
    with the opening tags [fromTag] and [toTag]. *)
Definition rerollDie (fromTag toTag : string) (old die : option PropValue)
    (html : Result string) : Result string :=
  match die with
  | Some die =>
      bind html (fun html =>
      bind (shownOr old "?") (fun old =>
      bind (shown die) (fun die =>
      Ok (html +:+ (fromTag +:+ old +:+ "</dd>") +:+ (toTag +:+ die +:+ "</dd>")))))
  | None => html
  end.

Definition parseRerollBlock (line : string) : Result string :=
  let props := parseProps line in
  let action := props !! "action" in
  let vs1 := props !! "vs1" in
  let vs2 := props !! "vs2" in
  let html := Ok (tpl "<dl class=`reroll`><dt>Reroll</dt>") in
  let html :=
    rerollDie (tpl "<dd class=`action-die from`>") (tpl "<dd class=`action-die to`>")
      (props !! "old-action") action html in
  let html :=
    rerollDie (tpl "<dd class=`challenge-die from vs1`>")
      (tpl "<dd class=`challenge-die to vs1`>")
      (props !! "old-vs1") vs1 html in
  let html :=
    rerollDie (tpl "<dd class=`challenge-die from vs2`>")
      (tpl "<dd class=`challenge-die to vs2`>")
      (props !! "old-vs2") vs2 html in
  mapResult (fun html => html +:+ "</dl>") html.

(** The markup of a rerolled die whose former value is not known. *)
Definition rerolledFrom (fromTag toTag : string) (die : option string) : string :=
  match die with
  | Some die => fromTag +:+ "?" +:+ "</dd>" +:+ toTag +:+ die +:+ "</dd>"
  | None => ""
  end.

(** *** [parseAddBlock] *)

(** [/add\s+(-?\d+)(?:\s+`([^`]+)`)?/] at the start of [s]: the two
    groups, the second of which may be [undefined]. *)
Definition matchSimpleAdd (s : string) : option (string * option string) :=
  match stripPrefix "add" s with
  | Some r =>
      if isEmpty (takeWhile isSpace r) then None
      else
        let r1 := dropWhile isSpace r in
        let sign := match r1 with String "-" _ => "-" | _ => "" end in
        let r2 := match r1 with String "-" r' => r' | _ => r1 end in
        let digits := takeWhile isDigit r2 in
        if isEmpty digits then None
        else
          let r3 := sdrop (String.length digits) r2 in
          let reason :=
            if isEmpty (takeWhile isSpace r3) then None
            else
              match stripPrefix (String dq "") (dropWhile isSpace r3) with
              | Some r4 =>
                  let text := takeWhile (notChar dq) r4 in
                  if isEmpty text then None
                  else if isEmpty (sdrop (String.length text) r4) then None
                  else Some text
              | None => None
              end in
          Some (sign +:+ digits, reason)
  | None => None
  end.

(** The [return] template of [parseAddBlock]. *)
Definition addMarkup (amount : Z) (from : string) : string :=
  let amountClass := if amount <? 0 then "negative" else "positive" in
  tpl "<dl class=`add`>
    <dt>Add</dt>
    <dd class=`amount " +:+ amountClass +:+ tpl "`>" +:+ showInt (Z.abs amount) +:+ "</dd>
    " +:+
    (if isEmpty from then "" else tpl "<dd class=`from`>" +:+ escapeHtml from +:+ "</dd>") +:+ "
  </dl>".

Definition parseAddBlock (line : string) : Result string :=
  let props := parseProps line in
  bind (numberOr (props !! "amount") 0) (fun amount =>
  let from := if truthy (props !! "from") then props !! "from" else Some (VStr "") in
  let simpleMatch := if amount =? 0 then searchFirst matchSimpleAdd line else None in
  let amount :=
    match simpleMatch with
    | Some (digits, _) => intOr (parseInt (Some digits)) 0
    | None => amount
    end in
  let from :=
    match simpleMatch with
    | Some (_, reason) => Some (VStr (strOr reason ""))
    | None => from
    end in
  match from with
  | Some (VStr from) =>
      if Z.abs amount <=? maxSafeInteger then Ok (addMarkup amount from) else Beyond
  | _ => Throws
  end).

(** *** [parseInitiativeBlock] *)

(** A line terminator: the characters a dot of a regular expression does
    not match. *)
Definition isLineTerminator (c : ascii) : bool :=
  Nat.eqb (code c) 10 || Nat.eqb (code c) 13.

(** A pattern of lower-case letters and dots, under the [i] flag, at the
    start of [s]. *)
Fixpoint matchesAt (pat s : string) : bool :=
  match pat, s with
  | EmptyString, _ => true
  | String p pat', String c s' =>
      (if Ascii.eqb p "." then negb (isLineTerminator c)
       else Ascii.eqb p (lowerChar c))
      && matchesAt pat' s'
  | String _ _, EmptyString => false
  end.

(** [/pat/i.test(s)] *)
Fixpoint testPattern (pat s : string) : bool :=
  matchesAt pat s ||
  match s with
  | EmptyString => false
  | String _ r => testPattern pat r
  end.

Definition getInitClass (init : string) : string :=
  if testPattern "bad.spot" init || testPattern "no.initiative" init then "no-initiative"
  else if testPattern "in.control" init || testPattern "initiative" init then "has-initiative"
  else "out-of-combat".

Definition getInitText (init : string) : string :=
  if testPattern "bad.spot" init then "In a bad spot"
  else if testPattern "no.initiative" init then "No initiative"
  else if testPattern "in.control" init then "In control"
  else if testPattern "initiative" init then "Has initiative"
  else "Out of combat".

Definition parseInitiativeBlock (line : string) : Result string :=
  let props := parseProps line in
  bind (shownOr (props !! "from") "out-of-combat") (fun from =>
  bind (shownOr (props !! "to") "out-of-combat") (fun to =>
  Ok (tpl "<dl class=`initiative`>
    <dt>Initiative</dt>
    <dd class=`from " +:+ getInitClass from +:+ tpl "`>" +:+ getInitText from +:+ tpl "</dd>
    <dd class=`to " +:+ getInitClass to +:+ tpl "`>" +:+ getInitText to +:+ "</dd>
  </dl>"))).

End Leaves.

(** ** Vocabulary: the text of props *)

(** The text of one prop: the key, the equals sign and the value, a string
    between double quotes and an integer in decimal digits. *)
Definition propText (kv : string * Blocks.PropValue) : string :=
  match kv.2 with
  | Blocks.VStr s => kv.1 +:+ String "=" (String dq (s +:+ String dq ""))
  | Blocks.VInt n => kv.1 +:+ String "=" (showInt n)
  | Blocks.VDec lit => kv.1 +:+ String "=" lit
  end.

(** The props of a line, each after a space. *)
Fixpoint propsText (kvs : list (string * Blocks.PropValue)) : string :=
  match kvs with
  | [] => ""
  | kv :: rest => String " " (propText kv +:+ propsText rest)
  end.

(** A key that is a word: a run of word characters that is not empty. *)
Definition wordKey (key : string) : Prop :=
  key <> "" /\ forall c, occurs c key -> isWord c = true.

(** The text after a prop: nothing, or the space before the next one. *)
Definition propEnd (t : string) : Prop := t = "" \/ exists b, t = String " " b.

Definition isText (v : Blocks.PropValue) : bool :=
  match v with
  | Blocks.VStr _ => true
  | _ => false
  end.

(** A prop that [parseProps] is made for: the key is a word other than
    [__proto__], a string value holds no double quote and no equals sign,
    a number is a safe integer. *)
Definition plainProp (kv : string * Blocks.PropValue) : Prop :=
  wordKey kv.1 /\ kv.1 <> "__proto__" /\
  match kv.2 with
  | Blocks.VStr s => ~ occurs dq s /\ ~ occurs "=" s
  | Blocks.VInt n => isSafe n = true
  | Blocks.VDec _ => False
  end.

(** ** The link fixer of the exported site ([iron-vault-links.js]) *)

Module Links.

(** [s.replace(/suf$/, rep)] for a literal, non-empty [suf]. *)
Fixpoint replaceSuffix (suf rep s : string) : string :=
  match s with
  | EmptyString => EmptyString
  | String c r => if String.eqb s suf then rep else String c (replaceSuffix suf rep r)
  end.



Definition obsidianToHtmlPath (obsidianPath : string) : string :=
  removeChars (Ascii.eqb "'")
    (replaceChar " " "-"
      (replaceSuffix ".md" ".html" (toLowerCase obsidianPath))).






End Links.

(** * Properties *)

#[local] Arguments String.append !s1 s2 / : simpl nomatch.

(** ** The primitives on sample inputs *)

Example split_keeps_empty_fields : split "|" "a|b||c" = ["a"; "b"; ""; "c"].
Proof. reflexivity. Qed.

Example split_of_empty : split "|" "" = [""].
Proof. reflexivity. Qed.

Example parseInt_samples :
  parseInt (Some "42") = Some 42 /\ parseInt (Some "  -7px") = Some (-7) /\
  parseInt (Some "0x1f") = Some 31 /\ parseInt (Some "4.9") = Some 4 /\
  parseInt (Some "") = None /\ parseInt (Some "abc") = None /\
  parseInt None = None.
Proof. repeat split; reflexivity. Qed.

Example defaults_on_falsy :
  intOr (parseInt (Some "0")) 1 = 1 /\ intOr (parseInt None) 0 = 0 /\
  strOr (Some "") "0" = "0" /\ strOr None "" = "".
Proof. repeat split; reflexivity. Qed.

Example substring_swaps : substring "actor }ab{" 10 6 = "}ab{".
Proof. reflexivity. Qed.

Example slug_samples :
  Inline.pathToSlug "Vows/My Vow (Epic).md" = "vows/my-vow-epic" /\
  Blocks.pathToSlug "Vows\/My  Vow's.md" = "/vows/my-vows" /\
  Blocks.pathToSlug "//a b" = "/a-b" /\
  Inline.pathToSlug "" = "#" /\ Blocks.pathToSlug "" = "#".
Proof. repeat split; vm_compute; reflexivity. Qed.

Example escape_samples :
  Inline.escapeHtml (tpl "a<b>&`c`") = "a&lt;b&gt;&amp;&quot;c&quot;" /\
  Blocks.escapeHtml "Vows\/A&B" = "Vows/A&amp;B".
Proof. repeat split; vm_compute; reflexivity. Qed.

Example parseProps_sample :
  let props := Blocks.parseProps scenarioProgressLine in
  props !! "name" = Some (Blocks.VStr "[[Foo|Foo Track]]") /\
  props !! "steps" = Some (Blocks.VInt 2) /\
  props !! "from" = Some (Blocks.VInt 3) /\
  props !! "rank" = None.
Proof. repeat split; vm_compute; reflexivity. Qed.

(** A key [__proto__] adds no property, and a literal that is no safe
    integer is kept as its text. *)
Example parseProps_own_properties :
  let props := Blocks.parseProps "track __proto__=5 a=9007199254740993 b=2.50 c=7.0" in
  props !! "__proto__" = None /\
  props !! "a" = Some (Blocks.VDec "9007199254740993") /\
  props !! "b" = Some (Blocks.VDec "2.50") /\
  props !! "c" = Some (Blocks.VInt 7).
Proof. repeat split; vm_compute; reflexivity. Qed.

(** A number outside the safe range leaves the fragment. *)
Example meter_beyond :
  Inline.renderMeter "Health|9007199254740993|9007199254740992" = Beyond /\
  Blocks.progressValues "progress steps=9007199254740991 from=1" = Beyond.
Proof. split; vm_compute; reflexivity. Qed.

Example collectBlock_unbalanced :
  Blocks.collectBlock ["move `a` {"; "  roll {"; "}"; "- x"] 0 =
  Ok {| Blocks.content := join (String Blocks.newline "")
                            ["move `a` {"; "  roll {"; "}"; "- x"];
        Blocks.endIndex := 3 |}.
Proof. reflexivity. Qed.

Example collectBlock_past_the_end :
  Blocks.collectBlock ["move `a` {"; "}"] 2 = Throws.
Proof. reflexivity. Qed.

(** The block parser on the empty text (the block round count of the
    specification). *)
Example empty_block (leaf : Blocks.Kind -> string -> Blocks.Result string) :
  Blocks.parseIronVaultBlock leaf "" =
  Some (Blocks.Ok (tpl "<article class=`iron-vault-mechanics`></article>")).
Proof. reflexivity. Qed.

Example nested_actor_block :
  Blocks.parseIronVaultBlock (fun _ text => Blocks.Ok text)
    (join (String Blocks.newline "")
       [tpl "actor name=`[[People\/Kei.md|Kei]]` {"; "  - aside"; "}"]) =
  Some (Blocks.Ok (
    tpl "<article class=`iron-vault-mechanics`><section class=`actor`>
    <header><span><a href=`/people/kei`>Kei</a></span></header>
    <div><aside class=`detail`>
    <p>aside</p>
  </aside></div>
  </section></article>")).
Proof. vm_compute. reflexivity. Qed.

(** [isMatch] does not depend on the order of the challenge values. *)
Lemma isMatch_sym (a b : Z) : Inline.isMatch a b = Inline.isMatch b a.
Proof. apply Z.eqb_sym. Qed.

(** ** Facts about the string primitives *)

Lemma append_nil_r (s : string) : s +:+ "" = s.
Proof. induction s as [|c s IH]; simpl; [reflexivity | now rewrite IH]. Qed.

Lemma append_assoc (a b c : string) : (a +:+ b) +:+ c = a +:+ b +:+ c.
Proof. induction a as [|x a IH]; simpl; [reflexivity | now rewrite IH]. Qed.

Lemma length_append (a b : string) :
  String.length (a +:+ b) = (String.length a + String.length b)%nat.
Proof. induction a as [|x a IH]; simpl; [reflexivity | now rewrite IH]. Qed.

Lemma startsWith_append (p r : string) : startsWith p (p +:+ r) = true.
Proof.
  induction p as [|c p IH]; simpl; [reflexivity |].
  now rewrite Ascii.eqb_refl, IH.
Qed.

Lemma startsWith_inv (p s : string) :
  startsWith p s = true -> exists r, s = p +:+ r.
Proof.
  revert s; induction p as [|c p IH]; intros s H; simpl in *.
  - now exists s.
  - destruct s as [|d s]; [discriminate |].
    apply andb_true_iff in H as [Hc Hp].
    apply Ascii.eqb_eq in Hc; subst d.
    destruct (IH _ Hp) as [r ->]. now exists r.
Qed.

Lemma startsWith_iff (p s : string) :
  startsWith p s = true <-> exists r, s = p +:+ r.
Proof.
  split; [apply startsWith_inv |]. intros [r ->]. apply startsWith_append.
Qed.

Lemma occurs_append (c : ascii) (a b : string) :
  occurs c (a +:+ b) <-> occurs c a \/ occurs c b.
Proof. induction a as [|d a IH]; simpl; tauto. Qed.

(** [indexOf] returns the position of the first occurrence. *)
Lemma indexOf_None (c : ascii) (s : string) :
  indexOf c s = None <-> ~ occurs c s.
Proof.
  induction s as [|d s IH]; simpl; [tauto |].
  destruct (Ascii.eqb_spec c d) as [->|Hne].
  - split; [discriminate | tauto].
  - destruct (indexOf c s).
    + split; [discriminate |]. intros H. exfalso.
      assert (Hs : ~ occurs c s) by tauto.
      apply IH in Hs. discriminate.
    + split; [| reflexivity]. intros _ [H|H]; [contradiction |].
      now apply IH in H.
Qed.

Lemma indexOf_Some (c : ascii) (s : string) (i : nat) :
  indexOf c s = Some i ->
  s = stake i s +:+ String c (sdrop (i + 1) s) /\ ~ occurs c (stake i s).
Proof.
  revert i; induction s as [|d s IH]; intros i; simpl; [discriminate |].
  destruct (Ascii.eqb_spec c d) as [->|Hne].
  - intros [= <-]. simpl. tauto.
  - destruct (indexOf c s) as [j|]; [| discriminate].
    intros [= <-]. destruct (IH j eq_refl) as [Heq Hno]. simpl.
    split; [now rewrite <- Heq | tauto].
Qed.

Lemma indexOf_first (c : ascii) (pre post : string) :
  ~ occurs c pre -> indexOf c (pre +:+ String c post) = Some (String.length pre).
Proof.
  induction pre as [|d pre IH]; simpl; intros H.
  - now rewrite Ascii.eqb_refl.
  - destruct (Ascii.eqb_spec c d) as [->|Hne]; [tauto |].
    rewrite IH; tauto.
Qed.

Lemma stake_append (a b : string) : stake (String.length a) (a +:+ b) = a.
Proof. induction a as [|x a IH]; simpl; [now destruct b | now rewrite IH]. Qed.

Lemma sdrop_append (a b : string) : sdrop (String.length a) (a +:+ b) = b.
Proof. induction a as [|x a IH]; simpl; [reflexivity | exact IH]. Qed.

Lemma substring_0 (s : string) (n : nat) : substring s 0 n = stake n s.
Proof. unfold substring. simpl. now rewrite Nat.sub_0_r. Qed.

(** ** C1: outcome classification *)

Lemma outcomeName_inj (a b : Outcome) : outcomeName a = outcomeName b -> a = b.
Proof. destruct a, b; simpl; intros H; try reflexivity; discriminate. Qed.

(** C1.  For all integers score, vs1 and vs2 the two copies of
    [getOutcome] agree and return one of the three tiers: strong-hit
    exactly when the score exceeds both challenge values, miss exactly when
    it exceeds neither, weak-hit exactly when it exceeds one of the two;
    a tie does not count as exceeding. *)
Theorem getOutcome_classification (score vs1 vs2 : Z) :
  Inline.getOutcome score vs1 vs2 = Blocks.getOutcome score vs1 vs2 /\
  (Inline.getOutcome score vs1 vs2 = StrongHit <-> score > vs1 /\ score > vs2) /\
  (Inline.getOutcome score vs1 vs2 = Miss <-> score <= vs1 /\ score <= vs2) /\
  (Inline.getOutcome score vs1 vs2 = WeakHit <->
     (score > vs1 /\ score <= vs2) \/ (score <= vs1 /\ score > vs2)) /\
  (Inline.getOutcome score score vs2 <> StrongHit /\
   Inline.getOutcome score vs1 score <> StrongHit /\
   Inline.getOutcome score score score = Miss).
Proof.
  unfold Inline.getOutcome, Blocks.getOutcome.
  rewrite !Z.gtb_ltb.
  destruct (Z.ltb_spec vs1 score), (Z.ltb_spec vs2 score);
    destruct (Z.ltb_spec score score); simpl;
    repeat split; intros; try discriminate; try lia; try tauto;
    intuition (try discriminate; try lia).
Qed.

(** ** C9: when the inline parser answers [null] *)

Lemma dispatch_None_iff (type content : string)
    (files : option (gmap string Inline.FileInfo)) :
  Inline.dispatch type content files = None <-> ~ In type kindTags.
Proof.
  unfold Inline.dispatch, kindTags.
  repeat match goal with
  | |- context [String.eqb type ?lit] =>
      destruct (String.eqb_spec type lit) as [->|?];
      [split; [discriminate | intros H; exfalso; apply H; simpl; tauto] |]
  end.
  split; [| reflexivity]. intros _ H. simpl in H.
  repeat (destruct H as [H|H]; [congruence |]). exact H.
Qed.

Lemma kindTags_prefix (type rest : string) :
  In type kindTags -> startsWith "iv-" (type +:+ rest) = true.
Proof.
  unfold kindTags. simpl.
  intros H. repeat (destruct H as [<-|H]; [reflexivity |]). destruct H.
Qed.

Lemma kindTags_no_colon (type : string) : In type kindTags -> ~ occurs ":" type.
Proof.
  unfold kindTags. simpl.
  intros H.
  repeat (destruct H as [<-|H]; [simpl; intuition discriminate |]).
  destruct H.
Qed.

Lemma parse_tagged (type content : string)
    (files : option (gmap string Inline.FileInfo)) :
  ~ occurs ":" type ->
  Inline.parseInlineMechanic (type +:+ String ":" content) files =
  if startsWith "iv-" (type +:+ String ":" content)
  then Inline.dispatch type content files else None.
Proof.
  intros Hno. unfold Inline.parseInlineMechanic.
  destruct (startsWith "iv-" _); simpl; [| reflexivity].
  rewrite (indexOf_first _ _ _ Hno).
  rewrite substring_0, stake_append.
  unfold substringFrom.
  replace (String.length type + 1)%nat with (String.length (type +:+ ":")).
  2:{ rewrite length_append. reflexivity. }
  replace (type +:+ String ":" content) with ((type +:+ ":") +:+ content).
  2:{ now rewrite append_assoc. }
  now rewrite sdrop_append.
Qed.

(** No renderer of the inline parser throws. *)
Lemma intField_not_Throws (x : option string) (d : Z) :
  Inline.intField x d <> Throws.
Proof.
  unfold Inline.intField.
  destruct (parseInt x) as [n|]; [destruct (isSafe n) |]; discriminate.
Qed.

Lemma bind_intField_not_Throws {B : Type} (x : option string) (d : Z)
    (f : Z -> Result B) :
  (forall n, f n <> Throws) -> bind (Inline.intField x d) f <> Throws.
Proof.
  intros Hf. pose proof (intField_not_Throws x d) as Hx.
  destruct (Inline.intField x d); simpl; [apply Hf | congruence | discriminate].
Qed.

Lemma dispatch_not_Throws (type content : string)
    (files : option (gmap string Inline.FileInfo)) :
  Inline.dispatch type content files <> Some Throws.
Proof.
  unfold Inline.dispatch.
  repeat match goal with
  | |- (if ?b then _ else _) <> _ => destruct b
  end; try discriminate;
  intros H; injection H as H; revert H;
  unfold Inline.renderMove, Inline.moveRoll, Inline.renderMeter, Inline.renderBurn,
    Inline.renderTrackAdvance, Inline.renderProgressRoll; cbv zeta.
  - intros H.
    assert (Hr : Inline.moveRoll (split "|" content) <> Throws).
    { unfold Inline.moveRoll.
      repeat (apply bind_intField_not_Throws; intros ?).
      unfold Inline.rollOf. destruct (_ && _); discriminate. }
    unfold Inline.moveRoll in Hr.
    destruct (bind _ _); simpl in H; congruence.
  - repeat (apply bind_intField_not_Throws; intros ?). discriminate.
  - repeat (apply bind_intField_not_Throws; intros ?). discriminate.
  - repeat (apply bind_intField_not_Throws; intros ?). discriminate.
  - repeat (apply bind_intField_not_Throws; intros ?). discriminate.
Qed.

Lemma parseInlineMechanic_not_Throws (code : string)
    (files : option (gmap string Inline.FileInfo)) :
  Inline.parseInlineMechanic code files <> Some Throws.
Proof.
  unfold Inline.parseInlineMechanic.
  destruct (negb _); [discriminate |].
  destruct (indexOf ":" code); [apply dispatch_not_Throws | discriminate].
Qed.

Lemma parse_known_tag (type content : string)
    (files : option (gmap string Inline.FileInfo)) :
  In type kindTags ->
  exists html,
    Inline.parseInlineMechanic (type +:+ String ":" content) files = Some html /\
    html <> Throws.
Proof.
  intros Hin.
  pose proof (parseInlineMechanic_not_Throws (type +:+ String ":" content) files) as Hnt.
  rewrite parse_tagged in * by now apply kindTags_no_colon.
  rewrite kindTags_prefix in * by assumption.
  destruct (Inline.dispatch type content files) as [html|] eqn:E.
  - exists html. split; [reflexivity | congruence].
  - apply dispatch_None_iff in E. contradiction.
Qed.

(** ** C7: the Face Danger scenario *)

(** C7.  On [iv-move:Face Danger|edge|4|3|0|3|5] the inline parser computes
    the score [min(10, 4+3+0) = 7], the outcome strong-hit and no match;
    the class list holds [strong-hit] and not [match], and the score element
    of the markup shows [7]. *)
Theorem face_danger_scenario (files : option (gmap string Inline.FileInfo)) :
  exists r : Inline.MoveRoll,
  Inline.moveRoll (split "|" "Face Danger|edge|4|3|0|3|5") = Ok r /\
  Inline.score r = Z.min 10 (4 + 3 + 0) /\
  Inline.score r = 7 /\
  Inline.outcome r = Inline.getOutcome 7 3 5 /\
  Inline.outcome r = StrongHit /\
  Inline.matched r = Inline.isMatch 3 5 /\
  Inline.matched r = false /\
  Inline.classes r = ["iv-inline-mechanics"; "strong-hit"] /\
  ~ In "match" (Inline.classes r) /\
  Inline.parseInlineMechanic "iv-move:Face Danger|edge|4|3|0|3|5" files =
  Some (Ok (tpl "<span class=`iv-inline-mechanics strong-hit`>" +:+
        tpl "<span class=`iv-inline-outcome-icon`></span>" +:+
        tpl "<span class=`iv-inline-move-name iv-inline-link`>Face Danger</span>" +:+
        tpl "<span class=`iv-inline-stat`>(edge)</span>" +:+
        tpl "<span class=`iv-inline-separator`>—</span>" +:+
        tpl "<span class=`iv-inline-score`>7</span>" +:+
        "<span> vs </span>" +:+
        tpl "<span class=`iv-inline-challenge-die vs1`>3</span>" +:+
        "<span>|</span>" +:+
        tpl "<span class=`iv-inline-challenge-die vs2`>5</span>" +:+
        "</span>")).
Proof.
  eexists. split; [vm_compute; reflexivity |].
  repeat split; try (vm_compute; reflexivity).
  vm_compute. intros [H|[H|[]]]; discriminate.
Qed.

(** ** C2: fields that reach the markup without escaping *)

Lemma occurs_replaceChar (c d : ascii) (rep s : string) :
  occurs c (replaceChar d rep s) -> (c <> d /\ occurs c s) \/ occurs c rep.
Proof.
  induction s as [|e r IH]; cbn [replaceChar occurs]; [tauto |].
  destruct (Ascii.eqb_spec d e) as [->|Hne].
  - rewrite occurs_append. intros [H|H]; [tauto | apply IH in H; tauto].
  - cbn [occurs]. intros [->|H]; [left; split; [congruence | tauto] |].
    apply IH in H. tauto.
Qed.

(** What [escapeHtml] has rewritten holds none of the characters [<], [>]
    and double quote: the defect of C2 is in the callers that do not call
    it. *)
Lemma escapeHtml_safe (text : string) (c : ascii) :
  occurs c (Inline.escapeHtml text) ->
  c <> "<"%char /\ c <> ">"%char /\ c <> dq.
Proof.
  unfold Inline.escapeHtml. intros H.
  apply occurs_replaceChar in H as [[Hq H]|H].
  2:{ cbn [occurs] in H. repeat split; intros ->;
      repeat (destruct H as [H|H]; [discriminate H |]); exact H. }
  apply occurs_replaceChar in H as [[Hgt H]|H].
  2:{ cbn [occurs] in H. repeat split; intros ->;
      repeat (destruct H as [H|H]; [discriminate H |]); exact H. }
  apply occurs_replaceChar in H as [[Hlt H]|H].
  2:{ cbn [occurs] in H. repeat split; intros ->;
      repeat (destruct H as [H|H]; [discriminate H |]); exact H. }
  repeat split; assumption.
Qed.

(** C2 (the code at the failing inputs).  The roll field of [iv-oracle] and
    the from, to and segments fields of [iv-clock-advance] are copied into
    the markup as they are, while [escapeHtml] would have rewritten them. *)
Theorem raw_fields_reach_markup :
  Inline.parseInlineMechanic "iv-oracle:Action|<script>|Yes" None =
  Some (Ok (tpl "<span class=`iv-inline-mechanics oracle`>" +:+
        tpl "<span class=`iv-inline-oracle-icon`>" +:+ ICONS.sparkles +:+ "</span>" +:+
        tpl "<span class=`iv-inline-oracle-name iv-inline-link`>Action</span>" +:+
        "<span>(<script>)</span>" +:+
        tpl "<span class=`iv-inline-oracle-result`>Yes</span>" +:+
        "</span>")) /\
  Inline.escapeHtml "<script>" = "&lt;script&gt;" /\
  Inline.parseInlineMechanic "iv-clock-advance:Doom|<i>|<b>|<u>&|" None =
  Some (Ok (tpl "<span class=`iv-inline-mechanics clock-advance`>" +:+
        tpl "<span class=`iv-inline-clock-icon`>" +:+ ICONS.clockArrowUp +:+ "</span>" +:+
        tpl "<a href=`/#` class=`iv-inline-clock-name iv-inline-link`>Doom</a>" +:+
        tpl "<span class=`iv-inline-clock-progress`><i> → <b>/<u>&</span>" +:+
        "</span>")).
Proof. repeat split; vm_compute; reflexivity. Qed.

(** ** C4: the class of an initiative code *)

Lemma includes_contains (sub s : string) :
  includes sub s = true <-> contains sub s.
Proof.
  split.
  - induction s as [|c s IH]; simpl; intros H.
    + rewrite orb_false_r in H. apply startsWith_inv in H as [r Hr].
      exists "", r. exact Hr.
    + apply orb_true_iff in H as [H|H].
      * apply startsWith_inv in H as [r Hr]. exists "", r. exact Hr.
      * destruct (IH H) as (pre & post & ->). exists (String c pre), post. reflexivity.
  - intros (pre & post & ->).
    induction pre as [|c pre IH].
    + simpl. destruct (sub +:+ post) eqn:E; simpl; rewrite <- E, startsWith_append; reflexivity.
    + simpl. rewrite IH. apply orb_true_r.
Qed.

Lemma includes_not_contains (sub s : string) :
  includes sub s = false <-> ~ contains sub s.
Proof.
  rewrite <- includes_contains. destruct (includes sub s); split; intros H; congruence.
Qed.

Lemma initiativeClass_rule (to : string) :
  initiativeRule to (Inline.initiativeClass to).
Proof.
  unfold initiativeRule, Inline.initiativeClass. cbv zeta.
  rewrite <- !includes_contains.
  destruct (includes "control" _), (includes "initiative" _),
    (includes "bad" _), (includes "no" _), (includes "out" _); simpl;
    repeat split; intros; try reflexivity;
    intuition (try discriminate; try congruence).
Qed.

(** C4 (as the code has it, for the values it treats by design).  The
    class of an [iv-initiative] code depends on its to value alone (the
    second field, or the first when the second is absent or empty),
    lower-cased: [initiative-in-control] when it contains control;
    otherwise [initiative-in-control] when it contains initiative and
    neither bad nor no, [initiative-bad-spot] when it contains bad or no
    and not initiative, [initiative-out-of-combat] when it contains out
    and none of these, and [initiative] when it contains none of the five.
    Nothing is said of a value without control that holds initiative
    together with bad or no.  The code
    [iv-initiative:out of combat|in control] yields the class
    [initiative-in-control] and the text [out of combat → in control]. *)
Theorem initiative_class_priority (content : string)
    (files : option (gmap string Inline.FileInfo)) :
  let parts := split "|" content in
  let from := strOr (parts !! 0%nat) "" in
  let to := strOr (parts !! 1%nat) from in
  Inline.renderInitiative content = Inline.initiativeMarkup from to /\
  (exists cls : string,
     initiativeRule to cls /\
     Inline.initiativeMarkup from to =
       tpl "<span class=`iv-inline-mechanics " +:+ cls +:+ tpl "`>" +:+
       tpl "<span class=`iv-inline-initiative-icon`>" +:+ ICONS.footprints +:+ "</span>" +:+
       tpl "<span class=`iv-inline-initiative-label`>Position:</span>" +:+
       tpl "<span class=`iv-inline-initiative-change`>" +:+
         Inline.escapeHtml from +:+ " → " +:+ Inline.escapeHtml to +:+ "</span>" +:+
       "</span>") /\
  Inline.parseInlineMechanic "iv-initiative:out of combat|in control" files =
    Some (Ok (tpl "<span class=`iv-inline-mechanics initiative-in-control`>" +:+
              tpl "<span class=`iv-inline-initiative-icon`>" +:+ ICONS.footprints +:+ "</span>" +:+
              tpl "<span class=`iv-inline-initiative-label`>Position:</span>" +:+
              tpl "<span class=`iv-inline-initiative-change`>out of combat → in control</span>" +:+
              "</span>")).
Proof.
  split; [reflexivity |]. split.
  - exists (Inline.initiativeClass (strOr (split "|" content !! 1%nat)
                                      (strOr (split "|" content !! 0%nat) ""))).
    split; [apply initiativeClass_rule | reflexivity].
  - vm_compute. reflexivity.
Qed.

(** C4 fails as it is worded: a to value of [no] contains none of control,
    bad and out, and the code gives it the class [initiative-bad-spot]. *)
Lemma initiative_class_counterexample :
  ~ (forall to : string, Inline.initiativeClass to = claimedInitiativeClass to).
Proof. intros H. specialize (H "no"). vm_compute in H. discriminate. Qed.

(** ** C5 and C6: the two slug routines *)

Lemma isEmpty_true (s : string) : isEmpty s = true <-> s = "".
Proof. destruct s; simpl; split; congruence. Qed.

Lemma isEmpty_false (s : string) : isEmpty s = false <-> s <> "".
Proof. destruct s; simpl; split; congruence. Qed.

Lemma unescapeSlash_cons (c : ascii) (r : string) :
  unescapeSlash (String c r) =
  match r with
  | String d r' =>
      if Ascii.eqb c "\" && Ascii.eqb d "/"
      then String "/" (unescapeSlash r')
      else String c (unescapeSlash r)
  | EmptyString => String c EmptyString
  end.
Proof. destruct r; reflexivity. Qed.

Lemma unescapeSlash_nonempty (s : string) : s <> "" -> unescapeSlash s <> "".
Proof.
  destruct s as [|c r]; [congruence |]. intros _.
  rewrite unescapeSlash_cons. destruct r as [|d r']; [discriminate |].
  destruct (_ && _); discriminate.
Qed.

Lemma unescapeSlash_id (s : string) :
  includes "\/" s = false -> unescapeSlash s = s.
Proof.
  induction s as [|c r IH]; [reflexivity |].
  intros H. cbn [includes] in H. apply orb_false_iff in H as [Hp Hr].
  rewrite unescapeSlash_cons. destruct r as [|d r']; [reflexivity |].
  cbn [startsWith] in Hp. rewrite andb_true_r in Hp.
  rewrite (Ascii.eqb_sym c), (Ascii.eqb_sym d), Hp.
  now rewrite IH.
Qed.

Lemma stripLeadingSlashes_id (s : string) :
  startsWith "/" s = false -> stripLeadingSlashes s = s.
Proof.
  destruct s as [|c r]; [reflexivity |]. unfold stripLeadingSlashes.
  cbn [startsWith dropWhile]. rewrite andb_true_r. now intros ->.
Qed.

Lemma stripLeadingSlashes_head (s : string) :
  startsWith "/" (stripLeadingSlashes s) = false.
Proof.
  unfold stripLeadingSlashes. induction s as [|c r IH]; [reflexivity |].
  cbn [dropWhile]. destruct (Ascii.eqb "/" c) eqn:E; [exact IH |].
  cbn [startsWith]. now rewrite E.
Qed.

Lemma blocks_slug_nonempty (path : string) :
  path <> "" ->
  Blocks.pathToSlug path =
  String "/" (stripLeadingSlashes (Inline.pathToSlug (unescapeSlash path))).
Proof.
  intros Hne. unfold Blocks.pathToSlug, Inline.pathToSlug.
  apply isEmpty_false in Hne as Hne'. rewrite Hne'.
  apply unescapeSlash_nonempty, isEmpty_false in Hne. rewrite Hne.
  reflexivity.
Qed.

(** C5 (as the code has it).  On the empty path both routines return [#].
    On every other path the block slug is a slash followed by the inline
    slug of the path with its escaped separators unescaped and its leading
    slashes removed; so for a path with no escaped separator whose inline
    slug does not start with a slash, the block slug is the inline slug
    with one slash in front, which is what the inline callers write in
    the link. *)
Theorem slug_routines_related (path : string) :
  (path = "" -> Inline.pathToSlug path = "#" /\ Blocks.pathToSlug path = "#") /\
  (path <> "" ->
   Blocks.pathToSlug path =
   "/" +:+ stripLeadingSlashes (Inline.pathToSlug (unescapeSlash path))) /\
  (path <> "" ->
   includes "\/" path = false ->
   startsWith "/" (Inline.pathToSlug path) = false ->
   Blocks.pathToSlug path = "/" +:+ Inline.pathToSlug path).
Proof.
  split; [intros ->; split; reflexivity |].
  split; [apply blocks_slug_nonempty |].
  intros Hne Hesc Hlead. rewrite blocks_slug_nonempty by assumption.
  rewrite unescapeSlash_id by assumption.
  now rewrite stripLeadingSlashes_id.
Qed.

Lemma slug_routines_related_witness :
  Blocks.pathToSlug "Vows/My Vow (Epic).md" =
  "/" +:+ Inline.pathToSlug "Vows/My Vow (Epic).md".
Proof.
  apply (proj2 (proj2 (slug_routines_related "Vows/My Vow (Epic).md"))).
  - discriminate.
  - vm_compute. reflexivity.
  - vm_compute. reflexivity.
Defined.

(** C5 fails as it is worded: the two routines differ already on [Foo]. *)
Lemma slug_routines_counterexample :
  ~ (forall path : string, Inline.pathToSlug path = Blocks.pathToSlug path).
Proof. intros H. specialize (H "Foo"). vm_compute in H. discriminate. Qed.

Lemma occurs_removeChars (p : ascii -> bool) (c : ascii) (s : string) :
  occurs c (removeChars p s) -> occurs c s /\ p c = false.
Proof.
  induction s as [|d r IH]; simpl; [tauto |].
  destruct (p d) eqn:E; simpl.
  - intros H. apply IH in H. tauto.
  - intros [->|H]; [tauto |]. apply IH in H. tauto.
Qed.

Lemma occurs_wsRuns (b : bool) (c : ascii) (s : string) :
  occurs c (wsRuns b s) -> isSpace c = false.
Proof.
  revert b; induction s as [|d r IH]; intros b; simpl; [tauto |].
  destruct (isSpace d) eqn:E.
  - destruct b; simpl; [apply IH |]. intros [->|H]; [reflexivity | now apply IH in H].
  - simpl. intros [->|H]; [exact E | now apply IH in H].
Qed.

Lemma occurs_dropWhile (p : ascii -> bool) (c : ascii) (s : string) :
  occurs c (dropWhile p s) -> occurs c s.
Proof.
  induction s as [|d r IH]; simpl; [tauto |].
  destruct (p d); simpl; tauto.
Qed.

Lemma inline_slug_safe (path : string) : slugSafe (Inline.pathToSlug path).
Proof.
  unfold Inline.pathToSlug. destruct (isEmpty path).
  - intros c [->|[]]. repeat split; discriminate.
  - intros c H.
    apply occurs_removeChars in H as [H Hq].
    apply occurs_removeChars in H as [H Hp].
    apply occurs_wsRuns in H.
    apply orb_false_iff in Hp as [Hp1 Hp2].
    repeat split; trivial; intros ->; discriminate.
Qed.

Lemma occurs_stripSuffix (suf : string) (c : ascii) (s : string) :
  occurs c (stripSuffix suf s) -> occurs c s.
Proof.
  induction s as [|d r IH]; [tauto |].
  cbn [stripSuffix]. destruct (String.eqb (String d r) suf); cbn [occurs]; tauto.
Qed.

Lemma occurs_smap (f : ascii -> ascii) (c : ascii) (s : string) :
  occurs c (smap f s) -> exists d, occurs d s /\ c = f d.
Proof.
  induction s as [|d r IH]; cbn [smap occurs]; [tauto |].
  intros [->|H]; [exists d; tauto |].
  destruct (IH H) as (e & He & ->). exists e. tauto.
Qed.

Lemma lowerChar_slash (d : ascii) : "/"%char = lowerChar d -> d = "/"%char.
Proof.
  destruct d as [[] [] [] [] [] [] [] []]; vm_compute; intros H;
    first [reflexivity | discriminate H].
Qed.

Lemma occurs_wsRuns_source (b : bool) (c : ascii) (s : string) :
  occurs c (wsRuns b s) -> c = "-"%char \/ occurs c s.
Proof.
  revert b; induction s as [|d r IH]; intros b; cbn [wsRuns occurs]; [tauto |].
  destruct (isSpace d).
  - destruct b; cbn [occurs]; [intros H; apply IH in H; tauto |].
    intros [->|H]; [tauto | apply IH in H; tauto].
  - cbn [occurs]. intros [->|H]; [tauto | apply IH in H; tauto].
Qed.

Lemma inline_slug_slashes (path : string) :
  occurs "/" (Inline.pathToSlug path) -> occurs "/" path.
Proof.
  unfold Inline.pathToSlug. destruct (isEmpty path).
  - cbn [occurs]. intros [H|[]]. discriminate H.
  - intros H.
    apply occurs_removeChars in H as [H _].
    apply occurs_removeChars in H as [H _].
    apply occurs_wsRuns_source in H as [H|H]; [discriminate H |].
    apply occurs_smap in H as (d & Hd & Heq).
    apply lowerChar_slash in Heq. subst d.
    now apply occurs_stripSuffix in Hd.
Qed.

(** C6 (as the code has it).  Each slug routine is a function of its
    argument; no slug holds white space, a parenthesis or an apostrophe;
    the block slug of a non-empty path starts with exactly one slash; both
    routines return [#] on the empty path, and the inline routine adds no
    slash of its own (a slash of its slug is a slash of the path). *)
Theorem slug_shape (path : string) :
  (forall other : string,
     other = path ->
     Inline.pathToSlug other = Inline.pathToSlug path /\
     Blocks.pathToSlug other = Blocks.pathToSlug path) /\
  slugSafe (Inline.pathToSlug path) /\
  slugSafe (Blocks.pathToSlug path) /\
  (path <> "" -> oneLeadingSlash (Blocks.pathToSlug path)) /\
  (path = "" -> Inline.pathToSlug path = "#" /\ Blocks.pathToSlug path = "#") /\
  (occurs "/" (Inline.pathToSlug path) -> occurs "/" path).
Proof.
  split; [intros other ->; split; reflexivity |].
  split; [apply inline_slug_safe |].
  split.
  { destruct path as [|c r] eqn:E; [intros d [->|[]]; repeat split; discriminate |].
    rewrite <- E. assert (Hne : path <> "") by (rewrite E; discriminate).
    rewrite blocks_slug_nonempty by assumption.
    intros d [->|H]; [repeat split; discriminate |].
    apply occurs_dropWhile in H. now apply inline_slug_safe in H. }
  split.
  { intros Hne. rewrite blocks_slug_nonempty by assumption.
    eexists; split; [reflexivity | apply stripLeadingSlashes_head]. }
  split; [intros ->; split; reflexivity |].
  apply inline_slug_slashes.
Qed.

Lemma slug_shape_witness :
  oneLeadingSlash (Blocks.pathToSlug "//Vows/My Vow's (Epic).md").
Proof.
  apply (proj1 (proj2 (proj2 (proj2 (slug_shape "//Vows/My Vow's (Epic).md"))))).
  discriminate.
Defined.

(** C6 fails as it is worded: the inline slug of [foo] has no leading
    slash, and the slug of the empty path is [#] in both routines. *)
Lemma slug_shape_counterexample :
  ~ (forall path : string,
       oneLeadingSlash (Inline.pathToSlug path) /\
       oneLeadingSlash (Blocks.pathToSlug path)).
Proof.
  intros H. destruct (H "") as [_ (r & Hr & _)]. vm_compute in Hr. discriminate.
Qed.

(** ** C8: the arithmetic of a progress line *)

Lemma ticksPerStep_claimed (key : string) :
  Blocks.ticksPerStep key <> Blocks.Inherited ->
  match Blocks.ticksPerStep key with Blocks.Ticks n => n | _ => 4 end
  = claimedTicksPerStep key.
Proof.
  unfold Blocks.ticksPerStep, claimedTicksPerStep.
  repeat match goal with
  | |- context [String.eqb key ?lit] => destruct (String.eqb key lit)
  end; simpl; congruence.
Qed.

Lemma numberOr_integerProp (v : option Blocks.PropValue) (d : Z) :
  integerProp v -> Blocks.numberOr v d = Ok (integerOf v d).
Proof. intros [->|[n ->]]; reflexivity. Qed.

Lemma stringOr_stringProp (a b : option Blocks.PropValue) :
  stringProp a -> stringProp b ->
  Blocks.stringOr a b =
  Ok (if isEmpty (textOf a) then textOf b else textOf a).
Proof.
  intros [->|[s ->]] [->|[t ->]]; unfold Blocks.stringOr; simpl;
    try destruct s; try destruct t; reflexivity.
Qed.

Lemma progressValues_read (line : string) :
  let props := Blocks.parseProps line in
  integerProp (props !! "steps") ->
  integerProp (props !! "from") ->
  stringProp (props !! "rank") ->
  stringProp (props !! "level") ->
  stringProp (props !! "name") ->
  toLowerCase (rankOf props) <> "constructor" ->
  toLowerCase (rankOf props) <> "__proto__" ->
  isSafe (Blocks.ticksToAdd (progressOf line)) = true ->
  isSafe (Blocks.newProgress (progressOf line)) = true ->
  Blocks.progressValues line = Ok (progressOf line).
Proof.
  cbv zeta. intros Hsteps Hfrom Hrank Hlevel Hname Hc Hp Hsafe1 Hsafe2.
  unfold Blocks.progressValues. cbv zeta.
  rewrite (stringOr_stringProp _ _ Hrank Hlevel).
  fold (rankOf (Blocks.parseProps line)).
  assert (En :
    match searchFirst Blocks.matchWikiName line with
    | Some (_, d) => Ok d
    | None => Blocks.stringOr (Blocks.parseProps line !! "name") None
    end =
    Ok (match searchFirst Blocks.matchWikiName line with
        | Some (_, d) => d
        | None => textOf (Blocks.parseProps line !! "name")
        end)).
  { destruct (searchFirst Blocks.matchWikiName line) as [[t d]|]; [reflexivity |].
    rewrite (stringOr_stringProp _ None Hname) by now left.
    simpl. now destruct (textOf _). }
  rewrite En.
  rewrite (numberOr_integerProp _ 1 Hsteps), (numberOr_integerProp _ 0 Hfrom).
  assert (Hin : Blocks.ticksPerStep (toLowerCase (rankOf (Blocks.parseProps line)))
                <> Blocks.Inherited).
  { unfold Blocks.ticksPerStep.
    repeat match goal with
    | |- context [String.eqb ?k ?lit] =>
        destruct (String.eqb_spec k lit); try discriminate
    end; simpl; congruence. }
  pose proof (ticksPerStep_claimed _ Hin) as Hclaimed.
  unfold progressOf in *. cbn [Blocks.ticksToAdd Blocks.newProgress] in *.
  destruct (Blocks.ticksPerStep (toLowerCase (rankOf (Blocks.parseProps line))));
    [| congruence |]; rewrite Hclaimed, Hsafe1, Hsafe2; reflexivity.
Qed.

(** C8 (as the code has it).  Take a progress line whose steps and from
    props are absent or unquoted literals of safe integers, whose rank,
    level and name props are absent or quoted strings, and whose rank (the
    rank prop, or the level prop when there is no rank or an empty one),
    lower-cased, is neither [constructor] nor [__proto__]; let the steps be
    1 when absent or zero, the from total 0 when absent, and let
    table[rank] * steps and from + table[rank] * steps be safe integers.
    Then [parseProgressBlock] returns the markup of these values:
    [ticksToAdd] is the table entry of the lower-cased rank (troublesome
    12, dangerous 8, formidable 4, extreme 2, epic 1, and 4 for any other
    rank) times the steps, the new total is from plus [ticksToAdd], and
    both totals are split into boxes by [floor(ticks / 4)] and into ticks
    by the remainder [ticks % 4], which is [ticks mod 4] for a total that
    is not negative.  The scenario line with its rank between quotes gives
    16, 19, 4, 3, 0, 3; as the specification writes it, with the rank
    outside quotes, the rank is not captured and the line gives 8, 11, 2,
    3, 0, 3. *)
Theorem progress_ticks (line : string) :
  let props := Blocks.parseProps line in
  let steps := integerOf (props !! "steps") 1 in
  let from := integerOf (props !! "from") 0 in
  let rank := rankOf props in
  let perStep := claimedTicksPerStep (toLowerCase rank) in
  (integerProp (props !! "steps") ->
   integerProp (props !! "from") ->
   stringProp (props !! "rank") ->
   stringProp (props !! "level") ->
   stringProp (props !! "name") ->
   toLowerCase rank <> "constructor" ->
   toLowerCase rank <> "__proto__" ->
   isSafe (perStep * steps) = true ->
   isSafe (from + perStep * steps) = true ->
   exists p : Blocks.Progress,
     Blocks.progressValues line = Ok p /\
     Blocks.parseProgressBlock line = Ok (Blocks.renderProgress p) /\
     Blocks.steps p = steps /\ Blocks.from p = from /\ Blocks.rank p = rank /\
     Blocks.ticksToAdd p = perStep * steps /\
     Blocks.newProgress p = from + perStep * steps /\
     Blocks.fromBoxes p = from / 4 /\
     Blocks.fromTicks p = Z.rem from 4 /\
     Blocks.toBoxes p = Blocks.newProgress p / 4 /\
     Blocks.toTicks p = Z.rem (Blocks.newProgress p) 4 /\
     (0 <= from -> Blocks.fromTicks p = from mod 4) /\
     (0 <= Blocks.newProgress p -> Blocks.toTicks p = Blocks.newProgress p mod 4)) /\
  (exists p,
     Blocks.progressValues quotedProgressLine = Ok p /\
     Blocks.rank p = "dangerous" /\ Blocks.steps p = 2 /\ Blocks.from p = 3 /\
     Blocks.ticksToAdd p = 16 /\ Blocks.newProgress p = 19 /\
     Blocks.toBoxes p = 4 /\ Blocks.toTicks p = 3 /\
     Blocks.fromBoxes p = 0 /\ Blocks.fromTicks p = 3) /\
  (exists p,
     Blocks.progressValues scenarioProgressLine = Ok p /\
     Blocks.parseProps scenarioProgressLine !! "rank" = None /\
     Blocks.rank p = "" /\ Blocks.steps p = 2 /\ Blocks.from p = 3 /\
     Blocks.ticksToAdd p = 8 /\ Blocks.newProgress p = 11 /\
     Blocks.toBoxes p = 2 /\ Blocks.toTicks p = 3 /\
     Blocks.fromBoxes p = 0 /\ Blocks.fromTicks p = 3).
Proof.
  cbv zeta. split; [| split].
  - intros Hsteps Hfrom Hrank Hlevel Hname Hc Hp Hsafe1 Hsafe2.
    pose proof (progressValues_read line Hsteps Hfrom Hrank Hlevel Hname Hc Hp
                  Hsafe1 Hsafe2) as Hv.
    exists (progressOf line).
    split; [exact Hv |].
    split; [unfold Blocks.parseProgressBlock; now rewrite Hv |].
    unfold progressOf; cbn -[Z.rem Z.div Z.modulo Z.mul Z.add].
    repeat split; trivial; intros H; now apply Z.rem_mod_nonneg.
  - eexists. split; [vm_compute; reflexivity |]. vm_compute. repeat split.
  - eexists. split; [vm_compute; reflexivity |]. vm_compute. repeat split.
Qed.

Lemma progress_ticks_witness :
  exists p, Blocks.progressValues (tpl "progress name=`Vow` level=`Epic` steps=3 from=-6")
            = Ok p /\
  Blocks.ticksToAdd p = 1 * 3 /\ Blocks.newProgress p = -6 + 1 * 3 /\
  Blocks.fromBoxes p = -2 /\ Blocks.fromTicks p = -2 /\ Blocks.toTicks p = -3.
Proof.
  pose (line := tpl "progress name=`Vow` level=`Epic` steps=3 from=-6").
  destruct (proj1 (progress_ticks line)) as (p & Hp & _ & Hs & Hf & Hr & Hadd & Hnew & Hfb & Hft & Htb & Htt & _).
  - right. exists 3. vm_compute. reflexivity.
  - right. exists (-6). vm_compute. reflexivity.
  - left. vm_compute. reflexivity.
  - right. exists "Epic". vm_compute. reflexivity.
  - right. exists "Vow". vm_compute. reflexivity.
  - vm_compute. discriminate.
  - vm_compute. discriminate.
  - vm_compute. reflexivity.
  - vm_compute. reflexivity.
  - exists p. split; [exact Hp |].
    rewrite Hadd, Hfb, Hft, Htt, Hnew.
    vm_compute. repeat split.
Defined.

(** C8 fails as it is worded: on the scenario line the rank is written
    without quotes, [parseProps] does not capture it, and [ticksToAdd] is
    8, not 16. *)
Lemma progress_scenario_counterexample :
  ~ (forall p : Blocks.Progress,
       Blocks.progressValues scenarioProgressLine = Ok p ->
       Blocks.ticksToAdd p = 16 /\ Blocks.newProgress p = 19 /\
       Blocks.toBoxes p = 4 /\ Blocks.toTicks p = 3 /\
       Blocks.fromBoxes p = 0 /\ Blocks.fromTicks p = 3).
Proof.
  intros H.
  destruct (H _ ltac:(vm_compute; reflexivity)) as [H16 _].
  vm_compute in H16. discriminate.
Qed.

(** ** C3: missing fields of an inline code *)

Lemma splitOn_nonempty (isSep : ascii -> bool) (s : string) :
  splitOn isSep s <> [].
Proof.
  induction s as [|c r IH]; cbn [splitOn]; [discriminate |].
  destruct (isSep c); [discriminate |].
  destruct (splitOn isSep r); discriminate.
Qed.

Lemma splitOn_sepFree (isSep : ascii -> bool) (s : string) :
  Forall (sepFree isSep) (splitOn isSep s).
Proof.
  induction s as [|c r IH]; cbn [splitOn].
  - constructor; [intros d [] | constructor].
  - destruct (isSep c) eqn:E.
    + constructor; [intros d [] | exact IH].
    + destruct (splitOn isSep r) as [|h t].
      * constructor; [| constructor]. intros d [->|[]]. exact E.
      * inversion IH as [|? ? Hh Ht]; subst. constructor; [| exact Ht].
        intros d [->|H]; [exact E | now apply Hh].
Qed.

Lemma splitOn_whole (isSep : ascii -> bool) (s : string) :
  sepFree isSep s -> splitOn isSep s = [s].
Proof.
  induction s as [|c r IH]; intros H; cbn [splitOn]; [reflexivity |].
  rewrite (H c) by (now left).
  rewrite IH; [reflexivity |]. intros d Hd. apply H. now right.
Qed.

Lemma splitOn_append (isSep : ascii -> bool) (x : string) (c : ascii) (y : string) :
  sepFree isSep x -> isSep c = true ->
  splitOn isSep (x +:+ String c y) = x :: splitOn isSep y.
Proof.
  intros Hx Hc. induction x as [|d x IH]; cbn [String.append splitOn].
  - now rewrite Hc.
  - rewrite (Hx d) by (now left).
    rewrite IH; [reflexivity |]. intros e He. apply Hx. now right.
Qed.

Lemma join_cons (sep x : string) (y : string) (rest : list string) :
  join sep (x :: y :: rest) = x +:+ sep +:+ join sep (y :: rest).
Proof. reflexivity. Qed.

Lemma split_join (c : ascii) (l : list string) :
  l <> [] -> Forall (sepFree (Ascii.eqb c)) l ->
  split c (join (String c "") l) = l.
Proof.
  unfold split. induction l as [|x rest IH]; [congruence |].
  intros _ H. inversion H as [|? ? Hx Hrest]; subst.
  destruct rest as [|y rest].
  - cbn [join]. now apply splitOn_whole.
  - rewrite join_cons. cbn [String.append].
    rewrite splitOn_append; trivial; [| apply Ascii.eqb_refl].
    rewrite IH; [reflexivity | discriminate | assumption].
Qed.

Lemma join_split (c : ascii) (s : string) :
  join (String c "") (split c s) = s.
Proof.
  unfold split. induction s as [|d r IH]; cbn [splitOn]; [reflexivity |].
  destruct (Ascii.eqb_spec c d) as [->|Hne].
  - pose proof (splitOn_nonempty (Ascii.eqb d) r) as Hn.
    destruct (splitOn (Ascii.eqb d) r) as [|h t] eqn:E; [congruence |].
    rewrite join_cons. cbn [String.append]. now rewrite IH.
  - pose proof (splitOn_nonempty (Ascii.eqb c) r) as Hn.
    destruct (splitOn (Ascii.eqb c) r) as [|h t] eqn:E; [congruence |].
    destruct t as [|h2 t].
    + cbn [join] in *. now rewrite IH.
    + rewrite join_cons in *. cbn [String.append] in *. now rewrite IH.
Qed.

Lemma split_sepFree (c : ascii) (s : string) :
  Forall (sepFree (Ascii.eqb c)) (split c s).
Proof. apply splitOn_sepFree. Qed.

(** What the renderers read, field by field. *)
Lemma strOr_textAt (fields : list string) (i : nat) :
  strOr (fields !! i) "" = textAt fields i.
Proof. unfold textAt. destruct (fields !! i) as [[|c x]|]; reflexivity. Qed.

Lemma strOr_textOrAt (d : string) (fields : list string) (i : nat) :
  strOr (fields !! i) d = textOrAt d fields i.
Proof. reflexivity. Qed.

Lemma intField_numberAt (d : Z) (fields : list string) (i : nat) :
  Inline.intField (fields !! i) d = numberAt d fields i.
Proof. unfold numberAt. destruct (fields !! i); reflexivity. Qed.

Ltac by_numbers :=
  repeat match goal with
  | |- context [bind ?r _] => destruct r; cbn [bind mapResult]; try reflexivity
  end.

Lemma dispatch_fields (type content : string)
    (files : option (gmap string Inline.FileInfo)) :
  In type kindTags -> type <> "iv-ooc" ->
  Inline.dispatch type content files =
  Some (defaultedMarkup type (split "|" content) files).
Proof.
  intros Hin Hooc.
  unfold Inline.dispatch, defaultedMarkup, Inline.renderMove, Inline.moveRoll,
    Inline.renderOracle, Inline.renderMeter, Inline.renderBurn,
    Inline.renderInitiative, Inline.renderTrackCreate, Inline.renderTrackAdvance,
    Inline.renderTrackComplete, Inline.renderProgressRoll, Inline.renderNoRoll,
    Inline.renderEntityCreate, Inline.renderClockCreate, Inline.renderClockAdvance,
    Inline.renderClockResolve, Inline.renderDice.
  cbv zeta. generalize (split "|" content) as parts. intros parts.
  repeat match goal with
  | |- context [String.eqb type ?lit] =>
      destruct (String.eqb_spec type lit) as [->|?]
  end; try congruence.
  16: { exfalso. unfold kindTags in Hin. simpl in Hin.
        repeat (destruct Hin as [Hin|Hin]; [congruence |]). exact Hin. }
  all: f_equal.
  -
    rewrite !strOr_textAt, !intField_numberAt.
    generalize (Inline.moveMarkup (textAt parts 0) (textAt parts 1)) as f. intros f.
    by_numbers.
  - now rewrite !strOr_textAt.
  -
    now rewrite !strOr_textAt, !intField_numberAt.
  - now rewrite !intField_numberAt.
  -
    rewrite (strOr_textOrAt (strOr (parts !! 0%nat) "")). now rewrite !strOr_textAt.
  - now rewrite !strOr_textAt.
  -
    now rewrite !strOr_textAt, !intField_numberAt.
  - now rewrite !strOr_textAt.
  -
    now rewrite !strOr_textAt, !intField_numberAt.
  - now rewrite !strOr_textAt.
  - now rewrite !strOr_textAt.
  - now rewrite !strOr_textAt.
  -
    rewrite (strOr_textOrAt "0" parts 1), (strOr_textOrAt "0" parts 2).
    now rewrite !strOr_textAt.
  - now rewrite !strOr_textAt.
  - now rewrite !strOr_textAt.
Qed.

(** A code without any field has one field that is empty. *)
Lemma split_join_fields (fields : list string) :
  Forall (sepFree (Ascii.eqb "|")) fields ->
  split "|" (join "|" fields) = match fields with [] => [""] | _ => fields end.
Proof.
  intros H. destruct fields as [|x rest]; [reflexivity |].
  apply split_join; [discriminate | assumption].
Qed.

Lemma defaultedMarkup_no_field (type : string)
    (files : option (gmap string Inline.FileInfo)) :
  defaultedMarkup type [""] files = defaultedMarkup type [] files.
Proof.
  unfold defaultedMarkup. cbv zeta.
  repeat match goal with
  | |- context [String.eqb type ?lit] => destruct (String.eqb type lit)
  end; reflexivity.
Qed.

Lemma numberAt_not_Throws (d : Z) (fields : list string) (i : nat) :
  numberAt d fields i <> Throws.
Proof.
  unfold numberAt. destruct (fields !! i); [apply intField_not_Throws | discriminate].
Qed.

Lemma bind_numberAt_not_Throws {B : Type} (d : Z) (fields : list string) (i : nat)
    (f : Z -> Result B) :
  (forall n, f n <> Throws) -> bind (numberAt d fields i) f <> Throws.
Proof.
  intros Hf. pose proof (numberAt_not_Throws d fields i) as Hx.
  destruct (numberAt d fields i); simpl; [apply Hf | congruence | discriminate].
Qed.

Lemma defaultedMarkup_not_Throws (type : string) (fields : list string)
    (files : option (gmap string Inline.FileInfo)) :
  defaultedMarkup type fields files <> Throws.
Proof.
  unfold defaultedMarkup. cbv zeta.
  repeat match goal with
  | |- context [String.eqb type ?lit] => destruct (String.eqb type lit)
  end; try discriminate;
  repeat (apply bind_numberAt_not_Throws; intros ?); try discriminate.
  unfold Inline.rollOf. destruct (_ && _); discriminate.
Qed.

(** A small number of a field, read with a small default, is small and a
    safe integer. *)
Lemma numberAt_small (d : Z) (fields : list string) (i : nat) :
  Z.abs d <= 10 ^ 15 -> Forall smallNumber fields ->
  exists n, numberAt d fields i = Ok n /\ Z.abs n <= 10 ^ 15.
Proof.
  intros Hd Hsmall. unfold numberAt.
  destruct (fields !! i) as [x|] eqn:E; [| eauto].
  pose proof (Forall_lookup_1 _ _ _ _ Hsmall E) as Hx.
  unfold smallNumber in Hx. unfold Inline.intField.
  destruct (parseInt (Some x)) as [n|]; [| eauto].
  assert (Hs : isSafe n = true).
  { unfold isSafe, maxSafeInteger. apply Z.leb_le.
    change (10 ^ 15) with 1000000000000000 in Hx. lia. }
  rewrite Hs. unfold intOr. destruct (n =? 0); eauto.
Qed.

Ltac small_numbers Hsmall :=
  repeat match goal with
  | |- context [bind (numberAt ?d ?fields ?i) _] =>
      let n := fresh "n" in
      let E := fresh "E" in
      let Hn := fresh "Hn" in
      destruct (numberAt_small d fields i ltac:(vm_compute; discriminate) Hsmall)
        as (n & E & Hn);
      rewrite E; cbn [bind]
  end.

Lemma defaultedMarkup_small (type : string) (fields : list string)
    (files : option (gmap string Inline.FileInfo)) :
  In type kindTags -> type <> "iv-ooc" -> Forall smallNumber fields ->
  exists html, defaultedMarkup type fields files = Ok html.
Proof.
  intros Hin Hooc Hsmall. unfold defaultedMarkup. cbv zeta.
  repeat match goal with
  | |- context [String.eqb type ?lit] =>
      destruct (String.eqb_spec type lit) as [->|?]
  end; try congruence; small_numbers Hsmall; eauto.
  - unfold Inline.rollOf.
    assert (Hs : isSafe (n + n0) && isSafe (n + n0 + n1) = true).
    { unfold isSafe, maxSafeInteger.
      change (10 ^ 15) with 1000000000000000 in *.
      apply andb_true_iff; split; apply Z.leb_le; lia. }
    rewrite Hs. cbn [mapResult]. eauto.
  - exfalso. unfold kindTags in Hin. simpl in Hin.
    repeat (destruct Hin as [Hin|Hin]; [congruence |]). exact Hin.
Qed.

(** C3 (as the code has it).  An inline code of a known kind never throws,
    however few fields it has, and it renders with every missing text
    field empty and every missing number 0, but for the steps of
    [iv-track-advance], which are 1 when missing, the from and to of
    [iv-clock-advance], which are the text [0] when missing or empty, and
    the to of [iv-initiative], which is its from when missing or empty;
    when the numbers written in its fields are small (at most 10^15 in
    magnitude) it returns markup.  So [iv-track-advance] without its steps
    field shows [+1], and [iv-meter] with its name alone shows
    [0 → 0]. *)
Theorem missing_fields_default (type : string) (fields : list string)
    (files : option (gmap string Inline.FileInfo)) :
  In type kindTags -> type <> "iv-ooc" ->
  Forall (sepFree (Ascii.eqb "|")) fields ->
  Inline.parseInlineMechanic (type +:+ String ":" (join "|" fields)) files =
    Some (defaultedMarkup type fields files) /\
  defaultedMarkup type fields files <> Throws /\
  (Forall smallNumber fields ->
   exists html, defaultedMarkup type fields files = Ok html) /\
  (forall i : nat,
     (length fields <= i)%nat ->
     textAt fields i = "" /\ numberAt 0 fields i = Ok 0 /\
     numberAt 1 fields i = Ok 1 /\
     forall d, textOrAt d fields i = d) /\
  (forall code, Inline.parseInlineMechanic code files <> Some Throws) /\
  Inline.parseInlineMechanic "iv-track-advance:Vow|Vows/Vow.md|0|8|dangerous" None =
  Some (Ok (tpl "<span class=`iv-inline-mechanics track-advance`>" +:+
            tpl "<span class=`iv-inline-track-icon`>" +:+ ICONS.copyCheck +:+ "</span>" +:+
            tpl "<a href=`/vows/vow` class=`iv-inline-track-name iv-inline-link`>Vow</a>" +:+
            tpl "<span class=`iv-inline-track-progress`> +1 (2/10)</span>" +:+
            "</span>")) /\
  Inline.parseInlineMechanic "iv-meter:Health" None =
  Some (Ok (tpl "<span class=`iv-inline-mechanics `>" +:+
            tpl "<span class=`iv-inline-meter-icon`>" +:+ ICONS.trendingUp +:+ "</span>" +:+
            tpl "<span class=`iv-inline-meter-name`>Health:</span>" +:+
            tpl "<span class=`iv-inline-meter-change`>0 → 0</span>" +:+
            "</span>")).
Proof.
  intros Hin Hooc Hfree.
  split.
  { rewrite parse_tagged by now apply kindTags_no_colon.
    rewrite kindTags_prefix by assumption.
    rewrite dispatch_fields by assumption.
    rewrite split_join_fields by assumption.
    destruct fields; [now rewrite defaultedMarkup_no_field | reflexivity]. }
  split; [apply defaultedMarkup_not_Throws |].
  split; [now apply defaultedMarkup_small |].
  split.
  { intros i Hlen. apply lookup_ge_None_2 in Hlen.
    unfold textAt, numberAt, textOrAt. rewrite Hlen. repeat split. }
  split; [intros code; apply parseInlineMechanic_not_Throws |].
  split; vm_compute; reflexivity.
Qed.

Lemma missing_fields_default_witness :
  Inline.parseInlineMechanic ("iv-burn" +:+ String ":" (join "|" ["3"])) None =
  Some (Ok (Inline.burnMarkup 3 0)).
Proof.
  refine (eq_trans
    (proj1 (missing_fields_default "iv-burn" ["3"] None _ _ _)) _).
  - unfold kindTags. simpl. tauto.
  - discriminate.
  - repeat constructor. intros c [->|[]]. reflexivity.
  - vm_compute. reflexivity.
Defined.

(** C3 fails as it is worded: without its steps field, [iv-track-advance]
    shows [+1], not [+0]; and without its to field, [iv-initiative] shows
    its from value in the place of the to value, not the empty string. *)
Lemma missing_steps_counterexample :
  (exists html,
     Inline.parseInlineMechanic "iv-track-advance:Vow|Vows/Vow.md|0|8|dangerous" None
     = Some (Ok html) /\
     includes (tpl "<span class=`iv-inline-track-progress`> +1 (2/10)</span>") html = true /\
     includes (tpl "<span class=`iv-inline-track-progress`> +0 ") html = false) /\
  (exists html,
     Inline.parseInlineMechanic "iv-initiative:in control" None = Some (Ok html) /\
     includes (tpl "<span class=`iv-inline-initiative-change`>in control → in control</span>")
       html = true).
Proof.
  split; eexists; (split; [vm_compute; reflexivity |]); repeat split; vm_compute; reflexivity.
Qed.

(** ** C9: when the inline parser answers [null] *)

(** C9.  [parseInlineMechanic] answers [null] exactly when the code does
    not start with [iv-], or has no colon, or the text before its first
    colon is none of the sixteen kind tags; a code with one of the sixteen
    tags is never answered with [null], its renderer never throws, and it
    yields markup whenever the numbers written in its fields are at most
    10^15 in magnitude. *)
Theorem parseInlineMechanic_null_iff (code : string)
    (files : option (gmap string Inline.FileInfo)) :
  (Inline.parseInlineMechanic code files = None <->
     ~ (exists rest, code = "iv-" +:+ rest) \/
     ~ occurs ":" code \/
     (exists type content,
        code = type +:+ String ":" content /\ ~ occurs ":" type /\
        ~ In type kindTags)) /\
  (forall type content,
     In type kindTags ->
     exists html,
       Inline.parseInlineMechanic (type +:+ String ":" content) files = Some html /\
       html <> Throws) /\
  (forall type content,
     In type kindTags ->
     Forall smallNumber (split "|" content) ->
     exists markup : string,
       Inline.parseInlineMechanic (type +:+ String ":" content) files
       = Some (Ok markup)) /\
  length kindTags = 16%nat.
Proof.
  split; [| split; [| split; [| reflexivity]]].
  - split.
    + intros H. unfold Inline.parseInlineMechanic in H.
      destruct (startsWith "iv-" code) eqn:Hp; simpl in H.
      * destruct (indexOf ":" code) as [i|] eqn:Hi.
        -- right; right.
           destruct (indexOf_Some _ _ _ Hi) as [Heq Hno].
           exists (stake i code), (sdrop (i + 1) code). repeat split; trivial.
           rewrite substring_0 in H. unfold substringFrom in H.
           now apply dispatch_None_iff in H.
        -- right; left. now apply indexOf_None.
      * left. intros [rest ->]. now rewrite startsWith_append in Hp.
    + intros [H | [H | (type & content & -> & Hno & Hnot)]].
      * unfold Inline.parseInlineMechanic.
        destruct (startsWith "iv-" code) eqn:Hp; [| reflexivity].
        exfalso. apply H. now apply startsWith_inv.
      * unfold Inline.parseInlineMechanic.
        apply indexOf_None in H. rewrite H. now destruct (startsWith _ _).
      * rewrite parse_tagged by assumption.
        destruct (startsWith _ _); [| reflexivity].
        now apply dispatch_None_iff.
  - intros type content Hin. now apply parse_known_tag.
  - intros type content Hin Hsmall.
    rewrite parse_tagged by now apply kindTags_no_colon.
    rewrite kindTags_prefix by assumption.
    destruct (String.eqb_spec type "iv-ooc") as [->|Hooc]; [eexists; reflexivity |].
    rewrite dispatch_fields by assumption.
    destruct (defaultedMarkup_small type (split "|" content) files Hin Hooc Hsmall)
      as [markup ->].
    now exists markup.
Qed.

Lemma parseInlineMechanic_null_iff_witness :
  exists html,
    Inline.parseInlineMechanic ("iv-dice" +:+ String ":" "2d6|7") None = Some html /\
    html <> Throws.
Proof.
  apply (proj1 (proj2 (parseInlineMechanic_null_iff "" None)) "iv-dice" "2d6|7").
  unfold kindTags. simpl. tauto.
Defined.

(** ** C10: termination of the block parser *)

(** *** Lengths *)

Lemma length_dropWhile (p : ascii -> bool) (s : string) :
  (String.length (dropWhile p s) <= String.length s)%nat.
Proof.
  induction s as [|c r IH]; cbn [dropWhile String.length]; [lia |].
  destruct (p c); cbn [String.length]; lia.
Qed.

Lemma length_trimEnd (s : string) :
  (String.length (trimEnd s) <= String.length s)%nat.
Proof.
  induction s as [|c r IH]; cbn [trimEnd String.length]; [lia |].
  destruct (isSpace c && isEmpty (trimEnd r)); cbn [String.length]; lia.
Qed.

Lemma length_trim (s : string) :
  (String.length (trim s) <= String.length s)%nat.
Proof.
  unfold trim. pose proof (length_trimEnd (dropWhile isSpace s)).
  pose proof (length_dropWhile isSpace s). lia.
Qed.

Lemma length_sdrop (n : nat) (s : string) :
  String.length (sdrop n s) = (String.length s - n)%nat.
Proof.
  revert s; induction n as [|n IH]; intros s; cbn [sdrop].
  - lia.
  - destruct s as [|c r]; cbn [String.length]; [lia | apply IH].
Qed.

Lemma length_stake (n : nat) (s : string) :
  (String.length (stake n s) <= String.length s)%nat.
Proof.
  revert s; induction n as [|n IH]; intros s; cbn [stake String.length]; [lia |].
  destruct s as [|c r]; cbn [String.length]; [lia |]. specialize (IH r). lia.
Qed.

Lemma length_substring (s : string) (a b : nat) :
  (String.length (substring s a b) <= String.length s - Nat.min a b)%nat.
Proof.
  unfold substring. etransitivity; [apply length_stake |].
  now rewrite length_sdrop.
Qed.

Lemma stake_sdrop (n : nat) (s : string) : stake n s +:+ sdrop n s = s.
Proof.
  revert s; induction n as [|n IH]; intros s; cbn [stake sdrop]; [reflexivity |].
  destruct s as [|c r]; [reflexivity |]. cbn [String.append]. now rewrite IH.
Qed.

Lemma sdrop_sdrop (a b : nat) (s : string) :
  sdrop b (sdrop a s) = sdrop (a + b) s.
Proof.
  revert s; induction a as [|a IH]; intros s; cbn [sdrop Nat.add]; [reflexivity |].
  destruct s as [|c r]; [now destruct b | apply IH].
Qed.

Lemma length_join_cons (sep x : string) (rest : list string) :
  String.length (join sep (x :: rest)) =
  (String.length x +
   match rest with
   | [] => 0
   | _ => String.length sep + String.length (join sep rest)
   end)%nat.
Proof.
  destruct rest as [|y rest]; cbn [join]; [lia |].
  now rewrite !length_append.
Qed.

Lemma length_join_take (sep : string) (n : nat) (l : list string) :
  (String.length (join sep (take n l)) <= String.length (join sep l))%nat.
Proof.
  revert n; induction l as [|x rest IH]; intros n.
  - now rewrite take_nil.
  - destruct n as [|n]; [cbn; lia |].
    rewrite firstn_cons, !length_join_cons.
    specialize (IH n).
    destruct rest as [|y rest]; [now rewrite take_nil |].
    destruct (take n (y :: rest)) eqn:E; lia.
Qed.

Lemma length_join_drop (sep : string) (n : nat) (l : list string) :
  (String.length (join sep (drop n l)) <= String.length (join sep l))%nat.
Proof.
  revert l; induction n as [|n IH]; intros l; [now rewrite drop_0 |].
  destruct l as [|x rest]; [reflexivity |].
  rewrite skipn_cons. etransitivity; [apply IH |].
  rewrite length_join_cons. destruct rest; [cbn; lia | lia].
Qed.

(** *** [collectBlock] *)

Lemma collectLoop_spec (rest : list string) (braceCount : Z) (i : nat)
    (collected : list string) :
  let out := Blocks.collectLoop rest braceCount i collected in
  exists m : nat,
    (m <= length rest)%nat /\ out.2 = (i + m)%nat /\
    out.1 = collected ++ take m rest /\
    ((m < length rest)%nat -> braceCount + braceSum (take m rest) <= 0) /\
    (forall k : nat, (k < m)%nat -> braceCount + braceSum (take k rest) > 0).
Proof.
  cbv zeta. revert braceCount i collected.
  induction rest as [|next rest IH]; intros braceCount i collected;
    cbn [Blocks.collectLoop].
  - exists O. cbn. rewrite app_nil_r. repeat split; try lia.
  - destruct (Z.gtb_spec braceCount 0) as [Hpos|Hle].
    + destruct (IH (braceCount + Blocks.braceDelta next) (S i) (collected ++ [next]))
        as (m & Hm & Hj & Hout & Hstop & Hrun).
      exists (S m). cbn [length]. split; [lia |]. split; [lia |].
      split; [rewrite Hout, <- app_assoc; reflexivity |].
      split.
      * intros Hlt. rewrite firstn_cons. cbn [braceSum].
        specialize (Hstop ltac:(lia)). lia.
      * intros k Hk. destruct k as [|k]; [cbn; lia |].
        rewrite firstn_cons. cbn [braceSum].
        specialize (Hrun k ltac:(lia)). lia.
    + exists O. cbn. rewrite app_nil_r. repeat split; try lia.
Qed.

(** Inside the array [collectBlock] returns. *)
Lemma collectBlock_inside (lines : list string) (start : nat) :
  (start < length lines)%nat ->
  exists block, Blocks.collectBlock lines start = Ok block.
Proof.
  intros Hlt. unfold Blocks.collectBlock.
  destruct (lookup_lt_is_Some_2 lines start Hlt) as [x ->]. eauto.
Qed.

Lemma collectBlock_spec (lines : list string) (start : nat) (block : Blocks.Collected) :
  Blocks.collectBlock lines start = Ok block ->
  let n := (Blocks.endIndex block - start + 1)%nat in
  (start <= Blocks.endIndex block < length lines)%nat /\
  Blocks.content block = join (String Blocks.newline "") (take n (drop start lines)) /\
  ((Blocks.endIndex block < length lines - 1)%nat ->
   braceSum (take n (drop start lines)) <= 0) /\
  (forall k : nat, (1 <= k < n)%nat -> braceSum (take k (drop start lines)) > 0).
Proof.
  intros Hblock. cbv zeta.
  assert (Hlt : (start < length lines)%nat).
  { apply lookup_lt_is_Some. unfold Blocks.collectBlock in Hblock.
    destruct (lines !! start); [eauto | discriminate]. }
  assert (Hat : lines !! start = Some (Blocks.lineAt lines start)).
  { unfold Blocks.lineAt. destruct (lookup_lt_is_Some_2 lines start Hlt) as [x ->].
    reflexivity. }
  unfold Blocks.collectBlock in Hblock. rewrite Hat in Hblock.
  injection Hblock as <-. cbn [Blocks.content Blocks.endIndex].
  destruct (collectLoop_spec (drop (S start) lines)
              (Blocks.braceDelta (Blocks.lineAt lines start)) start
              [Blocks.lineAt lines start])
    as (m & Hm & Hj & Hout & Hstop & Hrun).
  cbv zeta in *. rewrite Hj, Hout. rewrite length_drop in Hm, Hstop.
  assert (Hdrop : drop start lines = Blocks.lineAt lines start :: drop (S start) lines).
  { unfold Blocks.lineAt. destruct (lookup_lt_is_Some_2 lines start Hlt) as [x Hx].
    rewrite Hx. cbn. now apply drop_S. }
  replace (start + m - start + 1)%nat with (S m) by lia.
  rewrite Hdrop, firstn_cons.
  split; [lia |]. split; [reflexivity |]. split.
  - intros H. cbn [braceSum]. apply Hstop. lia.
  - intros k Hk. destruct k as [|k]; [lia |].
    rewrite firstn_cons. cbn [braceSum]. apply Hrun. lia.
Qed.

Lemma length_collected (lines : list string) (start : nat) (block : Blocks.Collected) :
  Blocks.collectBlock lines start = Ok block ->
  (String.length (Blocks.content block)
   <= String.length (join (String Blocks.newline "") lines))%nat.
Proof.
  intros Hb. destruct (collectBlock_spec lines start block Hb) as (_ & -> & _).
  etransitivity; [apply length_join_take | apply length_join_drop].
Qed.

(** *** The argument of the recursive call *)

Lemma lastIndexOf_Some (c : ascii) (s : string) (j : nat) :
  lastIndexOf c s = Some j ->
  sdrop j s = String c (sdrop (j + 1) s) /\ ~ occurs c (sdrop (j + 1) s).
Proof.
  revert j; induction s as [|d r IH]; intros j; cbn [lastIndexOf]; [discriminate |].
  destruct (lastIndexOf c r) as [k|] eqn:E.
  - intros [= <-]. cbn [sdrop Nat.add]. now apply IH.
  - destruct (Ascii.eqb_spec c d) as [->|Hne]; [| discriminate].
    intros [= <-]. cbn [sdrop Nat.add]. split; [reflexivity |].
    clear IH. induction r as [|e r IHr]; [tauto |].
    cbn [lastIndexOf] in E. destruct (lastIndexOf d r); [discriminate |].
    destruct (Ascii.eqb_spec d e); [discriminate |].
    cbn [occurs]. intros [H|H]; [contradiction | now apply IHr].
Qed.

Lemma lastIndexOf_zero (c : ascii) (s : string) :
  lastIndexOf c s = Some O -> startsWith (String c "") s = true.
Proof.
  destruct s as [|d r]; cbn [lastIndexOf]; [discriminate |].
  destruct (lastIndexOf c r); [discriminate |].
  destruct (Ascii.eqb_spec c d) as [->|]; [| discriminate].
  intros _. cbn [startsWith]. now rewrite Ascii.eqb_refl.
Qed.

Lemma indexOf_lt (c : ascii) (s : string) (i : nat) :
  indexOf c s = Some i -> (i < String.length s)%nat.
Proof.
  revert i; induction s as [|d r IH]; intros i; cbn [indexOf]; [discriminate |].
  destruct (Ascii.eqb c d); [intros [= <-]; cbn; lia |].
  destruct (indexOf c r) as [k|]; [| discriminate].
  intros [= <-]. specialize (IH k eq_refl). cbn. lia.
Qed.

Lemma actorInner_shorter (block inner : string) :
  Blocks.actorInner block = Some inner ->
  startsWith "}" block = false ->
  (String.length inner < String.length block)%nat.
Proof.
  unfold Blocks.actorInner.
  destruct (indexOf "{" block) as [i|] eqn:Ei; [| discriminate].
  destruct (lastIndexOf "}" block) as [j|] eqn:Ej; [| discriminate].
  destruct (isEmpty _); [discriminate |]. intros [= <-] Hhead.
  pose proof (length_trim (substring block (i + 1) j)).
  pose proof (length_substring block (i + 1) j).
  pose proof (indexOf_lt _ _ _ Ei).
  assert (j <> O).
  { intros ->. apply lastIndexOf_zero in Ej. congruence. }
  lia.
Qed.

Lemma actorInner_between (block inner : string) (i j : nat) :
  Blocks.actorInner block = Some inner ->
  indexOf "{" block = Some i -> lastIndexOf "}" block = Some j ->
  (i < j)%nat -> betweenBraces block inner.
Proof.
  unfold Blocks.actorInner. intros H Ei Ej Hlt. rewrite Ei, Ej in H.
  destruct (isEmpty _); [discriminate |]. injection H as <-.
  destruct (indexOf_Some _ _ _ Ei) as [Hsplit Hpre].
  destruct (lastIndexOf_Some _ _ _ Ej) as [Hat Hpost].
  exists (stake i block), (substring block (i + 1) j), (sdrop (j + 1) block).
  repeat split; trivial.
  rewrite Hsplit at 1. do 2 f_equal.
  unfold substring.
  replace (Nat.min (i + 1) j) with (i + 1)%nat by lia.
  replace (Nat.max (i + 1) j) with j by lia.
  assert (Hj : sdrop (j - (i + 1)) (sdrop (i + 1) block)
               = String "}" (sdrop (j + 1) block)).
  { rewrite sdrop_sdrop. replace (i + 1 + (j - (i + 1)))%nat with j by lia. exact Hat. }
  rewrite <- Hj. symmetry. apply stake_sdrop.
Qed.

(** *** The first character of an actor block *)

Lemma trim_head (c : ascii) (r : string) :
  isSpace c = false -> startsWith (String c "") (trim (String c r)) = true.
Proof.
  intros Hc. unfold trim. cbn [dropWhile]. rewrite Hc. cbn [trimEnd].
  rewrite Hc. cbn [andb startsWith]. now rewrite Ascii.eqb_refl.
Qed.

Lemma classify_actor (line : string) :
  Blocks.classify line = Some Blocks.KActor -> startsWith "actor " line = true.
Proof.
  unfold Blocks.classify.
  repeat match goal with
  | |- context [if ?b then _ else _] => destruct b eqn:?; try discriminate
  end; trivial.
Qed.

Lemma startsWith_join (p sep x : string) (rest : list string) :
  x <> "" -> p <> "" ->
  startsWith (stake 1 p) (join sep (x :: rest)) = startsWith (stake 1 p) x.
Proof.
  intros Hx Hp. destruct x as [|c x]; [congruence |]. destruct p as [|d p]; [congruence |].
  destruct rest as [|y rest]; [reflexivity |].
  cbn [join stake String.append startsWith]. reflexivity.
Qed.

Lemma actor_block_head (lines : list string) (i : nat) (block : Blocks.Collected) :
  (i < length lines)%nat ->
  Blocks.classify (trim (Blocks.lineAt lines i)) = Some Blocks.KActor ->
  Blocks.collectBlock lines i = Ok block ->
  startsWith "}" (Blocks.content block) = false.
Proof.
  intros Hlt Hk Hb. apply classify_actor in Hk.
  destruct (collectBlock_spec lines i block Hb) as (Hend & -> & _).
  assert (Hdrop : drop i lines = Blocks.lineAt lines i :: drop (S i) lines).
  { unfold Blocks.lineAt. destruct (lookup_lt_is_Some_2 lines i Hlt) as [x Hx].
    rewrite Hx. cbn. now apply drop_S. }
  rewrite Hdrop.
  replace (Blocks.endIndex block - i + 1)%nat
    with (S (Blocks.endIndex block - i)) by lia.
  rewrite firstn_cons.
  destruct (Blocks.lineAt lines i) as [|c r] eqn:E; [discriminate Hk |].
  change "}" with (stake 1 "}").
  rewrite startsWith_join by discriminate.
  cbn [stake startsWith]. rewrite andb_true_r.
  destruct (Ascii.eqb_spec "}" c) as [<-|]; [| reflexivity].
  pose proof (trim_head "}" r eq_refl) as Hh.
  apply startsWith_inv in Hh as [t Ht]. rewrite Ht in Hk. discriminate Hk.
Qed.

(** *** The loop *)

Section Termination.

Variable leaf : Blocks.Kind -> string -> Blocks.Result string.

Lemma iteration_bounds (rec : string -> option (Blocks.Result string))
    (lines : list string) (i : nat) :
  (i < length lines)%nat ->
  (i <= (Blocks.iteration leaf rec lines i).2 < length lines)%nat.
Proof.
  intros Hlt. unfold Blocks.iteration.
  destruct (Blocks.classify _) as [k|]; [| cbn; lia].
  destruct (Blocks.spansLines k); [| cbn; lia].
  destruct (collectBlock_inside lines i Hlt) as [block Hb]. rewrite Hb.
  cbn [snd]. apply (collectBlock_spec lines i block Hb).
Qed.

Lemma parseActorBlock_Some (rec : string -> option (Blocks.Result string))
    (block : string) :
  (forall inner, Blocks.actorInner block = Some inner -> is_Some (rec inner)) ->
  is_Some (Blocks.parseActorBlock rec block).
Proof.
  intros H. unfold Blocks.parseActorBlock. cbv zeta.
  destruct (Blocks.actorInner block) as [inner|].
  - destruct (H inner eq_refl) as [r ->]. cbn. eauto.
  - cbn. eauto.
Qed.

Lemma iteration_Some (rec : string -> option (Blocks.Result string))
    (lines : list string) (i bound : nat) :
  (forall s, (String.length s < bound)%nat -> is_Some (rec s)) ->
  (String.length (join (String Blocks.newline "") lines) <= bound)%nat ->
  (i < length lines)%nat ->
  is_Some (Blocks.iteration leaf rec lines i).1.
Proof.
  intros Hrec Hlen Hlt. unfold Blocks.iteration.
  destruct (Blocks.classify _) as [k|] eqn:Hk; [| cbn; eauto].
  destruct (collectBlock_inside lines i Hlt) as [block Hb]. rewrite Hb.
  destruct k; cbn [Blocks.spansLines Blocks.render fst fmap option_fmap option_map];
    eauto.
  apply fmap_is_Some, parseActorBlock_Some. intros inner Hinner.
  apply Hrec.
  pose proof (actorInner_shorter _ _ Hinner (actor_block_head lines i block Hlt Hk Hb)).
  pose proof (length_collected lines i block Hb). lia.
Qed.

Lemma loop_Some (rec : string -> option (Blocks.Result string))
    (lines : list string) (bound : nat) :
  (forall s, (String.length s < bound)%nat -> is_Some (rec s)) ->
  (String.length (join (String Blocks.newline "") lines) <= bound)%nat ->
  forall (fuel i : nat) (results : list string),
    (length lines - i <= fuel)%nat ->
    is_Some (Blocks.loop leaf rec fuel lines i results).
Proof.
  intros Hrec Hlen. induction fuel as [|fuel IH]; intros i results Hfuel.
  - cbn [Blocks.loop]. destruct (Nat.ltb_spec i (length lines)); [lia | eauto].
  - cbn [Blocks.loop]. destruct (Nat.ltb_spec i (length lines)) as [Hlt|]; [| eauto].
    pose proof (iteration_bounds rec lines i Hlt) as Hb.
    pose proof (iteration_Some rec lines i bound Hrec Hlen Hlt) as [r Hr].
    destruct (Blocks.iteration leaf rec lines i) as [o j]. cbn [fst snd] in *.
    subst o. destruct r; eauto. apply IH. lia.
Qed.

Lemma parseWithin_Some (depth : nat) (content : string) :
  (String.length content < depth)%nat ->
  is_Some (Blocks.parseWithin leaf depth content).
Proof.
  revert content; induction depth as [|depth IH]; intros content Hlt; [lia |].
  cbn [Blocks.parseWithin]. apply fmap_is_Some.
  apply (loop_Some _ _ depth).
  - intros s Hs. now apply IH.
  - rewrite (join_split Blocks.newline). pose proof (length_trim content). lia.
  - lia.
Qed.

(** More fuel or depth does not change a result. *)
Lemma iteration_mono (rec rec' : string -> option (Blocks.Result string))
    (lines : list string) (i : nat) :
  (forall s r, rec s = Some r -> rec' s = Some r) ->
  (Blocks.iteration leaf rec' lines i).2 = (Blocks.iteration leaf rec lines i).2 /\
  forall r, (Blocks.iteration leaf rec lines i).1 = Some r ->
            (Blocks.iteration leaf rec' lines i).1 = Some r.
Proof.
  intros Hrec. unfold Blocks.iteration.
  destruct (Blocks.classify _) as [k|]; [| split; trivial].
  assert (Hrender : forall text r,
            Blocks.render leaf rec k text = Some r ->
            Blocks.render leaf rec' k text = Some r).
  { intros text r. destruct k; cbn [Blocks.render]; trivial.
    unfold Blocks.parseActorBlock. cbv zeta.
    destruct (Blocks.actorInner text) as [inner|]; trivial.
    destruct (rec inner) as [x|] eqn:E; [| discriminate].
    now rewrite (Hrec _ _ E). }
  destruct (Blocks.spansLines k); [destruct (Blocks.collectBlock lines i) |];
    cbn [fst snd]; (split; [reflexivity |]); trivial;
    intros r Hr; apply fmap_Some in Hr as (x & Hx & ->);
    now rewrite (Hrender _ _ Hx).
Qed.

Lemma loop_mono (rec rec' : string -> option (Blocks.Result string))
    (lines : list string) :
  (forall s r, rec s = Some r -> rec' s = Some r) ->
  forall (fuel fuel' i : nat) (results : list string) (r : Blocks.Result (list string)),
    (fuel <= fuel')%nat ->
    Blocks.loop leaf rec fuel lines i results = Some r ->
    Blocks.loop leaf rec' fuel' lines i results = Some r.
Proof.
  intros Hrec. induction fuel as [|fuel IH]; intros fuel' i results r Hle.
  - cbn [Blocks.loop]. destruct (Nat.ltb_spec i (length lines)); [discriminate |].
    intros <-. destruct fuel'; cbn [Blocks.loop];
      destruct (Nat.ltb_spec i (length lines)); trivial; lia.
  - destruct fuel' as [|fuel']; [lia |]. cbn [Blocks.loop].
    destruct (Nat.ltb_spec i (length lines)); trivial.
    destruct (iteration_mono rec rec' lines i Hrec) as [Hj Ho].
    destruct (Blocks.iteration leaf rec lines i) as [o j].
    destruct (Blocks.iteration leaf rec' lines i) as [o' j'].
    cbn [fst snd] in *. subst j'.
    destruct o as [x|]; [| discriminate]. rewrite (Ho x eq_refl).
    destruct x; trivial. apply IH. lia.
Qed.

Lemma parseWithin_mono (depth depth' : nat) (content : string)
    (r : Blocks.Result string) :
  (depth <= depth')%nat ->
  Blocks.parseWithin leaf depth content = Some r ->
  Blocks.parseWithin leaf depth' content = Some r.
Proof.
  revert depth' content r; induction depth as [|depth IH];
    intros depth' content r Hle; [discriminate |].
  destruct depth' as [|depth']; [lia |]. cbn [Blocks.parseWithin].
  intros H. apply fmap_Some in H as (x & Hx & ->).
  erewrite loop_mono; [reflexivity | | | exact Hx]; [| lia].
  intros s y. apply IH. lia.
Qed.

End Termination.

(** C10 (as the code has it).  [parseIronVaultBlock] terminates on every
    input, with markup or with a thrown error: a recursion depth of one
    more than the length of the text always suffices, and a larger depth
    gives the same result.  Every iteration of the loop moves the cursor
    forward; [collectBlock] returns an end index between its start index
    and the last line, having joined the lines from the start to the end
    index, and it runs to the last line when the brace count stays positive;
    the recursion of the actor block is on a text strictly shorter than the
    collected block, and this text is the trimmed text strictly between the
    first opening and the last closing brace whenever the first opening
    brace comes before the last closing one. *)
Theorem parseIronVaultBlock_terminates
    (leaf : Blocks.Kind -> string -> Blocks.Result string) (text : string) :
  (exists r, Blocks.parseIronVaultBlock leaf text = Some r) /\
  (forall depth : nat,
     (String.length text < depth)%nat ->
     Blocks.parseWithin leaf depth text = Blocks.parseIronVaultBlock leaf text) /\
  (forall rec lines i,
     (i < length lines)%nat ->
     let j := (Blocks.iteration leaf rec lines i).2 in
     (i <= j < length lines)%nat /\ (i < j + 1)%nat) /\
  (forall lines start,
     (start < length lines)%nat ->
     exists block : Blocks.Collected,
     Blocks.collectBlock lines start = Ok block /\
     let n := (Blocks.endIndex block - start + 1)%nat in
     (start <= Blocks.endIndex block < length lines)%nat /\
     Blocks.content block
       = join (String Blocks.newline "") (take n (drop start lines)) /\
     ((forall k : nat,
         (1 <= k < length lines - start)%nat ->
         braceSum (take k (drop start lines)) > 0) ->
      Blocks.endIndex block = (length lines - 1)%nat)) /\
  (forall lines i collected inner,
     (i < length lines)%nat ->
     Blocks.classify (trim (Blocks.lineAt lines i)) = Some Blocks.KActor ->
     Blocks.collectBlock lines i = Ok collected ->
     let block := Blocks.content collected in
     Blocks.actorInner block = Some inner ->
     (String.length inner < String.length block)%nat /\
     (forall a b : nat,
        indexOf "{" block = Some a -> lastIndexOf "}" block = Some b ->
        (a < b)%nat -> betweenBraces block inner)).
Proof.
  split; [apply parseWithin_Some; lia |].
  split.
  { intros depth Hd.
    destruct (parseWithin_Some leaf (S (String.length text)) text ltac:(lia)) as [r Hr].
    unfold Blocks.parseIronVaultBlock. rewrite Hr.
    eapply parseWithin_mono; [| exact Hr]. lia. }
  split.
  { intros rec lines i Hlt. cbv zeta.
    pose proof (iteration_bounds leaf rec lines i Hlt). lia. }
  split.
  { intros lines start Hlt. cbv zeta.
    destruct (collectBlock_inside lines start Hlt) as [block Hblock].
    exists block. split; [exact Hblock |].
    destruct (collectBlock_spec lines start block Hblock) as (Hb & Hc & Hstop & _).
    split; [exact Hb |]. split; [exact Hc |].
    intros Hpos.
    destruct (Nat.lt_ge_cases (Blocks.endIndex block) (length lines - 1))
      as [Hearly|]; [| lia].
    specialize (Hstop Hearly).
    specialize (Hpos (Blocks.endIndex block - start + 1)%nat ltac:(lia)).
    lia. }
  intros lines i collected inner Hlt Hk Hcollected. cbv zeta. intros Hinner.
  split.
  - apply actorInner_shorter; [assumption |]. now apply (actor_block_head lines i).
  - intros a b Ha Hb Hab. eapply actorInner_between; eassumption.
Qed.

Lemma parseIronVaultBlock_terminates_witness :
  (String.length "- second"
   < String.length
       (join (String Blocks.newline "") ["actor name=`Kei` {"; "  - second"; "}"]))%nat.
Proof.
  apply (proj2 (proj2 (proj2 (proj2
           (parseIronVaultBlock_terminates (fun _ _ => Blocks.Throws) ""))))
         ["- first"; "actor name=`Kei` {"; "  - second"; "}"; "- third"] 1%nat
         {| Blocks.content :=
              join (String Blocks.newline "") ["actor name=`Kei` {"; "  - second"; "}"];
            Blocks.endIndex := 3 |}
         "- second").
  - vm_compute. lia.
  - vm_compute. reflexivity.
  - vm_compute. reflexivity.
  - vm_compute. reflexivity.
Defined.

(** C10 fails as it is worded: on the one-line block [actor }ab{] the last
    closing brace comes before the first opening one, [substring] swaps
    its arguments, and the recursion is on [}ab{], which does not lie
    between the two braces. *)
Lemma actor_recursion_counterexample :
  ~ (forall lines i collected inner,
       (i < length lines)%nat ->
       Blocks.classify (trim (Blocks.lineAt lines i)) = Some Blocks.KActor ->
       Blocks.collectBlock lines i = Ok collected ->
       Blocks.actorInner (Blocks.content collected) = Some inner ->
       betweenBraces (Blocks.content collected) inner).
Proof.
  intros H.
  specialize (H (split Blocks.newline (trim "actor }ab{")) O
                {| Blocks.content := "actor }ab{"; Blocks.endIndex := 0 |} "}ab{").
  destruct H as (pre & mid & post & Heq & Hpre & _).
  - vm_compute. lia.
  - vm_compute. reflexivity.
  - vm_compute. reflexivity.
  - vm_compute. reflexivity.
  - change (Blocks.content _) with "actor }ab{" in Heq.
    pose proof (f_equal (indexOf "{") Heq) as Hi.
    rewrite (indexOf_first _ _ _ Hpre) in Hi.
    pose proof (f_equal String.length Heq) as Hl.
    rewrite length_append in Hl. cbn [String.length] in Hl.
    rewrite length_append in Hl. cbn [String.length] in Hl.
    change (indexOf "{" "actor }ab{") with (Some 9%nat) in Hi.
    change (String.length "actor }ab{") with 10%nat in Hl.
    injection Hi as Hi. lia.
Qed.

(** ** Further properties of the outcome engine *)

Lemma tier_count (score vs1 vs2 : Z) :
  tier (Inline.getOutcome score vs1 vs2)
  = (if score >? vs1 then 1 else 0) + (if score >? vs2 then 1 else 0).
Proof.
  unfold Inline.getOutcome.
  destruct (score >? vs1), (score >? vs2); reflexivity.
Qed.

Lemma getOutcome_match (score v : Z) : Inline.getOutcome score v v <> WeakHit.
Proof. unfold Inline.getOutcome. destruct (score >? v); discriminate. Qed.

(** X1.  The outcome does not depend on the order of the two challenge
    dice, and a roll whose challenge dice match is never a weak hit: it is
    a strong hit when the score beats the common value and a miss
    otherwise (in both parsers). *)
Theorem outcome_symmetric_match (score vs1 vs2 : Z) :
  Inline.getOutcome score vs1 vs2 = Inline.getOutcome score vs2 vs1 /\
  Blocks.getOutcome score vs1 vs2 = Blocks.getOutcome score vs2 vs1 /\
  (Inline.isMatch vs1 vs2 = true ->
   Inline.getOutcome score vs1 vs2 <> WeakHit /\
   Blocks.getOutcome score vs1 vs2 <> WeakHit /\
   (Inline.getOutcome score vs1 vs2 = StrongHit <-> score > vs1)).
Proof.
  unfold Inline.getOutcome, Blocks.getOutcome, Inline.isMatch.
  rewrite !Z.gtb_ltb.
  split; [destruct (vs1 <? score), (vs2 <? score); reflexivity |].
  split; [destruct (vs1 <? score), (vs2 <? score); reflexivity |].
  intros H. apply Z.eqb_eq in H. subst vs2.
  destruct (Z.ltb_spec vs1 score); simpl; repeat split; try discriminate;
    intros; try lia; try reflexivity.
Qed.

Lemma outcome_symmetric_match_witness :
  Inline.getOutcome 7 4 4 <> WeakHit /\
  Blocks.getOutcome 7 4 4 <> WeakHit /\
  (Inline.getOutcome 7 4 4 = StrongHit <-> 7 > 4).
Proof.
  apply (proj2 (proj2 (outcome_symmetric_match 7 4 4))). reflexivity.
Defined.

(** X2.  The tier of an outcome is the number of challenge dice the score
    beats; so a higher score or a lower challenge die never gives a worse
    outcome. *)
Theorem outcome_monotone (score score' vs1 vs1' vs2 vs2' : Z) :
  score <= score' -> vs1' <= vs1 -> vs2' <= vs2 ->
  tier (Inline.getOutcome score vs1 vs2)
  = (if score >? vs1 then 1 else 0) + (if score >? vs2 then 1 else 0) /\
  tier (Inline.getOutcome score vs1 vs2) <= tier (Inline.getOutcome score' vs1' vs2') /\
  tier (Blocks.getOutcome score vs1 vs2) <= tier (Blocks.getOutcome score' vs1' vs2').
Proof.
  intros Hs H1 H2.
  change (Blocks.getOutcome score vs1 vs2) with (Inline.getOutcome score vs1 vs2).
  change (Blocks.getOutcome score' vs1' vs2') with (Inline.getOutcome score' vs1' vs2').
  rewrite !tier_count. rewrite !Z.gtb_ltb.
  destruct (Z.ltb_spec vs1 score), (Z.ltb_spec vs2 score),
    (Z.ltb_spec vs1' score'), (Z.ltb_spec vs2' score'); lia.
Qed.

Lemma outcome_monotone_witness :
  tier (Inline.getOutcome 5 6 3) <= tier (Inline.getOutcome 7 6 2).
Proof.
  apply (proj1 (proj2 (outcome_monotone 5 7 6 6 3 2
                         ltac:(lia) ltac:(lia) ltac:(lia)))).
Defined.

(** ** Further properties of the inline parser *)

Lemma intField_small (x : option string) (d : Z) (parts : list string) (i : nat) :
  x = parts !! i -> Z.abs d <= 10 ^ 15 -> Forall smallNumber parts ->
  exists n, Inline.intField x d = Ok n /\ Z.abs n <= 10 ^ 15.
Proof.
  intros -> Hd Hsmall. rewrite intField_numberAt. now apply numberAt_small.
Qed.

Lemma moveRoll_Ok (parts : list string) (r : Inline.MoveRoll) :
  Inline.moveRoll parts = Ok r ->
  Inline.intField (parts !! 2%nat) 0 = Ok (Inline.action r) /\
  Inline.intField (parts !! 3%nat) 0 = Ok (Inline.statValue r) /\
  Inline.intField (parts !! 4%nat) 0 = Ok (Inline.adds r) /\
  Inline.intField (parts !! 5%nat) 0 = Ok (Inline.vs1 r) /\
  Inline.intField (parts !! 6%nat) 0 = Ok (Inline.vs2 r) /\
  Inline.rollOf (Inline.action r) (Inline.statValue r) (Inline.adds r)
    (Inline.vs1 r) (Inline.vs2 r) = Ok r.
Proof.
  unfold Inline.moveRoll.
  destruct (Inline.intField (parts !! 2%nat) 0) as [a| |]; try discriminate.
  destruct (Inline.intField (parts !! 3%nat) 0) as [s| |]; try discriminate.
  destruct (Inline.intField (parts !! 4%nat) 0) as [d| |]; try discriminate.
  destruct (Inline.intField (parts !! 5%nat) 0) as [v1| |]; try discriminate.
  destruct (Inline.intField (parts !! 6%nat) 0) as [v2| |]; try discriminate.
  cbn [bind]. intros H. pose proof H as H'. unfold Inline.rollOf in H'.
  destruct (_ && _); [| discriminate]. injection H' as <-.
  cbn [Inline.action Inline.statValue Inline.adds Inline.vs1 Inline.vs2].
  repeat split; trivial.
Qed.

(** X3.  An [iv-move] code whose numbers are small (at most 10^15 in
    magnitude) is rendered, and whenever [renderMove] renders a code within
    the safe integers, the five numbers are what [parseInt] reads in the
    fields 3 to 7 (0 for none), the score is the sum of action die, stat
    and adds capped at 10 (the sum itself up to 10, and 10 from there on),
    the markup is built from these values, the [match] class is present
    exactly when the two challenge dice are equal, and a matched move is
    never a weak hit. *)
Theorem move_roll_invariants (content : string) :
  let parts := split "|" content in
  (Forall smallNumber parts -> exists r, Inline.moveRoll parts = Ok r) /\
  forall r : Inline.MoveRoll,
    Inline.moveRoll parts = Ok r ->
    let sum := Inline.action r + Inline.statValue r + Inline.adds r in
    Inline.intField (parts !! 2%nat) 0 = Ok (Inline.action r) /\
    Inline.intField (parts !! 3%nat) 0 = Ok (Inline.statValue r) /\
    Inline.intField (parts !! 4%nat) 0 = Ok (Inline.adds r) /\
    Inline.intField (parts !! 5%nat) 0 = Ok (Inline.vs1 r) /\
    Inline.intField (parts !! 6%nat) 0 = Ok (Inline.vs2 r) /\
    Inline.renderMove content =
      Ok (Inline.moveMarkup (strOr (parts !! 0%nat) "") (strOr (parts !! 1%nat) "") r) /\
    Inline.score r = Z.min 10 sum /\
    (sum <= 10 -> Inline.score r = sum) /\
    (10 <= sum -> Inline.score r = 10) /\
    Inline.outcome r = Inline.getOutcome (Inline.score r) (Inline.vs1 r) (Inline.vs2 r) /\
    (In "match" (Inline.classes r) <-> Inline.vs1 r = Inline.vs2 r) /\
    (Inline.vs1 r = Inline.vs2 r -> Inline.outcome r <> WeakHit).
Proof.
  cbv zeta. split.
  - intros Hsmall. unfold Inline.moveRoll.
    destruct (intField_small _ 0 _ 2 eq_refl ltac:(vm_compute; discriminate) Hsmall)
      as (a & -> & Ha).
    destruct (intField_small _ 0 _ 3 eq_refl ltac:(vm_compute; discriminate) Hsmall)
      as (s & -> & Hs).
    destruct (intField_small _ 0 _ 4 eq_refl ltac:(vm_compute; discriminate) Hsmall)
      as (d & -> & Hd).
    destruct (intField_small _ 0 _ 5 eq_refl ltac:(vm_compute; discriminate) Hsmall)
      as (v1 & -> & Hv1).
    destruct (intField_small _ 0 _ 6 eq_refl ltac:(vm_compute; discriminate) Hsmall)
      as (v2 & -> & Hv2).
    cbn [bind]. unfold Inline.rollOf.
    assert (Hsafe : isSafe (a + s) && isSafe (a + s + d) = true).
    { unfold isSafe, maxSafeInteger.
      change (10 ^ 15) with 1000000000000000 in *.
      apply andb_true_iff; split; apply Z.leb_le; lia. }
    rewrite Hsafe. eauto.
  - intros r Hr.
    destruct (moveRoll_Ok _ _ Hr) as (Ha & Hs & Hd & Hv1 & Hv2 & Hroll).
    do 5 (split; [assumption |]).
    split; [unfold Inline.renderMove; cbv zeta; now rewrite Hr |].
    unfold Inline.rollOf in Hroll.
    destruct (_ && _); [| discriminate].
    set (a := Inline.action r) in *. set (s := Inline.statValue r) in *.
    set (d := Inline.adds r) in *. set (v1 := Inline.vs1 r) in *.
    set (v2 := Inline.vs2 r) in *.
    injection Hroll as Hroll.
    assert (Hscore : Inline.score r = Z.min 10 (a + s + d)) by now rewrite <- Hroll.
    assert (Hout : Inline.outcome r = Inline.getOutcome (Z.min 10 (a + s + d)) v1 v2)
      by now rewrite <- Hroll.
    assert (Hcls : Inline.classes r =
                   if Inline.isMatch v1 v2
                   then ["iv-inline-mechanics";
                         outcomeName (Inline.getOutcome (Z.min 10 (a + s + d)) v1 v2)]
                        ++ ["match"]
                   else ["iv-inline-mechanics";
                         outcomeName (Inline.getOutcome (Z.min 10 (a + s + d)) v1 v2)])
      by now rewrite <- Hroll.
    rewrite Hscore, Hout, Hcls.
    split; [reflexivity |]. split; [lia |]. split; [lia |]. split; [reflexivity |].
    split.
    + unfold Inline.isMatch. destruct (Z.eqb_spec v1 v2) as [->|Hne].
      * split; [reflexivity |]. intros _. cbn. tauto.
      * split; [| contradiction]. cbn.
        intros [H|[H|[]]]; [discriminate H |].
        destruct (Inline.getOutcome _ _ _); discriminate H.
    + intros H. rewrite H. apply getOutcome_match.
Qed.

Lemma move_roll_invariants_witness :
  exists r, Inline.moveRoll (split "|" "Strike|iron|6|3|2|9|9") = Ok r /\
            Inline.score r = 10 /\ Inline.outcome r <> WeakHit.
Proof.
  destruct (proj1 (move_roll_invariants "Strike|iron|6|3|2|9|9")) as [r Hr].
  - replace (split "|" "Strike|iron|6|3|2|9|9")
      with ["Strike"; "iron"; "6"; "3"; "2"; "9"; "9"] by (vm_compute; reflexivity).
    repeat (apply List.Forall_cons;
            [vm_compute; try exact I; intros H; discriminate H |]).
    apply List.Forall_nil.
  - exists r. split; [exact Hr |].
    destruct (proj2 (move_roll_invariants "Strike|iron|6|3|2|9|9") r Hr)
      as (_ & _ & _ & _ & _ & _ & _ & _ & H10 & _ & _ & Hweak).
    vm_compute in Hr. injection Hr as <-.
    split; [apply H10; vm_compute; discriminate | apply Hweak; reflexivity].
Defined.

(** *** [escapeHtml] *)

Lemma replaceChar_append (c : ascii) (rep a b : string) :
  replaceChar c rep (a +:+ b) = replaceChar c rep a +:+ replaceChar c rep b.
Proof.
  induction a as [|d a IH]; cbn [String.append replaceChar]; [reflexivity |].
  destruct (Ascii.eqb c d); rewrite IH; [now rewrite append_assoc | reflexivity].
Qed.

Lemma escapeEach_append (a b : string) :
  escapeEach (a +:+ b) = escapeEach a +:+ escapeEach b.
Proof.
  induction a as [|d a IH]; cbn [String.append escapeEach]; [reflexivity |].
  now rewrite IH, append_assoc.
Qed.

Lemma escape_passes (s : string) :
  replaceChar dq "&quot;"
    (replaceChar ">" "&gt;" (replaceChar "<" "&lt;" (replaceChar "&" "&amp;" s)))
  = escapeEach s.
Proof.
  induction s as [|c r IH]; [reflexivity |].
  change (String c r) with (String c "" +:+ r).
  rewrite !replaceChar_append, IH. cbn [String.append escapeEach]. f_equal.
  unfold entity.
  destruct (Ascii.eqb_spec c "&") as [->|H1]; [reflexivity |].
  destruct (Ascii.eqb_spec c "<") as [->|H2]; [reflexivity |].
  destruct (Ascii.eqb_spec c ">") as [->|H3]; [reflexivity |].
  destruct (Ascii.eqb_spec c dq) as [->|H4]; [reflexivity |].
  cbn [replaceChar].
  repeat match goal with
  | |- context [Ascii.eqb ?a c] =>
      destruct (Ascii.eqb_spec a c); [congruence |]; cbn [replaceChar]
  end.
  reflexivity.
Qed.

Lemma occurs_entity (c d : ascii) :
  occurs d (entity c) -> d <> "<"%char /\ d <> ">"%char /\ d <> dq.
Proof.
  unfold entity.
  destruct (Ascii.eqb_spec c "&");
    [| destruct (Ascii.eqb_spec c "<");
       [| destruct (Ascii.eqb_spec c ">"); [| destruct (Ascii.eqb_spec c dq)]]].
  1-4: cbn [occurs]; intros H; repeat split; intros ->;
       repeat (destruct H as [H|H]; [discriminate H |]); exact H.
  cbn [occurs]. intros [->|[]]. repeat split; congruence.
Qed.

Lemma occurs_escapeEach (s : string) (d : ascii) :
  occurs d (escapeEach s) -> d <> "<"%char /\ d <> ">"%char /\ d <> dq.
Proof.
  induction s as [|c r IH]; cbn [escapeEach occurs]; [tauto |].
  rewrite occurs_append. intros [H|H]; [now apply occurs_entity in H | now apply IH].
Qed.

Lemma escapeEach_clean (s : string) :
  (forall c, occurs c s -> htmlSpecial c = false) -> escapeEach s = s.
Proof.
  induction s as [|c r IH]; intros H; [reflexivity |].
  cbn [escapeEach]. rewrite IH by (intros d Hd; apply H; now right).
  specialize (H c (or_introl eq_refl)). unfold htmlSpecial in H.
  apply orb_false_iff in H as [H H4]. apply orb_false_iff in H as [H H3].
  apply orb_false_iff in H as [H1 H2].
  unfold entity. now rewrite H1, H2, H3, H4.
Qed.

(** X4.  The four replacements of [escapeHtml], done one after the other,
    act as one substitution that rewrites each character of the text once
    (no entity is escaped a second time); the block parser does the same
    after unescaping the separators.  So the result holds no [<], no [>]
    and no double quote. *)
Theorem escapeHtml_single_pass (text : string) :
  Inline.escapeHtml text = escapeEach text /\
  Blocks.escapeHtml text = escapeEach (unescapeSlash text) /\
  (forall c : ascii,
     occurs c (Inline.escapeHtml text) \/ occurs c (Blocks.escapeHtml text) ->
     c <> "<"%char /\ c <> ">"%char /\ c <> dq).
Proof.
  unfold Inline.escapeHtml, Blocks.escapeHtml. rewrite !escape_passes.
  split; [reflexivity |]. split; [reflexivity |].
  intros c [H|H]; now apply occurs_escapeEach in H.
Qed.

(** X5.  The inline [escapeHtml] distributes over concatenation and leaves
    a text without [&], [<], [>] and double quote as it is; the block
    [escapeHtml] leaves such a text as it is when it has no escaped
    separator. *)
Theorem escapeHtml_concat_clean (a b : string) :
  Inline.escapeHtml (a +:+ b) = Inline.escapeHtml a +:+ Inline.escapeHtml b /\
  ((forall c, occurs c a -> htmlSpecial c = false) ->
   Inline.escapeHtml a = a /\
   (includes "\/" a = false -> Blocks.escapeHtml a = a)).
Proof.
  unfold Inline.escapeHtml, Blocks.escapeHtml. rewrite !escape_passes.
  split; [apply escapeEach_append |].
  intros H. split; [now apply escapeEach_clean |].
  intros Hesc. rewrite unescapeSlash_id by assumption. now apply escapeEach_clean.
Qed.

Lemma escapeHtml_concat_clean_witness :
  Inline.escapeHtml "Face Danger" = "Face Danger" /\
  (includes "\/" "Face Danger" = false -> Blocks.escapeHtml "Face Danger" = "Face Danger").
Proof.
  apply (proj2 (escapeHtml_concat_clean "Face Danger" "")).
  intros c H. cbn [occurs] in H.
  repeat (destruct H as [->|H]; [reflexivity |]). destruct H.
Defined.

(** *** Integers written and read back *)

Lemma digitsValue_acc (d : Decimal.uint) (acc : positive) :
  digitsValue 10 digitVal (Zpos acc) (NilEmpty.string_of_uint d)
  = Zpos (Pos.of_uint_acc d acc).
Proof.
  revert acc; induction d; intros acc;
    cbn [NilEmpty.string_of_uint digitsValue Pos.of_uint_acc]; [reflexivity | ..];
    match goal with
    | |- digitsValue _ _ ?x _ = Zpos (Pos.of_uint_acc _ ?y) =>
        replace x with (Zpos y); [apply IHd |]
    end; rewrite ?Pos2Z.inj_add, ?Pos2Z.inj_mul;
    match goal with |- context [digitVal ?c] =>
      let v := eval vm_compute in (digitVal c) in change (digitVal c) with v
    end; lia.
Qed.

Lemma digitsValue_uint (d : Decimal.uint) :
  digitsValue 10 digitVal 0 (NilEmpty.string_of_uint d) = Z.of_N (Pos.of_uint d).
Proof.
  induction d; cbn [NilEmpty.string_of_uint digitsValue Pos.of_uint]; [reflexivity | ..];
    match goal with
    | |- digitsValue _ _ ?x _ = _ =>
        let v := eval vm_compute in x in change x with v
    end;
    first [exact IHd | cbn [Z.of_N]; apply digitsValue_acc].
Qed.

Lemma uint_digits (d : Decimal.uint) (c : ascii) :
  occurs c (NilEmpty.string_of_uint d) -> isDigit c = true.
Proof.
  induction d; cbn [NilEmpty.string_of_uint occurs]; [tauto | ..];
    (intros [->|H]; [reflexivity | now apply IHd]).
Qed.

Lemma takeWhile_all (p : ascii -> bool) (s : string) :
  (forall c, occurs c s -> p c = true) -> takeWhile p s = s.
Proof.
  induction s as [|c r IH]; intros H; [reflexivity |].
  cbn [takeWhile]. rewrite (H c) by (now left).
  rewrite IH; [reflexivity |]. intros d Hd. apply H. now right.
Qed.

Lemma parseUnsigned_digits (s : string) :
  s <> "" -> (forall c, occurs c s -> isDigit c = true) ->
  parseUnsigned s = Some (digitsValue 10 digitVal 0 s).
Proof.
  intros Hne Hd. unfold parseUnsigned.
  assert (Hx : startsWith "0x" s || startsWith "0X" s = false).
  { destruct s as [|a [|b r]]; [congruence | | ].
    - cbn [startsWith]. now rewrite !andb_false_r.
    - assert (Hb : isDigit b = true) by (apply Hd; right; now left).
      cbn [startsWith]. rewrite !andb_true_r.
      destruct (Ascii.eqb_spec "x" b) as [<-|]; [discriminate Hb |].
      destruct (Ascii.eqb_spec "X" b) as [<-|]; [discriminate Hb |].
      now rewrite !andb_false_r. }
  rewrite Hx. unfold readDigits. rewrite takeWhile_all by assumption.
  destruct s; [congruence | reflexivity].
Qed.

Lemma parseInt_digits (s : string) :
  s <> "" -> (forall c, occurs c s -> isDigit c = true) ->
  parseInt (Some s) = Some (digitsValue 10 digitVal 0 s) /\
  parseInt (Some (String "-" s)) = Some (- digitsValue 10 digitVal 0 s).
Proof.
  intros Hne Hd. pose proof (parseUnsigned_digits s Hne Hd) as Hu.
  split.
  - destruct s as [|c r]; [congruence |].
    assert (Hc : isDigit c = true) by (apply Hd; now left).
    unfold parseInt. cbn [dropWhile].
    assert (Hs : isSpace c = false).
    { destruct c as [[] [] [] [] [] [] [] []]; try discriminate Hc; reflexivity. }
    rewrite Hs. rewrite <- Hu.
    destruct c as [[] [] [] [] [] [] [] []]; try discriminate Hc; reflexivity.
  - unfold parseInt. cbn [dropWhile].
    change (isSpace "-") with false. cbv iota. now rewrite Hu.
Qed.

Lemma to_uint_digits (d : Decimal.uint) :
  NilZero.string_of_uint d <> "" /\
  (forall c, occurs c (NilZero.string_of_uint d) -> isDigit c = true) /\
  digitsValue 10 digitVal 0 (NilZero.string_of_uint d) = Z.of_N (Pos.of_uint d).
Proof.
  destruct d; cbn [NilZero.string_of_uint];
    (split; [cbn; discriminate |]);
    (split; [| first [reflexivity | apply digitsValue_uint]]).
  1: intros c [->|[]]; reflexivity.
  all: apply uint_digits.
Qed.

Lemma parseInt_showInt (n : Z) : parseInt (Some (showInt n)) = Some n.
Proof.
  unfold showInt. destruct n as [|p|p]; [reflexivity | |];
    cbn [Z.to_int NilZero.string_of_int];
    destruct (to_uint_digits (Pos.to_uint p)) as (Hne & Hd & Hv);
    destruct (parseInt_digits _ Hne Hd) as [Hpos Hneg].
  - rewrite Hpos, Hv, DecimalPos.Unsigned.of_to. reflexivity.
  - rewrite Hneg, Hv, DecimalPos.Unsigned.of_to. reflexivity.
Qed.

Lemma showInt_chars (n : Z) (c : ascii) :
  occurs c (showInt n) -> isDigit c = true \/ c = "-"%char.
Proof.
  unfold showInt. destruct n as [|p|p]; cbn [Z.to_int NilZero.string_of_int].
  - intros [->|[]]. now left.
  - intros H. left. now apply (to_uint_digits (Pos.to_uint p)).
  - cbn [occurs]. intros [->|H]; [now right | left].
    now apply (to_uint_digits (Pos.to_uint p)).
Qed.

Lemma showInt_sepFree (n : Z) : sepFree (Ascii.eqb "|") (showInt n).
Proof.
  intros c H. apply showInt_chars in H as [H| ->]; [| reflexivity].
  destruct (Ascii.eqb_spec "|" c) as [<-|]; [discriminate H | reflexivity].
Qed.

Lemma intOr_showInt (n : Z) : intOr (parseInt (Some (showInt n))) 0 = n.
Proof.
  rewrite parseInt_showInt. unfold intOr.
  destruct (Z.eqb_spec n 0); congruence.
Qed.

Lemma strOr_Some_empty (s : string) : strOr (Some s) "" = s.
Proof. unfold strOr. now destruct s. Qed.

Lemma intField_showInt (n d : Z) :
  isSafe n = true ->
  Inline.intField (Some (showInt n)) d = Ok (if n =? 0 then d else n).
Proof.
  intros Hn. unfold Inline.intField. rewrite parseInt_showInt, Hn. reflexivity.
Qed.

(** X6.  An [iv-meter] code written with a name that has no pipe and with
    two safe integers in decimal shows exactly these two integers; its
    class is [meter-increase] when the second is larger, [meter-decrease]
    when it is smaller and empty when they are equal, and the falling icon
    is used only for a decrease. *)
Theorem meter_shows_its_integers (name : string) (a b : Z) :
  sepFree (Ascii.eqb "|") name ->
  isSafe a = true -> isSafe b = true ->
  Inline.renderMeter (join "|" [name; showInt a; showInt b]) =
  Ok (tpl "<span class=`iv-inline-mechanics " +:+
        (if b >? a then "meter-increase" else if b <? a then "meter-decrease" else "") +:+
        tpl "`>" +:+
      tpl "<span class=`iv-inline-meter-icon`>" +:+
        (if b >=? a then ICONS.trendingUp else ICONS.trendingDown) +:+ "</span>" +:+
      tpl "<span class=`iv-inline-meter-name`>" +:+ Inline.escapeHtml name +:+ ":</span>" +:+
      tpl "<span class=`iv-inline-meter-change`>" +:+ showInt a +:+ " → " +:+ showInt b +:+ "</span>" +:+
      "</span>").
Proof.
  intros Hname Ha Hb. unfold Inline.renderMeter.
  rewrite split_join; [| discriminate |].
  2:{ repeat (apply List.Forall_cons; [first [assumption | apply showInt_sepFree] |]).
      apply List.Forall_nil. }
  cbv zeta. cbn [lookup list_lookup].
  rewrite strOr_Some_empty, !intField_showInt by assumption.
  replace (if a =? 0 then 0 else a) with a by (destruct (Z.eqb_spec a 0); congruence).
  replace (if b =? 0 then 0 else b) with b by (destruct (Z.eqb_spec b 0); congruence).
  cbn [bind]. unfold Inline.meterMarkup. cbv zeta.
  replace (b - a >? 0) with (b >? a) by (rewrite !Z.gtb_ltb; destruct (Z.ltb_spec a b), (Z.ltb_spec 0 (b - a)); lia).
  replace (b - a <? 0) with (b <? a) by (destruct (Z.ltb_spec b a), (Z.ltb_spec (b - a) 0); lia).
  replace (b - a >=? 0) with (b >=? a) by (rewrite !Z.geb_leb; destruct (Z.leb_spec a b), (Z.leb_spec 0 (b - a)); lia).
  reflexivity.
Qed.

Lemma meter_shows_its_integers_witness :
  Inline.renderMeter (join "|" ["Momentum"; showInt 2; showInt 5]) =
  Ok (tpl "<span class=`iv-inline-mechanics meter-increase`>" +:+
      tpl "<span class=`iv-inline-meter-icon`>" +:+ ICONS.trendingUp +:+ "</span>" +:+
      tpl "<span class=`iv-inline-meter-name`>Momentum:</span>" +:+
      tpl "<span class=`iv-inline-meter-change`>2 → 5</span>" +:+
      "</span>").
Proof.
  apply (meter_shows_its_integers "Momentum" 2 5).
  - intros c H. cbn [occurs] in H.
    repeat (destruct H as [->|H]; [reflexivity |]). destruct H.
  - reflexivity.
  - reflexivity.
Defined.

(** *** [resolvePathToSlug] *)

Lemma stripSuffix_append (suf x : string) :
  suf <> "" -> stripSuffix suf (x +:+ suf) = x.
Proof.
  intros Hne. induction x as [|d x IH]; cbn [String.append].
  - destruct suf as [|c r]; [congruence |]. cbn [stripSuffix].
    now rewrite String.eqb_refl.
  - cbn [stripSuffix].
    destruct (String.eqb_spec (String d (x +:+ suf)) suf) as [E|_].
    + apply (f_equal String.length) in E. cbn [String.length] in E.
      rewrite length_append in E. lia.
    + now rewrite IH.
Qed.

Lemma splitOn_tail (isSep : ascii -> bool) (a : string) (c : ascii) (b : string) :
  isSep c = true ->
  exists pre, pre <> [] /\ splitOn isSep (a +:+ String c b) = pre ++ splitOn isSep b.
Proof.
  intros Hc. induction a as [|d a IH]; cbn [String.append splitOn].
  - rewrite Hc. now exists [""].
  - destruct IH as (pre & Hpre & ->).
    destruct (isSep d); [now exists ("" :: pre) |].
    destruct pre as [|h pre]; [congruence |].
    cbn [app]. now exists (String d h :: pre).
Qed.

Lemma occurs_neq (c : ascii) (s t : string) : occurs c s -> ~ occurs c t -> s <> t.
Proof. intros Hs Ht ->. contradiction. Qed.

(** The extension is looked for at the end of the path, that is in the
    name of the file. *)
Lemma stripSuffix_after (suf x : string) (c : ascii) (y : string) :
  ~ occurs c suf ->
  stripSuffix suf (x +:+ String c y) = x +:+ String c (stripSuffix suf y).
Proof.
  intros Hc.
  assert (Hhere : forall z, String.eqb (z +:+ String c y) suf = false).
  { intros z. apply String.eqb_neq. apply (occurs_neq c); [| assumption].
    rewrite occurs_append. right. now left. }
  induction x as [|d x IH]; cbn [String.append stripSuffix].
  - pose proof (Hhere "") as H. cbn [String.append] in H. now rewrite H.
  - pose proof (Hhere (String d x)) as H. cbn [String.append] in H.
    now rewrite H, IH.
Qed.

Lemma sepFree_stripSuffix (isSep : ascii -> bool) (suf s : string) :
  sepFree isSep s -> sepFree isSep (stripSuffix suf s).
Proof.
  intros H c Hc. apply H. clear H. induction s as [|d s IH]; [destruct Hc |].
  cbn [stripSuffix] in Hc. destruct (String.eqb _ suf); [destruct Hc |].
  destruct Hc as [->|Hc]; [now left | right; now apply IH].
Qed.

Lemma fileNameOf_path (dir name : string) (sep : ascii) :
  sep = "/"%char \/ sep = "\"%char ->
  sepFree (fun c => Ascii.eqb c "/" || Ascii.eqb c "\") name ->
  Inline.fileNameOf (dir +:+ String sep name) = stripMd name /\
  Inline.fileNameOf name = stripMd name.
Proof.
  intros Hsep Hname. unfold Inline.fileNameOf, stripMd.
  rewrite stripSuffix_after.
  2:{ cbn [occurs]. destruct Hsep as [->| ->]; intros H;
      repeat (destruct H as [H|H]; [discriminate H |]); exact H. }
  pose proof (sepFree_stripSuffix _ ".md" name Hname) as Hstem.
  split.
  - destruct (splitOn_tail (fun c => Ascii.eqb c "/" || Ascii.eqb c "\") dir sep
                (stripSuffix ".md" name))
      as (pre & _ & ->); [destruct Hsep as [->| ->]; reflexivity |].
    rewrite (splitOn_whole _ _ Hstem).
    rewrite last_snoc. apply strOr_Some_empty.
  - rewrite (splitOn_whole _ _ Hstem). apply strOr_Some_empty.
Qed.

Lemma stripSuffix_none (suf s : string) :
  suf <> "" -> ~ (exists x, s = x +:+ suf) -> stripSuffix suf s = s.
Proof.
  intros Hne. induction s as [|d s IH]; intros H; [reflexivity |].
  cbn [stripSuffix].
  destruct (String.eqb_spec (String d s) suf) as [E|_].
  - exfalso. apply H. exists "". now rewrite E.
  - rewrite IH; [reflexivity |]. intros [x ->]. apply H. now exists (String d x).
Qed.

(** X7.  [resolvePathToSlug] looks a path up by the lower-cased name of its
    file alone, with the [.md] extension removed when the name has one: a
    name that is not empty and holds no slash and no backslash, alone or
    after any directories, resolves to the slug of its table entry when
    the table has one for it, and to [pathToSlug] of the path when it has
    none; without a table every path resolves to [pathToSlug] of the path.
    Removing the extension turns [base.md] into [base] and leaves a name
    that does not end in [.md] as it is. *)
Theorem resolve_by_file_name (files : gmap string Inline.FileInfo)
    (dir name : string) (sep : ascii) :
  sep = "/"%char \/ sep = "\"%char ->
  sepFree (fun c => Ascii.eqb c "/" || Ascii.eqb c "\") name ->
  name <> "" ->
  let key := toLowerCase (stripMd name) in
  let long := dir +:+ String sep name in
  (forall info,
     files !! key = Some info ->
     Inline.resolvePathToSlug long (Some files) = Inline.slug info /\
     Inline.resolvePathToSlug name (Some files) = Inline.slug info) /\
  (files !! key = None ->
   Inline.resolvePathToSlug long (Some files) = Inline.pathToSlug long /\
   Inline.resolvePathToSlug name (Some files) = Inline.pathToSlug name) /\
  (forall path, Inline.resolvePathToSlug path None = Inline.pathToSlug path) /\
  (forall base, stripMd (base +:+ ".md") = base) /\
  (~ (exists base, name = base +:+ ".md") -> stripMd name = name).
Proof.
  intros Hsep Hname Hne. cbv zeta.
  destruct (fileNameOf_path dir name sep Hsep Hname) as [Hlong Hshort].
  unfold Inline.resolvePathToSlug. rewrite Hlong, Hshort.
  assert (E1 : isEmpty (dir +:+ String sep name) = false) by (now destruct dir).
  assert (E2 : isEmpty name = false) by (now destruct name).
  rewrite E1, E2.
  split; [intros info ->; split; reflexivity |].
  split; [intros ->; split; reflexivity |].
  split.
  { intros path. unfold Inline.pathToSlug. now destruct (isEmpty path). }
  split.
  { intros base. apply stripSuffix_append. discriminate. }
  intros H. apply stripSuffix_none; [discriminate | assumption].
Qed.

Lemma resolve_by_file_name_witness :
  let info := {| Inline.slug := "campaign/vows/my-vow"; Inline.title := "My Vow";
                 Inline.path := "Campaign/Vows/My Vow.md" |} in
  Inline.resolvePathToSlug ("Campaign/Vows" +:+ String "/" "My Vow.md")
    (Some {[ "my vow" := info ]}) = Inline.slug info /\
  Inline.resolvePathToSlug "My Vow.md" (Some {[ "my vow" := info ]}) = Inline.slug info.
Proof.
  intros info.
  apply (proj1 (resolve_by_file_name {[ "my vow" := info ]} "Campaign/Vows" "My Vow.md" "/"
                  (or_introl eq_refl)
                  ltac:(intros c H; cbn [occurs] in H;
                        repeat (destruct H as [->|H]; [reflexivity |]); destruct H)
                  ltac:(discriminate))).
  vm_compute. reflexivity.
Defined.

(** *** Slugs *)

Lemma lowerChar_not_upper (d : ascii) : isUpper (lowerChar d) = false.
Proof. destruct d as [[] [] [] [] [] [] [] []]; vm_compute; reflexivity. Qed.

Lemma inline_slug_lower (path : string) (c : ascii) :
  occurs c (Inline.pathToSlug path) -> isUpper c = false.
Proof.
  unfold Inline.pathToSlug. destruct (isEmpty path).
  - intros [->|[]]. reflexivity.
  - intros H.
    apply occurs_removeChars in H as [H _].
    apply occurs_removeChars in H as [H _].
    apply occurs_wsRuns_source in H as [->|H]; [reflexivity |].
    apply occurs_smap in H as (d & _ & ->). apply lowerChar_not_upper.
Qed.

(** X8.  A slug of either routine holds no upper-case ASCII letter. *)
Theorem slug_lower_case (path : string) (c : ascii) :
  occurs c (Inline.pathToSlug path) \/ occurs c (Blocks.pathToSlug path) ->
  isUpper c = false.
Proof.
  intros [H|H]; [now apply inline_slug_lower in H |].
  destruct path as [|a r] eqn:E; [destruct H as [->|[]]; reflexivity |].
  rewrite <- E in H. rewrite blocks_slug_nonempty in H by (rewrite E; discriminate).
  destruct H as [->|H]; [reflexivity |].
  apply occurs_dropWhile in H. now apply inline_slug_lower in H.
Qed.

Lemma slug_lower_case_witness : isUpper "v" = false.
Proof.
  apply (slug_lower_case "Vows/My Vow.md" "v"). left. vm_compute. tauto.
Defined.

(** *** Fields of an inline code *)

(** X9.  The text of an [iv-ooc] code is everything after the first colon:
    further colons and pipes belong to it, and it reaches the markup with
    each of its characters escaped once. *)
Theorem ooc_text_kept_whole (text : string)
    (files : option (gmap string Inline.FileInfo)) :
  Inline.parseInlineMechanic ("iv-ooc:" +:+ text) files =
  Some (Ok (tpl "<span class=`iv-inline-mechanics ooc`>" +:+
            tpl "<span class=`iv-inline-ooc-icon`>" +:+ ICONS.messageCircle +:+ "</span>" +:+
            tpl "<span class=`iv-inline-ooc-text`>" +:+ escapeEach text +:+ "</span>" +:+
            "</span>")).
Proof.
  change ("iv-ooc:" +:+ text) with ("iv-ooc" +:+ String ":" text).
  rewrite parse_tagged by (cbn; intuition discriminate).
  cbn [String.append startsWith]. change (startsWith "" _) with true.
  unfold Inline.dispatch, Inline.renderOOC, Inline.escapeHtml.
  rewrite escape_passes. reflexivity.
Qed.

Lemma lookup_with_extra (parts extra : list string) (k n : nat) :
  (n <= length parts)%nat -> (k < n)%nat -> (parts ++ extra) !! k = parts !! k.
Proof. intros Hn Hk. apply lookup_app_l. lia. Qed.

Ltac drop_extra :=
  match goal with
  | Hfree : Forall _ (?parts ++ ?extra), Hlen : (_ <= length ?parts)%nat |- _ =>
      rewrite !split_join;
      [ cbv zeta; rewrite ?(lookup_with_extra parts extra _ _ Hlen) by lia; reflexivity
      | destruct parts; [cbn in Hlen; lia | discriminate]
      | apply Forall_app in Hfree; tauto
      | destruct parts; [cbn in Hlen; lia | discriminate]
      | exact Hfree ]
  end.

(** X10.  A renderer reads the fields of its format and nothing after
    them: for every kind but [iv-ooc], fields written after the last one of
    the format do not change the markup. *)
Theorem extra_fields_ignored (type : string) (parts extra : list string)
    (files : option (gmap string Inline.FileInfo)) :
  type <> "iv-ooc" ->
  Forall (sepFree (Ascii.eqb "|")) (parts ++ extra) ->
  (length (fieldDefaults type parts) <= length parts)%nat ->
  (1 <= length parts)%nat ->
  Inline.dispatch type (join "|" (parts ++ extra)) files =
  Inline.dispatch type (join "|" parts) files.
Proof.
  intros Hooc Hfree Hlen Hone. unfold Inline.dispatch.
  unfold fieldDefaults in Hlen.
  repeat match goal with
  | |- context [String.eqb type ?lit] =>
      destruct (String.eqb_spec type lit) as [->|?]; [cbn [length] in Hlen; f_equal |]
  end; try reflexivity; try congruence.
  - unfold Inline.renderMove, Inline.moveRoll. drop_extra.
  - unfold Inline.renderOracle. drop_extra.
  - unfold Inline.renderMeter. drop_extra.
  - unfold Inline.renderBurn. drop_extra.
  - unfold Inline.renderInitiative. drop_extra.
  - unfold Inline.renderTrackCreate. drop_extra.
  - unfold Inline.renderTrackAdvance. drop_extra.
  - unfold Inline.renderTrackComplete. drop_extra.
  - unfold Inline.renderProgressRoll. drop_extra.
  - unfold Inline.renderNoRoll. drop_extra.
  - unfold Inline.renderEntityCreate. drop_extra.
  - unfold Inline.renderClockCreate. drop_extra.
  - unfold Inline.renderClockAdvance. drop_extra.
  - unfold Inline.renderClockResolve. drop_extra.
  - unfold Inline.renderDice. drop_extra.
Qed.

Lemma extra_fields_ignored_witness :
  Inline.dispatch "iv-burn" (join "|" (["5"; "2"] ++ ["note"; "more"])) None =
  Inline.dispatch "iv-burn" (join "|" ["5"; "2"]) None.
Proof.
  apply extra_fields_ignored.
  - discriminate.
  - repeat (apply List.Forall_cons;
      [intros c H; cbn [occurs] in H;
       repeat (destruct H as [->|H]; [reflexivity |]); destruct H |]).
    apply List.Forall_nil.
  - cbn. lia.
  - cbn. lia.
Defined.

(** ** Further properties of the block parser *)

(** *** [parseProps] *)

Lemma scanAll_from (A : Type) (m : string -> option (A * nat)) (skip : nat)
    (s : string) (a : A) :
  In a (scanAll m skip s) -> exists t n, m t = Some (a, n).
Proof.
  revert skip; induction s as [|c r IH]; intros skip; cbn [scanAll]; [intros [] |].
  destruct skip as [|k]; [| apply IH].
  destruct (m (String c r)) as [[b n]|] eqn:E; [| apply IH].
  intros [<-|H]; [eauto | eapply IH; eassumption].
Qed.

Lemma lookup_foldl_assign (l : list (string * Blocks.PropValue))
    (props : gmap string Blocks.PropValue) (key : string) (v : Blocks.PropValue) :
  foldl Blocks.assign props l !! key = Some v ->
  In (key, v) l \/ props !! key = Some v.
Proof.
  revert props; induction l as [|[k w] l IH]; intros props; cbn [foldl]; [now right |].
  intros H. apply IH in H as [H|H]; [left; now right |].
  unfold Blocks.assign in H. cbn [fst snd] in H.
  destruct (String.eqb k "__proto__"); [now right |].
  destruct (decide (k = key)) as [->|Hne].
  - rewrite lookup_insert_eq in H. injection H as <-. left. now left.
  - rewrite lookup_insert_ne in H by assumption. now right.
Qed.

Lemma takeWhile_holds (p : ascii -> bool) (s : string) (c : ascii) :
  occurs c (takeWhile p s) -> p c = true.
Proof.
  induction s as [|d r IH]; cbn [takeWhile occurs]; [tauto |].
  destruct (p d) eqn:E; cbn [occurs]; [| tauto].
  intros [->|H]; [exact E | now apply IH].
Qed.

Lemma matched_key_word (s key : string) (v : Blocks.PropValue) (n : nat) :
  Blocks.matchQuotedProp s = Some ((key, v), n) \/
  Blocks.matchNumberProp s = Some ((key, v), n) ->
  key <> "" /\ forall c, occurs c key -> isWord c = true.
Proof.
  assert (Hk : forall k, isEmpty k = false -> k <> "") by (now intros [|]).
  intros [H|H].
  - unfold Blocks.matchQuotedProp in H. cbv zeta in H.
    destruct (isEmpty (takeWhile isWord s)) eqn:E; [discriminate |].
    destruct (stripPrefix _ _) as [r|]; [| discriminate].
    destruct (isEmpty (sdrop _ r)); [discriminate |].
    injection H as <- _ _. split; [now apply Hk |].
    intros c. apply takeWhile_holds.
  - unfold Blocks.matchNumberProp in H. cbv zeta in H.
    destruct (isEmpty (takeWhile isWord s)) eqn:E; [discriminate |].
    destruct (sdrop _ s) as [|e r]; [discriminate |].
    destruct (Ascii.eqb_spec e "=") as [->|Hne].
    2:{ destruct e as [[] [] [] [] [] [] [] []]; try discriminate H; congruence. }
    destruct (isEmpty (takeWhile isDigit _)); [discriminate |].
    destruct (_ && _); injection H as <- _ _;
      (split; [now apply Hk | intros c; apply takeWhile_holds]).
Qed.

Lemma parseProps_key (line key : string) (v : Blocks.PropValue) :
  Blocks.parseProps line !! key = Some v ->
  key <> "" /\ forall c, occurs c key -> isWord c = true.
Proof.
  unfold Blocks.parseProps. cbv zeta. intros H.
  apply lookup_foldl_assign in H as [H|H].
  - apply scanAll_from in H as (t & n & Ht). eapply matched_key_word. right. exact Ht.
  - apply lookup_foldl_assign in H as [H|H]; [| now rewrite lookup_empty in H].
    apply scanAll_from in H as (t & n & Ht). eapply matched_key_word. left. exact Ht.
Qed.

(** X11.  Every key of the props object is a non-empty run of word
    characters (letters, digits, underscore).  A key with a hyphen is
    never there: whatever the line, the lookups of [from-boxes],
    [from-ticks], [to-boxes], [to-ticks], [out-of], [stat-name],
    [old-action], [old-vs1] and [old-vs2] give [undefined]. *)
Theorem props_keys_are_words (line : string) :
  (forall key v,
     Blocks.parseProps line !! key = Some v ->
     key <> "" /\ forall c, occurs c key -> isWord c = true) /\
  (forall key, occurs "-" key -> Blocks.parseProps line !! key = None) /\
  Forall (fun key => Blocks.parseProps line !! key = None)
    ["from-boxes"; "from-ticks"; "to-boxes"; "to-ticks"; "out-of";
     "stat-name"; "old-action"; "old-vs1"; "old-vs2"].
Proof.
  assert (Hh : forall key, occurs "-" key -> Blocks.parseProps line !! key = None).
  { intros key Hocc. destruct (Blocks.parseProps line !! key) as [v|] eqn:E; [| reflexivity].
    apply parseProps_key in E as [_ E]. specialize (E _ Hocc). discriminate E. }
  split; [intros key v; apply parseProps_key |]. split; [exact Hh |].
  repeat (apply List.Forall_cons; [apply Hh; cbn [occurs]; tauto |]).
  apply List.Forall_nil.
Qed.

Lemma props_keys_are_words_witness :
  Blocks.parseProps (tpl "track name=`Vow` from-boxes=2 to-boxes=3") !! "from-boxes" = None.
Proof.
  apply (proj1 (proj2 (props_keys_are_words _))). cbn [occurs]. tauto.
Defined.

Lemma stripPrefix_occurs (c : ascii) (p s r : string) :
  stripPrefix (String c p) s = Some r -> occurs c s.
Proof.
  destruct s as [|d s]; cbn [stripPrefix]; [discriminate |].
  destruct (Ascii.eqb_spec c d) as [->|]; [| discriminate]. intros _. now left.
Qed.

Lemma occurs_sdrop (c : ascii) (n : nat) (s : string) :
  occurs c (sdrop n s) -> occurs c s.
Proof.
  revert s; induction n as [|n IH]; intros s; cbn [sdrop]; [tauto |].
  destruct s as [|d r]; [tauto |]. intros H. right. now apply IH.
Qed.

Lemma no_equals_no_match (s : string) :
  ~ occurs "=" s ->
  Blocks.matchQuotedProp s = None /\ Blocks.matchNumberProp s = None.
Proof.
  intros Hno. split.
  - unfold Blocks.matchQuotedProp. cbv zeta.
    destruct (isEmpty _); [reflexivity |].
    destruct (stripPrefix _ _) as [r|] eqn:E; [| reflexivity].
    exfalso. apply Hno. change (tpl "=`") with (String "=" (String dq "")) in E.
    apply stripPrefix_occurs in E. now apply occurs_sdrop in E.
  - unfold Blocks.matchNumberProp. cbv zeta.
    destruct (isEmpty _); [reflexivity |].
    destruct (sdrop _ s) as [|e r] eqn:E; [reflexivity |].
    destruct (Ascii.eqb_spec e "=") as [->|Hne].
    + exfalso. apply Hno. apply (occurs_sdrop _ (String.length (takeWhile isWord s))).
      rewrite E. now left.
    + destruct e as [[] [] [] [] [] [] [] []]; try reflexivity; congruence.
Qed.

Lemma scanAll_none (A : Type) (m : string -> option (A * nat)) (skip : nat)
    (s : string) :
  (forall t, ~ occurs "=" t -> m t = None) -> ~ occurs "=" s ->
  scanAll m skip s = [].
Proof.
  intros Hm. revert skip; induction s as [|c r IH]; intros skip Hno; [reflexivity |].
  cbn [scanAll]. assert (Hr : ~ occurs "=" r) by (intros H; apply Hno; now right).
  destruct skip; [| now apply IH]. rewrite (Hm _ Hno). now apply IH.
Qed.

(** X12.  A line without an equals sign has no props: every lookup in its
    props object gives [undefined]. *)
Theorem props_need_equals (line : string) :
  ~ occurs "=" line -> Blocks.parseProps line = ∅.
Proof.
  intros Hno. unfold Blocks.parseProps. cbv zeta.
  rewrite !scanAll_none; trivial; intros t Ht; now apply no_equals_no_match.
Qed.

Lemma props_need_equals_witness :
  Blocks.parseProps "progress rank dangerous" = ∅.
Proof.
  apply props_need_equals. cbn [occurs].
  intros H. repeat (destruct H as [H|H]; [discriminate H |]). exact H.
Defined.

(** *** Progress lines *)

Lemma claimedTicksPerStep_pos (rank : string) : 1 <= claimedTicksPerStep rank <= 12.
Proof.
  unfold claimedTicksPerStep.
  repeat match goal with |- context [String.eqb ?a ?b] => destruct (String.eqb a b) end;
    lia.
Qed.

Lemma integerOf_nonzero (v : option Blocks.PropValue) (d : Z) :
  d <> 0 -> integerOf v d <> 0.
Proof.
  intros Hd. destruct v as [[s|m|l]|]; cbn [integerOf]; trivial.
  destruct (Z.eqb_spec m 0); assumption.
Qed.

Lemma plainProgress_rendered (line : string) :
  plainProgress line ->
  Blocks.progressValues line = Ok (progressOf line) /\
  Blocks.parseProgressBlock line = Ok (Blocks.renderProgress (progressOf line)).
Proof.
  intros (Hs & Hf & Hr & Hl & Hn & Hc & Hp & Ht & Hnew).
  pose proof (progressValues_read line Hs Hf Hr Hl Hn Hc Hp Ht Hnew) as Hv.
  split; [exact Hv |]. unfold Blocks.parseProgressBlock. now rewrite Hv.
Qed.

(** X13.  A progress line in the form the parser is made for (steps and
    from absent or unquoted safe integers, rank, level and name absent or
    quoted, the rank no inherited member of the table, the totals safe
    integers) is rendered, and it always moves its track: the steps are
    never 0 (an absent or zero steps prop counts as 1), each step adds
    between 1 and 12 ticks, and the new total lies above the old one
    exactly when the steps are positive and below it exactly when they are
    negative; with positive steps the boxes never decrease. *)
Theorem progress_always_moves (line : string) :
  plainProgress line ->
  exists p : Blocks.Progress,
    Blocks.progressValues line = Ok p /\
    Blocks.parseProgressBlock line = Ok (Blocks.renderProgress p) /\
    Blocks.steps p = integerOf (Blocks.parseProps line !! "steps") 1 /\
    Blocks.from p = integerOf (Blocks.parseProps line !! "from") 0 /\
    Blocks.steps p <> 0 /\
    Z.abs (Blocks.steps p) <= Z.abs (Blocks.ticksToAdd p) <= 12 * Z.abs (Blocks.steps p) /\
    (0 < Blocks.steps p <-> Blocks.from p < Blocks.newProgress p) /\
    (Blocks.steps p < 0 <-> Blocks.newProgress p < Blocks.from p) /\
    (0 < Blocks.steps p -> Blocks.fromBoxes p <= Blocks.toBoxes p).
Proof.
  intros Hplain. destruct (plainProgress_rendered line Hplain) as [Hv Hr].
  exists (progressOf line). split; [exact Hv |]. split; [exact Hr |].
  unfold progressOf.
  cbn [Blocks.steps Blocks.from Blocks.ticksToAdd Blocks.newProgress
       Blocks.fromBoxes Blocks.toBoxes].
  pose proof (claimedTicksPerStep_pos (toLowerCase (rankOf (Blocks.parseProps line))))
    as Ht.
  pose proof (integerOf_nonzero (Blocks.parseProps line !! "steps") 1 ltac:(discriminate))
    as Hs.
  set (t := claimedTicksPerStep _) in *.
  set (s := integerOf _ 1) in *. set (f := integerOf _ 0) in *.
  split; [reflexivity |]. split; [reflexivity |].
  split; [exact Hs |]. split; [nia |]. split; [nia |]. split; [nia |].
  intros Hpos. apply Z.div_le_mono; nia.
Qed.

Lemma progress_always_moves_witness :
  exists p,
    Blocks.progressValues quotedProgressLine = Ok p /\
    Blocks.steps p = 2 /\ Blocks.from p = 3 /\
    (0 < Blocks.steps p <-> Blocks.from p < Blocks.newProgress p).
Proof.
  destruct (progress_always_moves quotedProgressLine)
    as (p & Hp & _ & Hs & Hf & _ & _ & Hup & _).
  - unfold plainProgress. cbv zeta.
    split; [right; exists 2; vm_compute; reflexivity |].
    split; [right; exists 3; vm_compute; reflexivity |].
    split; [right; exists "dangerous"; vm_compute; reflexivity |].
    split; [left; vm_compute; reflexivity |].
    split; [right; exists "[[Foo|Foo Track]]"; vm_compute; reflexivity |].
    split; [vm_compute; discriminate |].
    split; [vm_compute; discriminate |].
    split; vm_compute; reflexivity.
  - exists p. split; [exact Hp |]. split; [rewrite Hs; vm_compute; reflexivity |].
    split; [rewrite Hf; vm_compute; reflexivity | exact Hup].
Defined.

(** X14.  For a progress line in the form the parser is made for, the
    boxes and ticks shown for a total add up to it again
    ([4 * boxes + ticks]) exactly when the total is not negative or is a
    multiple of 4; for a total that is not negative the ticks lie between
    0 and 3.  (A negative total that is no multiple of 4 is shown with
    boxes rounded down and with negative ticks, which add up to 4 less.) *)
Theorem progress_boxes_and_ticks (line : string) :
  plainProgress line ->
  exists p : Blocks.Progress,
    Blocks.progressValues line = Ok p /\
    Blocks.parseProgressBlock line = Ok (Blocks.renderProgress p) /\
    Blocks.from p = integerOf (Blocks.parseProps line !! "from") 0 /\
    Blocks.newProgress p = Blocks.from p + Blocks.ticksToAdd p /\
    let total := Blocks.newProgress p in
    (4 * Blocks.toBoxes p + Blocks.toTicks p = total <-> 0 <= total \/ total mod 4 = 0) /\
    (4 * Blocks.fromBoxes p + Blocks.fromTicks p = Blocks.from p
     <-> 0 <= Blocks.from p \/ Blocks.from p mod 4 = 0) /\
    (0 <= total -> 0 <= Blocks.toTicks p < 4) /\
    (0 <= Blocks.from p -> 0 <= Blocks.fromTicks p < 4) /\
    (total < 0 -> total mod 4 <> 0 ->
     4 * Blocks.toBoxes p + Blocks.toTicks p = total - 4).
Proof.
  intros Hplain. destruct (plainProgress_rendered line Hplain) as [Hv Hr].
  exists (progressOf line). split; [exact Hv |]. split; [exact Hr |].
  unfold progressOf.
  cbn [Blocks.from Blocks.ticksToAdd Blocks.newProgress Blocks.fromBoxes
       Blocks.fromTicks Blocks.toBoxes Blocks.toTicks].
  split; [reflexivity |]. split; [reflexivity |]. cbv zeta.
  generalize (claimedTicksPerStep (toLowerCase (rankOf (Blocks.parseProps line)))
              * integerOf (Blocks.parseProps line !! "steps") 1).
  generalize (integerOf (Blocks.parseProps line !! "from") 0). intros m k.
  repeat split; intros; Z.to_euclidean_division_equations; lia.
Qed.

Lemma progress_boxes_and_ticks_witness :
  exists p,
    Blocks.progressValues (tpl "progress name=`Vow` rank=`epic` steps=-3 from=0") = Ok p /\
    Blocks.newProgress p = -3 /\
    4 * Blocks.toBoxes p + Blocks.toTicks p = Blocks.newProgress p - 4.
Proof.
  destruct (progress_boxes_and_ticks (tpl "progress name=`Vow` rank=`epic` steps=-3 from=0"))
    as (p & Hp & _ & _ & _ & _ & _ & _ & _ & H4).
  - unfold plainProgress. cbv zeta.
    split; [right; exists (-3); vm_compute; reflexivity |].
    split; [right; exists 0; vm_compute; reflexivity |].
    split; [right; exists "epic"; vm_compute; reflexivity |].
    split; [left; vm_compute; reflexivity |].
    split; [right; exists "Vow"; vm_compute; reflexivity |].
    split; [vm_compute; discriminate |].
    split; [vm_compute; discriminate |].
    split; vm_compute; reflexivity.
  - exists p. split; [exact Hp |].
    pose proof Hp as Hp'. vm_compute in Hp'. injection Hp' as <-.
    split; [reflexivity |]. apply H4; [reflexivity | discriminate].
Defined.

(** *** [collectBlock] *)

(** X15.  Inside the array of lines, a header line that closes as many
    braces as it opens, or more, is collected alone, and so is a header
    that is the last line. *)
Theorem collectBlock_header_alone (lines : list string) (start : nat) :
  (start < length lines)%nat ->
  Blocks.braceDelta (Blocks.lineAt lines start) <= 0 \/ (length lines <= start + 1)%nat ->
  Blocks.collectBlock lines start =
  Ok {| Blocks.content := Blocks.lineAt lines start; Blocks.endIndex := start |}.
Proof.
  intros Hlt H.
  destruct (lookup_lt_is_Some_2 lines start Hlt) as [first Hfirst].
  assert (Hat : Blocks.lineAt lines start = first)
    by (unfold Blocks.lineAt; now rewrite Hfirst).
  rewrite Hat in *. unfold Blocks.collectBlock. rewrite Hfirst. cbv zeta.
  destruct (drop (S start) lines) as [|next rest] eqn:E; [reflexivity |].
  cbn [Blocks.collectLoop].
  destruct H as [H|H].
  - destruct (Z.gtb_spec (Blocks.braceDelta first) 0); [lia |].
    reflexivity.
  - rewrite drop_ge in E by lia. discriminate E.
Qed.

Lemma collectBlock_header_alone_witness :
  Blocks.collectBlock ["move `Strike` { roll }"; "- after"] 0 =
  Ok {| Blocks.content := "move `Strike` { roll }"; Blocks.endIndex := 0 |}.
Proof.
  apply (collectBlock_header_alone ["move `Strike` { roll }"; "- after"] 0).
  - vm_compute. lia.
  - left. vm_compute. discriminate.
Defined.

(** X16.  [collectBlock] loses nothing: the collected content of lines
    that come from splitting a text splits again into exactly the lines
    from the start index to the end index. *)
Theorem collectBlock_lines_back (text : string) (start : nat) :
  let lines := split Blocks.newline text in
  (start < length lines)%nat ->
  exists block : Blocks.Collected,
    Blocks.collectBlock lines start = Ok block /\
    split Blocks.newline (Blocks.content block)
    = take (Blocks.endIndex block - start + 1) (drop start lines).
Proof.
  cbv zeta. intros Hlt.
  destruct (collectBlock_inside _ start Hlt) as [block Hblock].
  exists block. split; [exact Hblock |].
  destruct (collectBlock_spec _ start block Hblock) as (Hb & -> & _).
  apply split_join.
  - destruct (drop start (split Blocks.newline text)) eqn:E.
    + apply (f_equal length) in E. rewrite length_drop in E. cbn in E. lia.
    + replace (Blocks.endIndex _ - start + 1)%nat
        with (S (Blocks.endIndex block - start)) by lia.
      discriminate.
  - apply Forall_take, Forall_drop, split_sepFree.
Qed.

Lemma collectBlock_lines_back_witness :
  exists block,
    Blocks.collectBlock
      (split Blocks.newline (join (String Blocks.newline "") ["a {"; "b"; "}"; "c"])) 0
    = Ok block /\
    split Blocks.newline (Blocks.content block) = ["a {"; "b"; "}"].
Proof.
  destruct (collectBlock_lines_back (join (String Blocks.newline "") ["a {"; "b"; "}"; "c"]) 0)
    as (block & Hblock & Hback).
  - vm_compute. lia.
  - exists block. split; [exact Hblock |].
    rewrite Hback. vm_compute in Hblock. injection Hblock as <-.
    vm_compute. reflexivity.
Defined.

(** *** The loop over the lines *)

Section Lines.

Variable leaf : Blocks.Kind -> string -> Blocks.Result string.

Lemma lookup_lineAt (lines : list string) (i : nat) (line : string) :
  lines !! i = Some line -> Blocks.lineAt lines i = line.
Proof. unfold Blocks.lineAt. now intros ->. Qed.

Lemma concatAll_app (a b : list string) :
  concatAll (a ++ b) = concatAll a +:+ concatAll b.
Proof.
  induction a as [|x a IH]; cbn [app concatAll]; [reflexivity |].
  now rewrite IH, append_assoc.
Qed.

Lemma loop_single_lines (rec : string -> option (Blocks.Result string))
    (lines : list string) :
  forall (fuel i : nat) (results htmls : list string),
    (length lines - i <= fuel)%nat ->
    Forall2 (fun line html => lineMarkup leaf line = Some (Blocks.Ok html))
      (drop i lines) htmls ->
    exists out,
      Blocks.loop leaf rec fuel lines i results = Some (Blocks.Ok out) /\
      concatAll out = concatAll results +:+ concatAll htmls.
Proof.
  induction fuel as [|fuel IH]; intros i results htmls Hfuel Hall.
  - cbn [Blocks.loop]. destruct (Nat.ltb_spec i (length lines)); [lia |].
    rewrite drop_ge in Hall by lia. inversion Hall; subst.
    exists results. now rewrite append_nil_r.
  - cbn [Blocks.loop]. destruct (Nat.ltb_spec i (length lines)) as [Hlt|Hge].
    2:{ rewrite drop_ge in Hall by lia. inversion Hall; subst.
        exists results. now rewrite append_nil_r. }
    destruct (lookup_lt_is_Some_2 lines i Hlt) as [line Hline].
    rewrite (drop_S _ _ _ Hline) in Hall.
    inversion Hall as [|? html ? htmls' Hhead Htail]; subst.
    unfold Blocks.iteration. rewrite (lookup_lineAt _ _ _ Hline).
    unfold lineMarkup in Hhead.
    destruct (Blocks.classify (trim line)) as [k|].
    + destruct (Blocks.spansLines k) eqn:Hk; [discriminate Hhead |].
      assert (Hr : Blocks.render leaf rec k (trim line) = Some (Blocks.Ok html)).
      { destruct k; try discriminate Hk; exact Hhead. }
      rewrite Hr. cbn [fmap option_fmap option_map Blocks.mapResult].
      destruct (IH (i + 1)%nat (results ++ [html]) htmls') as (out & Hout & Hcat);
        [lia | now rewrite Nat.add_1_r |].
      exists out. split; [exact Hout |].
      rewrite Hcat, concatAll_app. cbn [concatAll].
      now rewrite append_nil_r, append_assoc.
    + injection Hhead as <-.
      destruct (IH (i + 1)%nat (results ++ []) htmls') as (out & Hout & Hcat);
        [lia | now rewrite Nat.add_1_r |].
      exists out. split; [exact Hout |].
      rewrite Hcat, app_nil_r. reflexivity.
Qed.

(** X17.  Statements of one line are rendered one by one and in the order
    of the source: when each line of a block is such a statement, or no
    statement at all, and each is rendered, the markup of the block is the
    article around the markup of the lines, one after the other (a line
    that is no statement adds nothing). *)
Theorem single_lines_in_order (text : string) (htmls : list string) :
  Forall2 (fun line html => lineMarkup leaf line = Some (Blocks.Ok html))
    (split Blocks.newline (trim text)) htmls ->
  Blocks.parseIronVaultBlock leaf text
  = Some (Blocks.Ok (Blocks.articleOpen +:+ concatAll htmls +:+ Blocks.articleClose)).
Proof.
  intros Hall. unfold Blocks.parseIronVaultBlock. cbn [Blocks.parseWithin].
  destruct (loop_single_lines (Blocks.parseWithin leaf (String.length text))
              (split Blocks.newline (trim text))
              (length (split Blocks.newline (trim text))) 0 [] htmls)
    as (out & -> & Hcat); [lia | exact Hall |].
  cbn [fmap option_fmap option_map Blocks.mapResult]. now rewrite Hcat.
Qed.

(** X18.  A block in which no line is a statement gives the empty
    article. *)
Theorem unknown_lines_skipped (text : string) :
  Forall (fun line => Blocks.classify (trim line) = None)
    (split Blocks.newline (trim text)) ->
  Blocks.parseIronVaultBlock leaf text
  = Some (Blocks.Ok (Blocks.articleOpen +:+ Blocks.articleClose)).
Proof.
  intros Hall. unfold Blocks.parseIronVaultBlock. cbn [Blocks.parseWithin].
  destruct (loop_single_lines (Blocks.parseWithin leaf (String.length text))
              (split Blocks.newline (trim text))
              (length (split Blocks.newline (trim text))) 0 []
              (map (fun _ => "") (split Blocks.newline (trim text))))
    as (out & -> & Hcat); [lia | |].
  - rewrite drop_0. induction Hall as [|line l Hline Hl IH]; constructor; [| exact IH].
    unfold lineMarkup. now rewrite Hline.
  - cbn [fmap option_fmap option_map Blocks.mapResult]. rewrite Hcat.
    replace (concatAll (map (fun _ => "") (split Blocks.newline (trim text)))) with "";
      [reflexivity |].
    clear. generalize (split Blocks.newline (trim text)) as l.
    induction l as [|a l IH]; [reflexivity | exact IH].
Qed.

End Lines.

Lemma single_lines_in_order_witness :
  Blocks.parseIronVaultBlock (fun _ _ => Blocks.Throws)
    (join (String Blocks.newline "") ["- first"; "told in prose"; "- second"])
  = Some (Blocks.Ok (Blocks.articleOpen
                     +:+ concatAll [Blocks.parseDetailBlock "- first"; "";
                                    Blocks.parseDetailBlock "- second"]
                     +:+ Blocks.articleClose)).
Proof.
  apply (single_lines_in_order (fun _ _ => Blocks.Throws)
           (join (String Blocks.newline "") ["- first"; "told in prose"; "- second"])).
  replace (split _ _) with ["- first"; "told in prose"; "- second"]
    by (vm_compute; reflexivity).
  repeat (constructor; [vm_compute; reflexivity |]). constructor.
Defined.

Lemma unknown_lines_skipped_witness :
  Blocks.parseIronVaultBlock (fun _ _ => Blocks.Throws)
    (join (String Blocks.newline "") ["told in prose"; "moves { 1 }"])
  = Some (Blocks.Ok (Blocks.articleOpen +:+ Blocks.articleClose)).
Proof.
  apply (unknown_lines_skipped (fun _ _ => Blocks.Throws)
           (join (String Blocks.newline "") ["told in prose"; "moves { 1 }"])).
  replace (split _ _) with ["told in prose"; "moves { 1 }"]
    by (vm_compute; reflexivity).
  repeat (constructor; [vm_compute; reflexivity |]). constructor.
Defined.

(** *** [parseActorBlock] *)

Lemma stripPrefix_append (pre x : string) : stripPrefix pre (pre +:+ x) = Some x.
Proof.
  induction pre as [|c pre IH]; cbn [String.append stripPrefix]; [now destruct x |].
  now rewrite Ascii.eqb_refl.
Qed.

Lemma unwrap_article (body : string) :
  stripSuffix Blocks.articleClose
    (dropPrefix Blocks.articleOpen
       (Blocks.articleOpen +:+ body +:+ Blocks.articleClose))
  = body.
Proof.
  unfold dropPrefix. rewrite stripPrefix_append.
  apply stripSuffix_append. discriminate.
Qed.

(** X19.  An actor nests the statements between its braces: when the text
    between the first opening and the last closing brace parses to an
    article, the actor section holds, in its [div], the markup of that
    article without the article tags around it. *)
Theorem actor_nests_inner_markup
    (leaf : Blocks.Kind -> string -> Blocks.Result string)
    (content inner html : string) :
  Blocks.actorInner content = Some inner ->
  Blocks.parseIronVaultBlock leaf inner = Some (Blocks.Ok html) ->
  exists nameHtml body,
    html = Blocks.articleOpen +:+ body +:+ Blocks.articleClose /\
    Blocks.parseActorBlock (Blocks.parseIronVaultBlock leaf) content
    = Some (Blocks.Ok (tpl "<section class=`actor`>
    <header><span>" +:+ nameHtml +:+ "</span></header>
    <div>" +:+ body +:+ "</div>
  </section>")).
Proof.
  intros Hinner Hhtml.
  assert (Hshape : exists body,
            html = Blocks.articleOpen +:+ body +:+ Blocks.articleClose).
  { unfold Blocks.parseIronVaultBlock in Hhtml. cbn [Blocks.parseWithin] in Hhtml.
    destruct (Blocks.loop _ _ _ _ _ _) as [[results| |]|]; try discriminate Hhtml.
    injection Hhtml as <-. eauto. }
  destruct Hshape as (body & ->).
  unfold Blocks.parseActorBlock. cbv zeta. rewrite Hinner, Hhtml.
  cbn [fmap option_fmap option_map Blocks.mapResult]. rewrite unwrap_article.
  eexists _, body. split; reflexivity.
Qed.

Lemma actor_nests_inner_markup_witness :
  exists nameHtml body,
    Blocks.articleOpen +:+ Blocks.parseDetailBlock "- hello" +:+ Blocks.articleClose
    = Blocks.articleOpen +:+ body +:+ Blocks.articleClose /\
    Blocks.parseActorBlock (Blocks.parseIronVaultBlock (fun _ _ => Blocks.Throws))
      (tpl "actor name=`Ash` { - hello }")
    = Some (Blocks.Ok (tpl "<section class=`actor`>
    <header><span>" +:+ nameHtml +:+ "</span></header>
    <div>" +:+ body +:+ "</div>
  </section>")).
Proof.
  apply (actor_nests_inner_markup (fun _ _ => Blocks.Throws)
           (tpl "actor name=`Ash` { - hello }") "- hello"
           (Blocks.articleOpen +:+ Blocks.parseDetailBlock "- hello"
            +:+ Blocks.articleClose));
    vm_compute; reflexivity.
Defined.

(** ** Statements of one line *)

Lemma hyphen_key_absent (line key : string) :
  occurs "-" key -> Blocks.parseProps line !! key = None.
Proof.
  intros Hocc. destruct (Blocks.parseProps line !! key) as [v|] eqn:E; [| reflexivity].
  apply parseProps_key in E as [_ E]. specialize (E _ Hocc). discriminate E.
Qed.

Ltac hyphen_keys :=
  repeat match goal with
    | |- context [Blocks.parseProps ?line !! ?key] =>
        rewrite (hyphen_key_absent line key) by (cbn [occurs]; tauto)
    | H : context [Blocks.parseProps ?line !! ?key] |- _ =>
        rewrite (hyphen_key_absent line key) in H by (cbn [occurs]; tauto)
    end.

(** X20.  The boxes and ticks of a track statement are never read: when
    [parseTrackBlock] renders a track without a status, the four fields
    [from-boxes], [from-ticks], [to-boxes] and [to-ticks] show 0, whatever
    the line says. *)
Theorem track_change_shows_zeros (line html : string) :
  Leaves.parseTrackBlock line = Blocks.Ok html ->
  exists slug name,
    (exists status, html = Leaves.trackStatus slug name status) \/
    html = Leaves.trackChange slug name "0" "0" "0" "0".
Proof.
  unfold Leaves.parseTrackBlock. cbv zeta. hyphen_keys.
  cbn [Leaves.shownOr].
  destruct (Blocks.truthy _).
  - destruct (match searchFirst Blocks.matchWikiName line with
              | Some (_, d) => Blocks.Ok d
              | None => Blocks.stringOr (Blocks.parseProps line !! "name") None
              end) as [name| |]; cbn [Leaves.bind]; try discriminate.
    destruct (Leaves.shownOr _ _) as [status| |]; cbn [Leaves.bind]; try discriminate.
    intros [= <-]. eexists _, name. left. eexists. reflexivity.
  - destruct (match searchFirst Blocks.matchWikiName line with
              | Some (_, d) => Blocks.Ok d
              | None => Blocks.stringOr (Blocks.parseProps line !! "name") None
              end) as [name| |]; cbn [Leaves.bind]; try discriminate.
    intros [= <-]. eexists _, name. right. reflexivity.
Qed.

Lemma track_change_shows_zeros_witness :
  match Leaves.parseTrackBlock
          (tpl "track name=`[[Progress/Vow.md|Vow]]` from-boxes=2 from-ticks=1 to-boxes=3 to-ticks=1")
  with
  | Blocks.Ok html =>
      exists slug name,
        (exists status, html = Leaves.trackStatus slug name status) \/
        html = Leaves.trackChange slug name "0" "0" "0" "0"
  | _ => False
  end.
Proof.
  destruct (Leaves.parseTrackBlock _) as [html| |] eqn:E;
    [exact (track_change_shows_zeros _ html E) | vm_compute in E; discriminate E ..].
Defined.

Lemma rerollDie_unknown (fromTag toTag : string) (die : option Blocks.PropValue)
    (html out : string) :
  Leaves.rerollDie fromTag toTag None die (Blocks.Ok html) = Blocks.Ok out ->
  exists shownDie,
    out = html +:+ Leaves.rerolledFrom fromTag toTag shownDie /\
    (is_Some shownDie <-> is_Some die).
Proof.
  unfold Leaves.rerollDie. destruct die as [die|].
  - cbn [Leaves.bind Leaves.shownOr].
    destruct (Leaves.shown die) as [v| |]; cbn [Leaves.bind]; try discriminate.
    intros [= <-]. exists (Some v). split.
    + cbn [Leaves.rerolledFrom]. now rewrite !append_assoc.
    + split; eauto.
  - intros [= <-]. exists None. split.
    + cbn [Leaves.rerolledFrom]. now rewrite append_nil_r.
    + split; intros [? [=]].
Qed.

Lemma rerollDie_Ok (fromTag toTag : string) (old die : option Blocks.PropValue)
    (html : Blocks.Result string) (out : string) :
  Leaves.rerollDie fromTag toTag old die html = Blocks.Ok out ->
  exists before, html = Blocks.Ok before.
Proof.
  unfold Leaves.rerollDie. destruct die as [die|]; [| eauto].
  destruct html as [before| |]; cbn [Leaves.bind]; try discriminate. eauto.
Qed.

(** X21.  The former values of a reroll are never read: each die that
    [parseRerollBlock] shows has a question mark as its value before the
    reroll, whatever the line says, and the dice shown are those the line
    gives a new value. *)
Theorem reroll_old_values_unknown (line html : string) :
  Leaves.parseRerollBlock line = Blocks.Ok html ->
  exists action vs1 vs2 : option string,
    html = tpl "<dl class=`reroll`><dt>Reroll</dt>"
           +:+ Leaves.rerolledFrom (tpl "<dd class=`action-die from`>")
                 (tpl "<dd class=`action-die to`>") action
           +:+ Leaves.rerolledFrom (tpl "<dd class=`challenge-die from vs1`>")
                 (tpl "<dd class=`challenge-die to vs1`>") vs1
           +:+ Leaves.rerolledFrom (tpl "<dd class=`challenge-die from vs2`>")
                 (tpl "<dd class=`challenge-die to vs2`>") vs2
           +:+ "</dl>" /\
    (is_Some action <-> is_Some (Blocks.parseProps line !! "action")) /\
    (is_Some vs1 <-> is_Some (Blocks.parseProps line !! "vs1")) /\
    (is_Some vs2 <-> is_Some (Blocks.parseProps line !! "vs2")).
Proof.
  unfold Leaves.parseRerollBlock. cbv zeta. hyphen_keys. intros H.
  destruct (Leaves.rerollDie _ _ None (Blocks.parseProps line !! "vs2") _)
    as [h3| |] eqn:E3; try discriminate H.
  cbn [Blocks.mapResult] in H. injection H as <-.
  destruct (rerollDie_Ok _ _ _ _ _ _ E3) as (h2 & E2). rewrite E2 in E3.
  destruct (rerollDie_Ok _ _ _ _ _ _ E2) as (h1 & E1). rewrite E1 in E2.
  apply rerollDie_unknown in E1 as (action & -> & Ha).
  apply rerollDie_unknown in E2 as (vs1 & -> & H1).
  apply rerollDie_unknown in E3 as (vs2 & -> & H2).
  exists action, vs1, vs2. split; [now rewrite !append_assoc | tauto].
Qed.

Lemma reroll_old_values_unknown_witness :
  match Leaves.parseRerollBlock (tpl "reroll action=4 old-action=2 vs2=9") with
  | Blocks.Ok html =>
      exists action vs1 vs2 : option string,
        html = tpl "<dl class=`reroll`><dt>Reroll</dt>"
               +:+ Leaves.rerolledFrom (tpl "<dd class=`action-die from`>")
                     (tpl "<dd class=`action-die to`>") action
               +:+ Leaves.rerolledFrom (tpl "<dd class=`challenge-die from vs1`>")
                     (tpl "<dd class=`challenge-die to vs1`>") vs1
               +:+ Leaves.rerolledFrom (tpl "<dd class=`challenge-die from vs2`>")
                     (tpl "<dd class=`challenge-die to vs2`>") vs2
               +:+ "</dl>" /\
        (is_Some action <->
         is_Some (Blocks.parseProps (tpl "reroll action=4 old-action=2 vs2=9") !! "action")) /\
        (is_Some vs1 <->
         is_Some (Blocks.parseProps (tpl "reroll action=4 old-action=2 vs2=9") !! "vs1")) /\
        (is_Some vs2 <->
         is_Some (Blocks.parseProps (tpl "reroll action=4 old-action=2 vs2=9") !! "vs2"))
  | _ => False
  end.
Proof.
  destruct (Leaves.parseRerollBlock _) as [html| |] eqn:E;
    [exact (reroll_old_values_unknown _ html E) | vm_compute in E; discriminate E ..].
Defined.

(** *** [parseInitiativeBlock] *)

(** X22.  The class and the text that [parseInitiativeBlock] gives a
    position always go together: the class is no-initiative exactly for
    the texts In a bad spot and No initiative, has-initiative exactly for
    In control and Has initiative, out-of-combat exactly for Out of
    combat. *)
Theorem initiative_class_matches_text (init : string) :
  (Leaves.getInitClass init = "no-initiative" <->
   Leaves.getInitText init = "In a bad spot" \/
   Leaves.getInitText init = "No initiative") /\
  (Leaves.getInitClass init = "has-initiative" <->
   Leaves.getInitText init = "In control" \/
   Leaves.getInitText init = "Has initiative") /\
  (Leaves.getInitClass init = "out-of-combat" <->
   Leaves.getInitText init = "Out of combat").
Proof.
  unfold Leaves.getInitClass, Leaves.getInitText.
  destruct (Leaves.testPattern "bad.spot" init),
           (Leaves.testPattern "no.initiative" init),
           (Leaves.testPattern "in.control" init),
           (Leaves.testPattern "initiative" init);
    cbn [orb]; repeat split; intros H;
    try discriminate H; try (destruct H as [H|H]; discriminate H);
    try reflexivity; try (left; reflexivity); try (right; reflexivity).
Qed.

Lemma matchesAt_literal (pat s : string) :
  ~ occurs "." pat ->
  Leaves.matchesAt pat s = startsWith pat (toLowerCase s).
Proof.
  revert s; induction pat as [|p pat IH]; intros s Hno; [now destruct s |].
  destruct s as [|c s]; [reflexivity |].
  cbn [Leaves.matchesAt toLowerCase smap startsWith].
  destruct (Ascii.eqb_spec p ".") as [->|_]; [exfalso; apply Hno; now left |].
  rewrite IH; [reflexivity |]. intros H. apply Hno. now right.
Qed.

Lemma testPattern_literal (pat s : string) :
  ~ occurs "." pat ->
  Leaves.testPattern pat s = includes pat (toLowerCase s).
Proof.
  intros Hno. induction s as [|c s IH].
  - cbn [Leaves.testPattern includes toLowerCase smap].
    now rewrite (matchesAt_literal pat "" Hno).
  - cbn [Leaves.testPattern]. rewrite IH, (matchesAt_literal _ _ Hno).
    reflexivity.
Qed.

Lemma matchesAt_tail (c : ascii) (pat s : string) :
  Leaves.matchesAt (String c pat) s = true ->
  exists d r, s = String d r /\ Leaves.matchesAt pat r = true.
Proof.
  destruct s as [|d r]; cbn [Leaves.matchesAt]; [discriminate |].
  intros H. apply andb_true_iff in H as [_ H]. eauto.
Qed.

Lemma testPattern_tail (c : ascii) (pat s : string) :
  Leaves.testPattern (String c pat) s = true -> Leaves.testPattern pat s = true.
Proof.
  induction s as [|d r IH]; cbn [Leaves.testPattern]; intros H.
  - rewrite orb_false_r in H. discriminate H.
  - apply orb_true_iff in H as [H|H].
    + apply matchesAt_tail in H as (d' & r' & [= -> ->] & H).
      apply orb_true_iff. right. destruct r' as [|e r'']; cbn [Leaves.testPattern];
        rewrite H; reflexivity.
    + apply IH in H. apply orb_true_iff. right. exact H.
Qed.

(** X23.  The two parsers class a position without initiative in
    different ways: a position that reads no initiative, with any one
    character between the two words and in any case, is in-control for the
    inline parser ([renderInitiative]) and no-initiative for the block
    parser ([parseInitiativeBlock]). *)
Theorem no_initiative_two_classes (position : string) :
  Leaves.testPattern "no.initiative" position = true ->
  Inline.initiativeClass position = "initiative-in-control" /\
  Leaves.getInitClass position = "no-initiative".
Proof.
  intros H. split.
  - assert (Hi : includes "initiative" (toLowerCase position) = true).
    { rewrite <- testPattern_literal.
      - now do 3 apply testPattern_tail in H.
      - cbn [occurs]. intros Ho.
        repeat (destruct Ho as [Ho|Ho]; [discriminate Ho |]). exact Ho. }
    unfold Inline.initiativeClass. cbv zeta. rewrite Hi, orb_true_r. reflexivity.
  - unfold Leaves.getInitClass. rewrite H, orb_true_r. reflexivity.
Qed.

Lemma no_initiative_two_classes_witness :
  Inline.initiativeClass "No Initiative" = "initiative-in-control" /\
  Leaves.getInitClass "No Initiative" = "no-initiative".
Proof.
  apply (no_initiative_two_classes "No Initiative"). vm_compute. reflexivity.
Defined.

(** ** The link fixer *)

(** A character is none of those of a string that is written out. *)
Ltac absent :=
  cbn [occurs]; let H := fresh in
  intros H; repeat (destruct H as [H|H]; [discriminate H |]); exact H.

Lemma occurs_replaceSuffix (suf rep : string) (c : ascii) (s : string) :
  occurs c (Links.replaceSuffix suf rep s) -> occurs c s \/ occurs c rep.
Proof.
  induction s as [|d r IH]; [tauto |].
  cbn [Links.replaceSuffix]. destruct (String.eqb (String d r) suf); cbn [occurs]; tauto.
Qed.

(** X24.  A path made by [obsidianToHtmlPath] holds no space, no
    apostrophe and no upper-case letter. *)
Theorem obsidian_path_shape (obsidianPath : string) (c : ascii) :
  occurs c (Links.obsidianToHtmlPath obsidianPath) ->
  c <> " "%char /\ c <> "'"%char /\ isUpper c = false.
Proof.
  unfold Links.obsidianToHtmlPath. intros H.
  apply occurs_removeChars in H as [H Hq].
  assert (Hq' : c <> "'"%char).
  { intros ->. discriminate Hq. }
  apply occurs_replaceChar in H as [[Hs H]|H].
  - split; [exact Hs |]. split; [exact Hq' |].
    apply occurs_replaceSuffix in H as [H|H].
    + apply occurs_smap in H as (d & _ & ->). apply lowerChar_not_upper.
    + cbn [occurs] in H.
      repeat (destruct H as [->|H]; [reflexivity |]). destruct H.
  - destruct H as [->|[]]. repeat split; discriminate.
Qed.

Lemma obsidian_path_shape_witness :
  "-"%char <> " "%char /\ "-"%char <> "'"%char /\ isUpper "-" = false.
Proof.
  apply (obsidian_path_shape "Kara's Ship.md" "-"). vm_compute. tauto.
Defined.















Section FileNames.

Variables dir name : string.
Hypothesis no_slash : ~ occurs "/" name.
Hypothesis no_apostrophe : ~ occurs "'" name.
Hypothesis no_html : includes ".html" (toLowerCase name) = false.








End FileNames.


(** ** Names with a markdown link *)

Lemma takeWhile_stop (p : ascii -> bool) (a : string) (d : ascii) (b : string) :
  (forall c, occurs c a -> p c = true) -> p d = false ->
  takeWhile p (a +:+ String d b) = a.
Proof.
  intros Ha Hd. induction a as [|c a IH]; cbn [String.append takeWhile].
  - now rewrite Hd.
  - rewrite (Ha c) by (now left). rewrite IH; [reflexivity |].
    intros e He. apply Ha. now right.
Qed.

Lemma notChar_absent (d : ascii) (s : string) :
  ~ occurs d s -> forall c, occurs c s -> Blocks.notChar d c = true.
Proof.
  intros Hno c Hc. unfold Blocks.notChar.
  destruct (Ascii.eqb_spec d c) as [->|]; [contradiction | reflexivity].
Qed.

Lemma notChar_self (d : ascii) : Blocks.notChar d d = false.
Proof. unfold Blocks.notChar. now rewrite Ascii.eqb_refl. Qed.

Lemma isEmpty_false_iff (s : string) : s <> "" -> isEmpty s = false.
Proof. now destruct s. Qed.

Lemma matchMarkdownLink_link (text target post : string) :
  text <> "" -> ~ occurs "]" text -> target <> "" -> ~ occurs ")" target ->
  Leaves.matchMarkdownLink
    (String "[" (text +:+ String "]" (String "(" (target +:+ String ")" post))))
  = Some (text, post).
Proof.
  intros Ht Hb Hg Hp. unfold Leaves.matchMarkdownLink.
  cbn [stripPrefix Ascii.eqb Bool.eqb]. cbv zeta.
  rewrite (takeWhile_stop _ text "]" _ (notChar_absent _ _ Hb) (notChar_self _)).
  rewrite (isEmpty_false_iff _ Ht), sdrop_append.
  cbn [stripPrefix Ascii.eqb Bool.eqb].
  rewrite (takeWhile_stop _ target ")" _ (notChar_absent _ _ Hp) (notChar_self _)).
  rewrite (isEmpty_false_iff _ Hg), sdrop_append.
  reflexivity.
Qed.

Lemma matchMarkdownLink_other (c : ascii) (r : string) :
  c <> "["%char -> Leaves.matchMarkdownLink (String c r) = None.
Proof.
  intros Hc. unfold Leaves.matchMarkdownLink. cbn [stripPrefix].
  destruct (Ascii.eqb_spec "[" c) as [<-|]; [congruence | reflexivity].
Qed.

Lemma replaceMarkdownLink_after (pre s : string) :
  ~ occurs "[" pre ->
  Leaves.replaceMarkdownLink (pre +:+ s) = pre +:+ Leaves.replaceMarkdownLink s.
Proof.
  induction pre as [|c pre IH]; intros Hno; [reflexivity |].
  cbn [String.append]. unfold Leaves.replaceMarkdownLink; fold Leaves.replaceMarkdownLink.
  rewrite matchMarkdownLink_other by (intros ->; apply Hno; now left).
  rewrite IH; [reflexivity |]. intros H. apply Hno. now right.
Qed.

(** X26.  Of the first markdown link of a name its text is kept:
    [replaceMarkdownLink] takes the brackets and the target away and
    leaves what is before and after the link as it is.  A name without an
    opening square bracket is not changed. *)
Theorem markdown_link_gives_text (pre text target post : string) :
  ~ occurs "[" pre ->
  text <> "" -> ~ occurs "]" text -> target <> "" -> ~ occurs ")" target ->
  Leaves.replaceMarkdownLink
    (pre +:+ String "[" (text +:+ String "]" (String "(" (target +:+ String ")" post))))
  = pre +:+ text +:+ post /\
  Leaves.replaceMarkdownLink pre = pre.
Proof.
  intros Hpre Ht Hb Hg Hp. split.
  - rewrite replaceMarkdownLink_after by exact Hpre.
    unfold Leaves.replaceMarkdownLink; fold Leaves.replaceMarkdownLink.
    now rewrite matchMarkdownLink_link.
  - rewrite <- (append_nil_r pre) at 1.
    rewrite replaceMarkdownLink_after by exact Hpre.
    now rewrite append_nil_r.
Qed.

Lemma markdown_link_gives_text_witness :
  Leaves.replaceMarkdownLink "The [Face Danger](datasworn:move:starforged/adventure/face_danger) move"
  = "The Face Danger move" /\
  Leaves.replaceMarkdownLink "The " = "The ".
Proof.
  apply (markdown_link_gives_text "The " "Face Danger"
           "datasworn:move:starforged/adventure/face_danger" " move");
    try discriminate; absent.
Defined.

(** ** Reading back the props of a line *)

(** *** Scanning *)

Lemma scanAll_skip (A : Type) (m : string -> option (A * nat)) (a b : string) (k : nat) :
  scanAll m (String.length a + k) (a +:+ b) = scanAll m k b.
Proof. induction a as [|c a IH]; [now destruct b | exact IH]. Qed.

Lemma scanAll_pass (A : Type) (m : string -> option (A * nat)) (a t : string) :
  (forall a1 c a2, a = a1 +:+ String c a2 -> m (String c a2 +:+ t) = None) ->
  scanAll m O (a +:+ t) = scanAll m O t.
Proof.
  induction a as [|c a IH]; intros H; [now destruct t |].
  cbn [String.append scanAll].
  rewrite (H "" c a eq_refl : m (String c (a +:+ t)) = None).
  apply IH. intros a1 d a2 ->. exact (H (String c a1) d a2 eq_refl).
Qed.

Lemma scanAll_hit (A : Type) (m : string -> option (A * nat)) (c : ascii)
    (a t : string) (x : A) :
  m (String c a +:+ t) = Some (x, S (String.length a)) ->
  scanAll m O (String c a +:+ t) = x :: scanAll m O t.
Proof.
  intros H. cbn [String.append scanAll] in *. rewrite H.
  replace (S (String.length a) - 1)%nat with (String.length a + 0)%nat by lia.
  now rewrite scanAll_skip.
Qed.

(** *** The two patterns where they do not match *)

Lemma stopped_at (p : ascii -> bool) (a : string) (d : ascii) (b : string) :
  p d = false ->
  exists x y,
    sdrop (String.length (takeWhile p (a +:+ String d b))) (a +:+ String d b)
    = String x y /\ (occurs x a \/ x = d).
Proof.
  intros Hd. induction a as [|c a IH]; cbn [String.append takeWhile].
  - rewrite Hd. exists d, b. split; [reflexivity | now right].
  - destruct (p c) eqn:E; cbn [String.length sdrop].
    + destruct IH as (x & y & -> & Hx). exists x, y. split; [reflexivity |].
      destruct Hx; [left; now right | now right].
    + exists c, (a +:+ String d b). split; [reflexivity |]. left. now left.
Qed.

Lemma no_prop_at (s : string) (x : ascii) (y : string) :
  sdrop (String.length (takeWhile isWord s)) s = String x y -> x <> "="%char ->
  Blocks.matchQuotedProp s = None /\ Blocks.matchNumberProp s = None.
Proof.
  intros Hs Hx. split.
  - unfold Blocks.matchQuotedProp. cbv zeta. rewrite Hs.
    destruct (isEmpty _); [reflexivity |].
    change (tpl "=`") with (String "=" (String dq "")). cbn [stripPrefix].
    destruct (Ascii.eqb_spec "=" x) as [<-|]; [congruence | reflexivity].
  - unfold Blocks.matchNumberProp. cbv zeta. rewrite Hs.
    destruct (isEmpty _); [reflexivity |].
    destruct x as [[] [] [] [] [] [] [] []]; try reflexivity; congruence.
Qed.

Lemma no_prop_before_space (a b : string) :
  ~ occurs "=" a ->
  Blocks.matchQuotedProp (a +:+ String " " b) = None /\
  Blocks.matchNumberProp (a +:+ String " " b) = None.
Proof.
  intros Hno. destruct (stopped_at isWord a " " b eq_refl) as (x & y & Hs & Hx).
  apply (no_prop_at _ x y Hs). intros ->. destruct Hx as [Hx|Hx]; [now apply Hno | discriminate Hx].
Qed.

Lemma occurs_suffix (c : ascii) (a1 : string) (d : ascii) (a2 : string) :
  occurs c (String d a2) -> occurs c (a1 +:+ String d a2).
Proof. intros H. apply occurs_append. now right. Qed.

Lemma scan_plain_text (m : string -> option ((string * Blocks.PropValue) * nat))
    (a t : string) :
  m = Blocks.matchQuotedProp \/ m = Blocks.matchNumberProp ->
  ~ occurs "=" a -> propEnd t ->
  scanAll m O (a +:+ t) = scanAll m O t.
Proof.
  intros Hm Hno [->|[b ->]].
  - rewrite append_nil_r. apply scanAll_none; [| exact Hno].
    intros s Hs. destruct Hm as [-> | ->]; now apply no_equals_no_match.
  - apply scanAll_pass. intros a1 c a2 ->.
    assert (H : ~ occurs "=" (String c a2)).
    { intros H. apply Hno. now apply occurs_suffix. }
    destruct Hm as [-> | ->]; now apply (no_prop_before_space (String c a2) b).
Qed.

(** *** The two patterns where they match *)

Lemma key_read (key : string) (t : string) :
  (forall c, occurs c key -> isWord c = true) ->
  takeWhile isWord (key +:+ String "=" t) = key /\
  sdrop (String.length key) (key +:+ String "=" t) = String "=" t.
Proof.
  intros Hk. split; [now apply takeWhile_stop | apply sdrop_append].
Qed.

Lemma matchQuotedProp_read (key s t : string) :
  wordKey key -> ~ occurs dq s ->
  Blocks.matchQuotedProp (key +:+ String "=" (String dq (s +:+ String dq t)))
  = Some ((key, Blocks.VStr s), (String.length key + 2 + String.length s + 1)%nat).
Proof.
  intros [Hne Hk] Hs. unfold Blocks.matchQuotedProp. cbv zeta.
  destruct (key_read key (String dq (s +:+ String dq t)) Hk) as [-> ->].
  rewrite (isEmpty_false_iff _ Hne).
  change (tpl "=`") with (String "=" (String dq "")).
  cbn [stripPrefix]. rewrite !Ascii.eqb_refl.
  rewrite (takeWhile_stop _ s dq _ (notChar_absent _ _ Hs) (notChar_self _)).
  rewrite sdrop_append. reflexivity.
Qed.

Lemma matchQuotedProp_other (key : string) (x : ascii) (y : string) :
  (forall c, occurs c key -> isWord c = true) -> x <> dq ->
  Blocks.matchQuotedProp (key +:+ String "=" (String x y)) = None.
Proof.
  intros Hk Hx. unfold Blocks.matchQuotedProp. cbv zeta.
  destruct (key_read key (String x y) Hk) as [-> ->].
  destruct (isEmpty key); [reflexivity |].
  change (tpl "=`") with (String "=" (String dq "")).
  cbn [stripPrefix]. rewrite Ascii.eqb_refl.
  destruct (Ascii.eqb_spec dq x) as [<-|]; [congruence | reflexivity].
Qed.

Lemma matchNumberProp_other (key : string) (x : ascii) (y : string) :
  (forall c, occurs c key -> isWord c = true) ->
  isDigit x = false -> x <> "-"%char ->
  Blocks.matchNumberProp (key +:+ String "=" (String x y)) = None.
Proof.
  intros Hk Hd Hx. unfold Blocks.matchNumberProp. cbv zeta.
  destruct (key_read key (String x y) Hk) as [-> ->].
  destruct (isEmpty key); [reflexivity |].
  destruct x as [[] [] [] [] [] [] [] []]; try congruence;
    cbn [takeWhile]; rewrite ?Hd; try reflexivity; discriminate Hd.
Qed.

Ltac same_span :=
  match goal with
  | |- Some (?a, ?n) = Some (?b, ?m) => replace n with m by lia; reflexivity
  end.

Lemma digits_end (ds t : string) :
  (forall c, occurs c ds -> isDigit c = true) -> propEnd t ->
  takeWhile isDigit (ds +:+ t) = ds.
Proof.
  intros Hd [->|[b ->]].
  - rewrite append_nil_r. now apply takeWhile_all.
  - now apply takeWhile_stop.
Qed.

Lemma matchNumberProp_unsigned (key ds t : string) :
  wordKey key -> ds <> "" -> (forall c, occurs c ds -> isDigit c = true) ->
  isSafe (digitsValue 10 digitVal 0 ds) = true ->
  propEnd t ->
  Blocks.matchNumberProp (key +:+ String "=" (ds +:+ t))
  = Some ((key, Blocks.VInt (digitsValue 10 digitVal 0 ds)),
          (String.length key + 1 + String.length ds)%nat).
Proof.
  intros [Hne Hk] Hds Hd Hsafe Ht. unfold Blocks.matchNumberProp. cbv zeta.
  destruct (key_read key (ds +:+ t) Hk) as [-> ->].
  rewrite (isEmpty_false_iff _ Hne).
  destruct ds as [|d ds']; [congruence |].
  assert (Hfrac : match sdrop (String.length (String d ds')) (String d ds' +:+ t) with
                  | String "." r2 => takeWhile isDigit r2
                  | _ => ""
                  end = "").
  { rewrite sdrop_append. destruct Ht as [->|[b ->]]; reflexivity. }
  pose proof (digits_end _ t Hd Ht) as Hrun.
  pose proof (Hd d (or_introl eq_refl)) as Hd0.
  destruct d as [[] [] [] [] [] [] [] []]; try discriminate Hd0;
    cbn [String.append] in *; rewrite Hrun, Hfrac;
    cbn [isEmpty Blocks.allZeros dropWhile orb andb]; rewrite Hsafe;
    cbn [String.length Nat.add]; same_span.
Qed.

Lemma matchNumberProp_negative (key ds t : string) :
  wordKey key -> ds <> "" -> (forall c, occurs c ds -> isDigit c = true) ->
  isSafe (- digitsValue 10 digitVal 0 ds) = true ->
  propEnd t ->
  Blocks.matchNumberProp (key +:+ String "=" (String "-" ds +:+ t))
  = Some ((key, Blocks.VInt (- digitsValue 10 digitVal 0 ds)),
          (String.length key + 1 + String.length (String "-" ds))%nat).
Proof.
  intros [Hne Hk] Hds Hd Hsafe Ht. unfold Blocks.matchNumberProp. cbv zeta.
  destruct (key_read key (String "-" ds +:+ t) Hk) as [-> ->].
  rewrite (isEmpty_false_iff _ Hne).
  cbn [String.append].
  assert (Hfrac : match sdrop (String.length ds) (ds +:+ t) with
                  | String "." r2 => takeWhile isDigit r2
                  | _ => ""
                  end = "").
  { rewrite sdrop_append. destruct Ht as [->|[b ->]]; reflexivity. }
  rewrite (digits_end _ t Hd Ht), Hfrac, (isEmpty_false_iff _ Hds).
  cbn [isEmpty Blocks.allZeros dropWhile orb andb]. rewrite Hsafe.
  cbn [String.length]. same_span.
Qed.

(** The decimal digits of an integer. *)
Lemma showInt_digits (n : Z) :
  exists sign ds,
    showInt n = sign +:+ ds /\ (sign = "" \/ sign = "-") /\
    ds <> "" /\ (forall c, occurs c ds -> isDigit c = true) /\
    n = (if isEmpty sign then 1 else -1) * digitsValue 10 digitVal 0 ds.
Proof.
  unfold showInt. destruct n as [|p|p]; cbn [Z.to_int NilZero.string_of_int].
  - exists "", "0". split; [reflexivity |]. split; [now left |].
    split; [discriminate |]. split; [| reflexivity].
    intros c [->|[]]. reflexivity.
  - destruct (to_uint_digits (Pos.to_uint p)) as (Hne & Hd & Hv).
    exists "", (NilZero.string_of_uint (Pos.to_uint p)).
    split; [reflexivity |]. split; [now left |].
    split; [exact Hne |]. split; [exact Hd |].
    rewrite Hv, DecimalPos.Unsigned.of_to. cbn [isEmpty]. lia.
  - destruct (to_uint_digits (Pos.to_uint p)) as (Hne & Hd & Hv).
    exists "-", (NilZero.string_of_uint (Pos.to_uint p)).
    split; [reflexivity |]. split; [now right |].
    split; [exact Hne |]. split; [exact Hd |].
    rewrite Hv, DecimalPos.Unsigned.of_to. cbn [isEmpty]. lia.
Qed.

Ltac same_read :=
  match goal with
  | |- Some (_, Blocks.VInt ?a, ?n) = Some (_, Blocks.VInt ?b, ?m) =>
      replace b with a by lia;
      replace m with n by (cbn [String.length]; lia);
      reflexivity
  end.

Lemma matchNumberProp_read (key : string) (n : Z) (t : string) :
  wordKey key -> isSafe n = true -> propEnd t ->
  Blocks.matchNumberProp (key +:+ String "=" (showInt n +:+ t))
  = Some ((key, Blocks.VInt n), (String.length key + 1 + String.length (showInt n))%nat).
Proof.
  intros Hk Hsafe Ht.
  destruct (showInt_digits n) as (sign & ds & -> & [-> | ->] & Hne & Hd & ->).
  - cbn [String.append isEmpty] in *.
    rewrite (matchNumberProp_unsigned key ds t Hk Hne Hd); [same_read | | exact Ht].
    rewrite <- Hsafe. f_equal; lia.
  - change ("-" +:+ ds) with (String "-" ds). cbn [isEmpty] in *.
    rewrite (matchNumberProp_negative key ds t Hk Hne Hd); [same_read | | exact Ht].
    rewrite <- Hsafe. f_equal; lia.
Qed.

Lemma showInt_head (n : Z) (t : string) :
  exists x y, showInt n +:+ t = String x y /\ x <> dq /\ ~ occurs "=" (showInt n).
Proof.
  assert (Hno : ~ occurs "=" (showInt n)).
  { intros H. apply showInt_chars in H as [H|H]; discriminate H. }
  destruct (showInt n) as [|x y] eqn:E.
  - destruct (showInt_digits n) as (sign & ds & Hs & [-> | ->] & Hne & _);
      rewrite E in Hs; [now destruct ds | discriminate Hs].
  - exists x, (y +:+ t). split; [reflexivity |]. split; [| exact Hno].
    intros ->. assert (H : occurs dq (showInt n)) by (rewrite E; now left).
    apply showInt_chars in H as [H|H]; discriminate H.
Qed.

(** *** Scanning one prop *)

Lemma key_suffix (key a1 : string) (c : ascii) (a2 : string) :
  (forall d, occurs d key -> isWord d = true) ->
  key +:+ String "=" "" = a1 +:+ String c a2 ->
  exists k, String c a2 = k +:+ String "=" "" /\
            forall d, occurs d k -> isWord d = true.
Proof.
  revert a1; induction key as [|e key IH]; intros a1 Hk E.
  - destruct a1 as [|? [|? ?]]; cbn [String.append] in E; try discriminate E.
    injection E as <- <-. exists "". split; [reflexivity | intros d []].
  - destruct a1 as [|f a1]; cbn [String.append] in E.
    + injection E as <- <-. exists (String e key). split; [reflexivity | exact Hk].
    + injection E as <- E. apply (IH a1); [| exact E].
      intros d Hd. apply Hk. now right.
Qed.

Lemma scan_key (m : string -> option ((string * Blocks.PropValue) * nat))
    (key t : string) :
  (forall d, occurs d key -> isWord d = true) ->
  (forall k, (forall d, occurs d k -> isWord d = true) -> m (k +:+ String "=" t) = None) ->
  scanAll m O (key +:+ String "=" t) = scanAll m O t.
Proof.
  intros Hk Hm.
  replace (key +:+ String "=" t) with ((key +:+ String "=" "") +:+ t)
    by (now rewrite append_assoc).
  apply scanAll_pass. intros a1 c a2 E.
  destruct (key_suffix key a1 c a2 Hk E) as (k & -> & Hw).
  rewrite append_assoc. now apply Hm.
Qed.

Lemma scanAll_at (m : string -> option ((string * Blocks.PropValue) * nat))
    (a t : string) (x : string * Blocks.PropValue) :
  a <> "" -> m (a +:+ t) = Some (x, String.length a) ->
  scanAll m O (a +:+ t) = x :: scanAll m O t.
Proof.
  destruct a as [|c a]; [congruence |]. intros _ H. now apply scanAll_hit.
Qed.

Section OneProp.

Variables key t : string.
Hypothesis key_word : wordKey key.
Hypothesis at_end : propEnd t.

Lemma quoted_scan_string (s : string) :
  ~ occurs dq s ->
  scanAll Blocks.matchQuotedProp O (propText (key, Blocks.VStr s) +:+ t)
  = (key, Blocks.VStr s) :: scanAll Blocks.matchQuotedProp O t.
Proof.
  intros Hs. apply scanAll_at.
  - unfold propText. cbn [fst snd]. destruct key_word as [Hne _].
    destruct key; [congruence | discriminate].
  - unfold propText. cbn [fst snd]. rewrite append_assoc. cbn [String.append].
    rewrite append_assoc. cbn [String.append].
    rewrite (matchQuotedProp_read key s t key_word Hs).
    f_equal. f_equal. rewrite !length_append. cbn [String.length].
    rewrite length_append. cbn [String.length]. lia.
Qed.

Lemma number_scan_string (s : string) :
  ~ occurs "=" s ->
  scanAll Blocks.matchNumberProp O (propText (key, Blocks.VStr s) +:+ t)
  = scanAll Blocks.matchNumberProp O t.
Proof.
  intros Hs. unfold propText. cbn [fst snd]. rewrite append_assoc. cbn [String.append].
  rewrite scan_key.
  - replace (String dq ((s +:+ String dq "") +:+ t))
      with (String dq (s +:+ String dq "") +:+ t) by reflexivity.
    apply scan_plain_text; [now right | | exact at_end].
    cbn [occurs]. intros [H|H]; [discriminate H |].
    apply occurs_append in H as [H|[H|[]]]; [now apply Hs | discriminate H].
  - apply key_word.
  - intros k Hk. apply matchNumberProp_other; [exact Hk | reflexivity | discriminate].
Qed.

Lemma quoted_scan_number (n : Z) :
  scanAll Blocks.matchQuotedProp O (propText (key, Blocks.VInt n) +:+ t)
  = scanAll Blocks.matchQuotedProp O t.
Proof.
  unfold propText. cbn [fst snd]. rewrite append_assoc. cbn [String.append].
  destruct (showInt_head n t) as (x & y & E & Hx & Hno).
  rewrite scan_key.
  - apply scan_plain_text; [now left | exact Hno | exact at_end].
  - apply key_word.
  - intros k Hk. rewrite E. now apply matchQuotedProp_other.
Qed.

Lemma number_scan_number (n : Z) :
  isSafe n = true ->
  scanAll Blocks.matchNumberProp O (propText (key, Blocks.VInt n) +:+ t)
  = (key, Blocks.VInt n) :: scanAll Blocks.matchNumberProp O t.
Proof.
  intros Hsafe. apply scanAll_at.
  - unfold propText. cbn [fst snd]. destruct key_word as [Hne _].
    destruct key; [congruence | discriminate].
  - unfold propText. cbn [fst snd]. rewrite append_assoc. cbn [String.append].
    rewrite (matchNumberProp_read key n t key_word Hsafe at_end).
    f_equal. f_equal. rewrite length_append. cbn [String.length]. lia.
Qed.

End OneProp.

(** *** Scanning the props of a line *)

Lemma propsText_end (kvs : list (string * Blocks.PropValue)) : propEnd (propsText kvs).
Proof. destruct kvs as [|kv rest]; [now left | right; cbn [propsText]; eauto]. Qed.

Lemma quoted_scan (kvs : list (string * Blocks.PropValue)) :
  Forall plainProp kvs ->
  scanAll Blocks.matchQuotedProp O (propsText kvs)
  = List.filter (fun kv => isText kv.2) kvs.
Proof.
  induction 1 as [|[key v] rest (Hkey & _ & Hv) _ IH]; [reflexivity |].
  cbn [propsText List.filter fst snd].
  unfold scanAll at 1; fold (@scanAll (string * Blocks.PropValue)).
  change (Blocks.matchQuotedProp (String " " ?s)) with (@None ((string * Blocks.PropValue) * nat)).
  cbn [fst snd] in Hkey, Hv. destruct v as [s|n|lit]; cbn [isText]; [| | destruct Hv].
  - rewrite (quoted_scan_string key _ Hkey s (proj1 Hv)). now rewrite IH.
  - rewrite (quoted_scan_number key _ Hkey (propsText_end rest) n). exact IH.
Qed.

Lemma number_scan (kvs : list (string * Blocks.PropValue)) :
  Forall plainProp kvs ->
  scanAll Blocks.matchNumberProp O (propsText kvs)
  = List.filter (fun kv => negb (isText kv.2)) kvs.
Proof.
  induction 1 as [|[key v] rest (Hkey & _ & Hv) _ IH]; [reflexivity |].
  cbn [propsText List.filter fst snd].
  unfold scanAll at 1; fold (@scanAll (string * Blocks.PropValue)).
  change (Blocks.matchNumberProp (String " " ?s)) with (@None ((string * Blocks.PropValue) * nat)).
  cbn [fst snd] in Hkey, Hv. destruct v as [s|n|lit]; cbn [isText negb]; [| | destruct Hv].
  - rewrite (number_scan_string key _ Hkey (propsText_end rest) s (proj2 Hv)). exact IH.
  - rewrite (number_scan_number key _ Hkey (propsText_end rest) n Hv). now rewrite IH.
Qed.

Lemma parseProps_text (kind : string) (kvs : list (string * Blocks.PropValue)) :
  ~ occurs "=" kind -> Forall plainProp kvs ->
  Blocks.parseProps (kind +:+ propsText kvs)
  = foldl Blocks.assign
      (foldl Blocks.assign ∅ (List.filter (fun kv => isText kv.2) kvs))
      (List.filter (fun kv => negb (isText kv.2)) kvs).
Proof.
  intros Hkind Hkvs. unfold Blocks.parseProps. cbv zeta.
  rewrite !scan_plain_text by (auto using propsText_end).
  now rewrite quoted_scan, number_scan.
Qed.

(** *** The props object *)

Lemma foldl_assign_other (l : list (string * Blocks.PropValue))
    (m : gmap string Blocks.PropValue) (key : string) :
  ~ In key (map fst l) -> foldl Blocks.assign m l !! key = m !! key.
Proof.
  revert m; induction l as [|[k v] l IH]; intros m Hno; [reflexivity |].
  cbn [foldl]. rewrite IH by (intros H; apply Hno; now right).
  unfold Blocks.assign. cbn [fst snd].
  destruct (String.eqb k "__proto__"); [reflexivity |]. apply lookup_insert_ne.
  intros ->. apply Hno. now left.
Qed.

Lemma foldl_assign_in (l : list (string * Blocks.PropValue))
    (m : gmap string Blocks.PropValue) (key : string) (v : Blocks.PropValue) :
  key <> "__proto__" -> List.NoDup (map fst l) -> In (key, v) l ->
  foldl Blocks.assign m l !! key = Some v.
Proof.
  intros Hown. revert m; induction l as [|[k w] l IH]; intros m Hnd Hin; [destruct Hin |].
  cbn [map fst] in Hnd. apply List.NoDup_cons_iff in Hnd as [Hk Hnd].
  cbn [foldl]. destruct Hin as [[= -> ->]|Hin].
  - rewrite foldl_assign_other by exact Hk.
    unfold Blocks.assign. cbn [fst snd].
    destruct (String.eqb_spec key "__proto__"); [contradiction |].
    apply lookup_insert_eq.
  - now apply IH.
Qed.

Lemma keys_filter (f : string * Blocks.PropValue -> bool)
    (l : list (string * Blocks.PropValue)) (key : string) :
  In key (map fst (List.filter f l)) ->
  exists v, In (key, v) l /\ f (key, v) = true.
Proof.
  intros H. apply List.in_map_iff in H as ([k v] & <- & H).
  apply List.filter_In in H. exists v. exact H.
Qed.

Lemma NoDup_keys_filter (f : string * Blocks.PropValue -> bool)
    (l : list (string * Blocks.PropValue)) :
  List.NoDup (map fst l) -> List.NoDup (map fst (List.filter f l)).
Proof.
  induction l as [|[k v] l IH]; intros H; [constructor |].
  cbn [map fst] in H. apply List.NoDup_cons_iff in H as [Hk Hnd].
  cbn [List.filter]. destruct (f (k, v)); [| now apply IH].
  cbn [map fst]. apply List.NoDup_cons; [| now apply IH].
  intros Hin. apply keys_filter in Hin as (w & Hin & _).
  apply Hk. apply List.in_map_iff. exists (k, w). now split.
Qed.

Lemma NoDup_keys_value (l : list (string * Blocks.PropValue)) (key : string)
    (v w : Blocks.PropValue) :
  List.NoDup (map fst l) -> In (key, v) l -> In (key, w) l -> v = w.
Proof.
  induction l as [|[k u] l IH]; intros H Hv Hw; [destruct Hv |].
  cbn [map fst] in H. apply List.NoDup_cons_iff in H as [Hk Hnd].
  assert (Hin : forall x, In (k, x) l -> False).
  { intros x Hx. apply Hk. apply List.in_map_iff. exists (k, x). now split. }
  destruct Hv as [Ev|Hv], Hw as [Ew|Hw].
  - congruence.
  - injection Ev as -> _. destruct (Hin _ Hw).
  - injection Ew as -> _. destruct (Hin _ Hv).
  - now apply IH.
Qed.

(** X27.  What is written is read back.  In a line made of a statement
    kind and of props, each after a space, with keys that are words other
    than [__proto__] and differ from one another, string values between
    double quotes that hold no double quote and no equals sign, and safe
    integers in decimal digits, the object that [parseProps] returns has
    every prop with its value as an own property, and no other own
    property. *)
Theorem props_read_back (kind : string) (kvs : list (string * Blocks.PropValue)) :
  ~ occurs "=" kind -> Forall plainProp kvs -> List.NoDup (map fst kvs) ->
  (forall key v, In (key, v) kvs ->
                 Blocks.parseProps (kind +:+ propsText kvs) !! key = Some v) /\
  (forall key, ~ In key (map fst kvs) ->
               Blocks.parseProps (kind +:+ propsText kvs) !! key = None).
Proof.
  intros Hkind Hkvs Hnd. rewrite (parseProps_text kind kvs Hkind Hkvs). split.
  - intros key v Hin.
    assert (Hown : key <> "__proto__").
    { rewrite List.Forall_forall in Hkvs. apply (Hkvs (key, v) Hin). }
    destruct (isText v) eqn:Hv.
    + rewrite foldl_assign_other.
      * apply foldl_assign_in; [exact Hown | now apply NoDup_keys_filter |].
        apply List.filter_In. now split.
      * intros H. apply keys_filter in H as (w & Hw & Hf). cbn [snd] in Hf.
        rewrite <- (NoDup_keys_value kvs key v w Hnd Hin Hw), Hv in Hf. discriminate Hf.
    + apply foldl_assign_in; [exact Hown | now apply NoDup_keys_filter |].
      apply List.filter_In. split; [exact Hin |]. cbn [snd]. now rewrite Hv.
  - intros key Hno.
    rewrite !foldl_assign_other; [apply lookup_empty | |];
      intros H; apply keys_filter in H as (w & Hw & _);
      apply Hno; apply List.in_map_iff; exists (key, w); now split.
Qed.

Ltac absent_key :=
  cbn [In]; let H := fresh in
  intros H; repeat (destruct H as [H|H]; [discriminate H |]); exact H.

Lemma props_read_back_witness :
  Blocks.parseProps
    ("meter" +:+ propsText [("name", Blocks.VStr "Health"); ("from", Blocks.VInt 5);
                            ("to", Blocks.VInt 3)]) !! "to"
  = Some (Blocks.VInt 3).
Proof.
  apply (props_read_back "meter"
           [("name", Blocks.VStr "Health"); ("from", Blocks.VInt 5); ("to", Blocks.VInt 3)]).
  - absent.
  - repeat constructor; cbn [fst snd]; try discriminate; try absent;
      intros c H; cbn [occurs] in H;
      repeat (destruct H as [->|H]; [reflexivity |]); destruct H.
  - cbn [map fst]. repeat (apply List.NoDup_cons; [absent_key |]). constructor.
  - right. right. left. reflexivity.
Defined.

(** ** The two notations of [add] *)

Lemma props_without_equals (line : string) :
  ~ occurs "=" line -> Blocks.parseProps line = ∅.
Proof.
  intros Hno. unfold Blocks.parseProps. cbv zeta.
  rewrite !scanAll_none; trivial; intros t Ht; now apply no_equals_no_match.
Qed.

Lemma quoted_reason (reason : string) :
  reason <> "" -> ~ occurs dq reason ->
  (let r4 := reason +:+ String dq "" in
   let text := takeWhile (Blocks.notChar dq) r4 in
   if isEmpty text then None
   else if isEmpty (sdrop (String.length text) r4) then None
   else Some text) = Some reason.
Proof.
  intros Hne Hq. cbv zeta.
  rewrite (takeWhile_stop _ reason dq _ (notChar_absent _ _ Hq) (notChar_self _)).
  rewrite (isEmpty_false_iff _ Hne), sdrop_append. reflexivity.
Qed.

#[local] Arguments Blocks.notChar : simpl never.

Lemma matchSimpleAdd_read (sign ds reason : string) :
  sign = "" \/ sign = "-" ->
  ds <> "" -> (forall c, occurs c ds -> isDigit c = true) ->
  reason <> "" -> ~ occurs dq reason ->
  Leaves.matchSimpleAdd
    ("add " +:+ sign +:+ ds +:+ String " " (String dq (reason +:+ String dq "")))
  = Some (sign +:+ ds, Some reason).
Proof.
  intros Hsign Hne Hd Hr Hq.
  pose proof (quoted_reason reason Hr Hq) as Hreason. cbv zeta in Hreason.
  destruct ds as [|d ds']; [congruence |].
  pose proof (Hd d (or_introl eq_refl)) as Hd0.
  assert (Hd' : forall c, occurs c ds' -> isDigit c = true)
    by (intros c Hc; apply Hd; now right).
  pose proof (takeWhile_stop isDigit ds' " " (String dq (reason +:+ String dq "")) Hd' eq_refl)
    as Hrun.
  pose proof (sdrop_append ds' (String " " (String dq (reason +:+ String dq "")))) as Hrest.
  unfold Leaves.matchSimpleAdd.
  change dq with "034"%char in *.
  destruct Hsign as [-> | ->];
    destruct d as [[] [] [] [] [] [] [] []]; try discriminate Hd0;
    simpl; rewrite Hrun; simpl; rewrite Hrest; simpl; rewrite Hreason; reflexivity.
Qed.

Lemma add_props (n : Z) (reason : string) :
  isSafe n = true -> ~ occurs dq reason -> ~ occurs "=" reason ->
  let line := "add" +:+ propsText [("amount", Blocks.VInt n); ("from", Blocks.VStr reason)] in
  Blocks.parseProps line !! "amount" = Some (Blocks.VInt n) /\
  Blocks.parseProps line !! "from" = Some (Blocks.VStr reason).
Proof.
  intros Hsafe Hq He. cbv zeta. rewrite parseProps_text.
  - cbn [List.filter isText negb snd]. split.
    + apply foldl_assign_in; [discriminate | | now left].
      cbn [map fst]. apply List.NoDup_cons; [intros [] | constructor].
    + rewrite foldl_assign_other by (cbn [map fst In]; intros [H|[]]; discriminate H).
      apply foldl_assign_in; [discriminate | | now left].
      cbn [map fst]. apply List.NoDup_cons; [intros [] | constructor].
  - absent.
  - repeat constructor; cbn [fst snd]; try discriminate; try assumption;
      intros c H; cbn [occurs] in H;
      repeat (destruct H as [->|H]; [reflexivity |]); destruct H.
Qed.

(** X28.  The two notations of an added amount give the same markup: the
    props [amount] and [from], and the amount followed by the reason
    between double quotes.  The amount is a safe integer that is not zero,
    the reason is not empty and holds no double quote and no equals
    sign. *)
Theorem add_two_notations (n : Z) (reason : string) :
  n <> 0 -> Z.abs n <= Leaves.maxSafeInteger ->
  reason <> "" -> ~ occurs dq reason -> ~ occurs "=" reason ->
  Leaves.parseAddBlock
    ("add" +:+ propsText [("amount", Blocks.VInt n); ("from", Blocks.VStr reason)])
  = Blocks.Ok (Leaves.addMarkup n reason) /\
  Leaves.parseAddBlock
    ("add " +:+ showInt n +:+ String " " (String dq (reason +:+ String dq "")))
  = Blocks.Ok (Leaves.addMarkup n reason).
Proof.
  intros Hn Hsafe Hr Hq He.
  assert (Hguard : (Z.abs n <=? Leaves.maxSafeInteger) = true) by now apply Z.leb_le.
  assert (Hzero : (n =? 0) = false) by now apply Z.eqb_neq.
  split.
  - destruct (add_props n reason Hguard Hq He) as [Ha Hf]. cbv zeta in Ha, Hf.
    unfold Leaves.parseAddBlock. cbv zeta. rewrite Ha, Hf.
    cbn [Blocks.numberOr Blocks.truthy Leaves.bind]. rewrite Hzero.
    cbn [Leaves.bind]. rewrite Hzero, (isEmpty_false_iff _ Hr). cbn [negb].
    now rewrite Hguard.
  - destruct (showInt_digits n) as (sign & ds & Hshow & Hsign & Hne & Hd & _).
    assert (Hno : ~ occurs "=" ("add " +:+ showInt n +:+
                                String " " (String dq (reason +:+ String dq "")))).
    { intros H. cbn [String.append occurs] in H.
      repeat (destruct H as [H|H]; [discriminate H |]).
      apply occurs_append in H as [H|H].
      - apply showInt_chars in H as [H|H]; discriminate H.
      - cbn [occurs] in H. repeat (destruct H as [H|H]; [discriminate H |]).
        apply occurs_append in H as [H|[H|[]]]; [now apply He | discriminate H]. }
    unfold Leaves.parseAddBlock. cbv zeta. rewrite (props_without_equals _ Hno).
    rewrite !lookup_empty. cbn [Blocks.numberOr Blocks.truthy Leaves.bind Z.eqb].
    assert (Hm : searchFirst Leaves.matchSimpleAdd
                   ("add " +:+ showInt n +:+
                    String " " (String dq (reason +:+ String dq "")))
                 = Some (showInt n, Some reason)).
    { rewrite Hshow, append_assoc.
      change ("add " +:+ sign +:+ ds +:+ ?x) with (String "a" ("dd " +:+ sign +:+ ds +:+ x)).
      unfold searchFirst.
      change (String "a" ("dd " +:+ sign +:+ ds +:+ ?x)) with ("add " +:+ sign +:+ ds +:+ x).
      now rewrite (matchSimpleAdd_read sign ds reason Hsign Hne Hd Hr Hq). }
    rewrite Hm, parseInt_showInt. cbn [intOr strOr]. rewrite Hzero, (isEmpty_false_iff _ Hr).
    now rewrite Hguard.
Qed.

Lemma add_two_notations_witness :
  Leaves.parseAddBlock (tpl "add amount=2 from=`Aid Your Ally`")
  = Blocks.Ok (Leaves.addMarkup 2 "Aid Your Ally") /\
  Leaves.parseAddBlock (tpl "add 2 `Aid Your Ally`")
  = Blocks.Ok (Leaves.addMarkup 2 "Aid Your Ally").
Proof.
  apply (add_two_notations 2 "Aid Your Ally"); try discriminate; absent.
Defined.

(** ** A statement that fails *)

Section Failure.

Variable leaf : Blocks.Kind -> string -> Blocks.Result string.

Lemma loop_failure (rec : string -> option (Blocks.Result string))
    (lines : list string) (line : string) (after : list string) :
  lineMarkup leaf line = Some Blocks.Throws ->
  forall (before : list string) (htmls : list string) (fuel i : nat)
         (results : list string),
    (length lines - i <= fuel)%nat ->
    drop i lines = before ++ line :: after ->
    Forall2 (fun l html => lineMarkup leaf l = Some (Blocks.Ok html)) before htmls ->
    Blocks.loop leaf rec fuel lines i results = Some Blocks.Throws.
Proof.
  intros Hline. induction before as [|l before IH];
    intros htmls fuel i results Hfuel Hdrop Hall.
  - assert (Hlt : (i < length lines)%nat).
    { apply (f_equal length) in Hdrop. rewrite length_drop in Hdrop.
      cbn [app length] in Hdrop. lia. }
    destruct fuel as [|fuel]; [lia |]. cbn [Blocks.loop].
    destruct (Nat.ltb_spec i (length lines)); [| lia].
    assert (Hi : lines !! i = Some line).
    { rewrite <- (Nat.add_0_r i), <- lookup_drop, Hdrop. reflexivity. }
    unfold Blocks.iteration. rewrite (lookup_lineAt _ _ _ Hi).
    unfold lineMarkup in Hline.
    destruct (Blocks.classify (trim line)) as [k|]; [| discriminate Hline].
    destruct (Blocks.spansLines k) eqn:Hk; [discriminate Hline |].
    assert (Hr : Blocks.render leaf rec k (trim line) = Some Blocks.Throws).
    { destruct k; try discriminate Hk; exact Hline. }
    rewrite Hr. reflexivity.
  - assert (Hlt : (i < length lines)%nat).
    { apply (f_equal length) in Hdrop. rewrite length_drop in Hdrop.
      cbn [app length] in Hdrop. lia. }
    destruct fuel as [|fuel]; [lia |]. cbn [Blocks.loop].
    destruct (Nat.ltb_spec i (length lines)); [| lia].
    assert (Hi : lines !! i = Some l).
    { rewrite <- (Nat.add_0_r i), <- lookup_drop, Hdrop. reflexivity. }
    inversion Hall as [|? html ? htmls' Hhead Htail]; subst.
    assert (Hnext : drop (i + 1) lines = before ++ line :: after).
    { rewrite Nat.add_1_r. rewrite (drop_S _ _ _ Hi) in Hdrop. now injection Hdrop. }
    unfold Blocks.iteration. rewrite (lookup_lineAt _ _ _ Hi).
    unfold lineMarkup in Hhead.
    destruct (Blocks.classify (trim l)) as [k|].
    + destruct (Blocks.spansLines k) eqn:Hk; [discriminate Hhead |].
      assert (Hr : Blocks.render leaf rec k (trim l) = Some (Blocks.Ok html)).
      { destruct k; try discriminate Hk; exact Hhead. }
      rewrite Hr. cbn [fmap option_fmap option_map Blocks.mapResult].
      apply (IH htmls'); [lia | exact Hnext | exact Htail].
    + apply (IH htmls'); [lia | exact Hnext | exact Htail].
Qed.

(** X29.  One statement that fails makes the whole block fail.  When a
    line of a block is a statement of one line whose renderer throws, and
    the lines before it are statements of one line that are rendered, or
    no statements, then [parseIronVaultBlock] throws: no markup is made of
    the lines before or after. *)
Theorem failing_line_fails_block (text line : string)
    (before after htmls : list string) :
  split Blocks.newline (trim text) = before ++ line :: after ->
  Forall2 (fun l html => lineMarkup leaf l = Some (Blocks.Ok html)) before htmls ->
  lineMarkup leaf line = Some Blocks.Throws ->
  Blocks.parseIronVaultBlock leaf text = Some Blocks.Throws.
Proof.
  intros Hsplit Hall Hline. unfold Blocks.parseIronVaultBlock. cbn [Blocks.parseWithin].
  rewrite (loop_failure _ _ line after Hline before htmls); [reflexivity | lia | | exact Hall].
  now rewrite drop_0.
Qed.

End Failure.

Lemma failing_line_fails_block_witness :
  Blocks.parseIronVaultBlock
    (fun k line => match k with
                   | Blocks.KTrack => Leaves.parseTrackBlock line
                   | _ => Blocks.Beyond
                   end)
    (join (String Blocks.newline "") ["- before"; "track name=5"; "- after"])
  = Some Blocks.Throws.
Proof.
  apply (failing_line_fails_block _ _ "track name=5" ["- before"] ["- after"]
           [Blocks.parseDetailBlock "- before"]).
  - vm_compute. reflexivity.
  - repeat (constructor; [vm_compute; reflexivity |]). constructor.
  - vm_compute. reflexivity.
Defined.
